(** * MCIK ASCII torus: renderer, metrics and auto-tuning controller

    A shallow embedding of
      - [experiments/ascii_torus/cpp/ascii_torus.cpp]
      - [experiments/ascii_torus/cpp/mcik_controller.hpp]
      - [modules/cpp/include/mcik/experiments/ascii_torus/metrics.hpp]
      - [modules/cpp/include/mcik/mic_cause_kernel.hpp], with the [main]
        of [modules/cpp/src/main.cpp]

    C++ [double] is IEEE-754 binary64, modelled by the standard library's
    [spec_float] at precision 53 and maximal exponent 1024; [int] is a
    32-bit two's complement integer carried in [Z]; [char] is a byte;
    [std::vector] and [std::string] are lists, and an access outside the
    container (undefined behaviour in C++) is the [None] of the option
    monad. *)

From Stdlib Require Import ZArith Lia Bool List.
From Stdlib Require Import Floats.SpecFloat.
From Stdlib Require Import Strings.Byte Strings.String.
From stdpp Require Import base option list.

Local Open Scope Z_scope.

(** ** 32-bit [int] *)

Module Int.

Definition INT_MIN : Z := - 2 ^ 31.
Definition INT_MAX : Z := 2 ^ 31 - 1.

(** Two's complement wrap-around of a mathematical integer. *)
Definition wrap (z : Z) : Z := (z + 2 ^ 31) mod 2 ^ 32 - 2 ^ 31.

Definition add (a b : Z) : Z := wrap (a + b).
Definition sub (a b : Z) : Z := wrap (a - b).
Definition mul (a b : Z) : Z := wrap (a * b).
(** [a / b] of C++ truncates toward zero. *)
Definition div (a b : Z) : Z := wrap (Z.quot a b).

Definition in_range (z : Z) : bool := (INT_MIN <=? z) && (z <=? INT_MAX).

(** [std::clamp(v, lo, hi)] is [(v < lo) ? lo : (hi < v) ? hi : v]. *)
Definition clamp (v lo hi : Z) : Z :=
  if v <? lo then lo else if hi <? v then hi else v.

(** [std::max(a, b)] is [(a < b) ? b : a]; [std::min(a, b)] is [(b < a) ? b : a]. *)
Definition max (a b : Z) : Z := if a <? b then b else a.
Definition min (a b : Z) : Z := if b <? a then b else a.

End Int.

(** ** binary64 [double] *)

Module Double.

Definition prec : Z := 53.
Definition emax : Z := 1024.

Definition double : Type := spec_float.

Definition add : double -> double -> double := SFadd prec emax.
Definition sub : double -> double -> double := SFsub prec emax.
Definition mul : double -> double -> double := SFmul prec emax.
Definition div : double -> double -> double := SFdiv prec emax.
Definition sqrt : double -> double := SFsqrt prec emax.

(** [a < b], [a <= b], [a == b]; all false when an operand is NaN. *)
Definition ltb : double -> double -> bool := SFltb.
Definition leb : double -> double -> bool := SFleb.
Definition eqb : double -> double -> bool := SFeqb.
(** [a > b] and [a >= b] are the mirrored comparisons. *)
Definition gtb (a b : double) : bool := ltb b a.
Definition geb (a b : double) : bool := leb b a.

Definition is_nan (x : double) : bool :=
  match x with S754_nan => true | _ => false end.

Definition is_finite (x : double) : bool :=
  match x with S754_zero _ | S754_finite _ _ _ => true | _ => false end.

(** Conversion of an integer to [double], rounded to nearest even (exact
    below [2^53], so exact for every [int]). *)
Definition of_Z (z : Z) : double := binary_normalize prec emax z 0 false.

Definition zero : double := S754_zero false.
Definition one : double := Eval vm_compute in of_Z 1.
Definition pinf : double := S754_infinity false.
Definition nan : double := S754_nan.

(** A decimal literal [num / den] whose numerator and denominator are both
    exactly representable: the correctly rounded quotient is the literal. *)
Definition lit (num den : Z) : double := div (of_Z num) (of_Z den).

(** [std::clamp], [std::max], [std::min] on doubles, by their definitions
    through [operator<]. *)
Definition clamp (v lo hi : double) : double :=
  if ltb v lo then lo else if ltb hi v then hi else v.
Definition max (a b : double) : double := if ltb a b then b else a.
Definition min (a b : double) : double := if ltb b a then b else a.

(** The integer part of a finite double, rounded toward zero. *)
Definition truncZ (x : double) : option Z :=
  match x with
  | S754_zero _ => Some 0
  | S754_finite s m e => Some (cond_Zopp s (Z.shiftl (Z.pos m) e))
  | _ => None
  end.

(** The largest integer not above a finite double. *)
Definition floorZ (x : double) : option Z :=
  match x with
  | S754_zero _ => Some 0
  | S754_finite false m e => Some (Z.shiftl (Z.pos m) e)
  | S754_finite true m e => Some (- Z.shiftl (Z.pos m + 2 ^ (- e) - 1) e)
  | _ => None
  end.

(** The nearest integer, halves away from zero ([std::round]). *)
Definition roundZ (x : double) : option Z :=
  match x with
  | S754_zero _ => Some 0
  | S754_finite s m e =>
      Some (cond_Zopp s (if e <? 0 then Z.shiftl (Z.pos m + 2 ^ (- e - 1)) e
                         else Z.shiftl (Z.pos m) e))
  | _ => None
  end.

(** [(int)x]: truncation toward zero.  When the value does not fit an
    [int] (or is NaN or infinite) C++ leaves the result undefined; the
    model returns what the x86-64 conversion instruction returns,
    [INT_MIN]. *)
Definition int_of_Z_opt (o : option Z) : Z :=
  match o with
  | Some z => if Int.in_range z then z else Int.INT_MIN
  | None => Int.INT_MIN
  end.

Definition to_int (x : double) : Z := int_of_Z_opt (truncZ x).
(** [(int)std::floor(x)] and [(int)std::round(x)]: the rounded double is an
    integer, so the conversion is exact when it fits. *)
Definition floor_to_int (x : double) : Z := int_of_Z_opt (floorZ x).
Definition round_to_int (x : double) : Z := int_of_Z_opt (roundZ x).

End Double.

Abbreviation double := Double.double.

(** ** Containers and loops *)

(** [v[i]] for a signed index: an index outside the container is an
    out-of-bounds access. *)
Definition get {A : Type} (l : list A) (i : Z) : option A :=
  if i <? 0 then None else l !! Z.to_nat i.

(** [v[i] = x]. *)
Definition set {A : Type} (l : list A) (i : Z) (x : A) : option (list A) :=
  if i <? 0 then None
  else if (Z.to_nat i <? length l)%nat then Some (<[Z.to_nat i := x]> l)
  else None.

(** The values taken by [i] in [for (int i = lo; i < hi; ++i)]. *)
Definition int_range (lo hi : Z) : list Z :=
  map (fun k => lo + Z.of_nat k) (seq 0 (Z.to_nat (hi - lo))).

(** A loop whose body may fault: left fold in the option monad. *)
Fixpoint foldlM {A S : Type} (f : S -> A -> option S) (l : list A) (s : S)
  : option S :=
  match l with
  | [] => Some s
  | a :: l' => s' ← f s a; foldlM f l' s'
  end.

(** ** metrics.hpp *)

Module torus_metrics.

Import Double.

(** [static const char* ramp = " .:-=+*#%@"] inside [char_density]. *)
Definition density_ramp : list byte := list_byte_of_string " .:-=+*#%@".

(** The first [i < n] with [ramp[i] == c]. *)
Fixpoint find_rank (c : byte) (l : list byte) (i : Z) : option Z :=
  match l with
  | [] => None
  | x :: l' => if Byte.eqb x c then Some i else find_rank c l' (i + 1)
  end.

Definition char_density (c : byte) : double :=
  let n := 10 in
  match find_rank c density_ramp 0 with
  | Some i => div (of_Z i) (of_Z (Int.sub n 1))
  | None =>
      let uc := Z.of_N (Byte.to_N c) in
      clamp (div (sub (of_Z uc) (of_Z 32)) (sub (of_Z 126) (of_Z 32)))
            zero one
  end.

(** The body of the inner loop of [estimate_ascii_quality] at column [x] of
    row [y]; the state is [(acc, cnt)]. *)
Definition quality_cell (buf : list byte) (w y : Z) (st : double * Z) (x : Z)
  : option (double * Z) :=
  let '(acc, cnt) := st in
  let off := Int.add (Int.mul y w) x in
  b1 ← get buf (Int.sub off 1);
  b2 ← get buf (Int.add off 1);
  b3 ← get buf (Int.sub off w);
  b4 ← get buf (Int.add off w);
  let cx1 := char_density b1 in
  let cx2 := char_density b2 in
  let cy1 := char_density b3 in
  let cy2 := char_density b4 in
  let gx := mul (lit 5 10) (sub cx2 cx1) in
  let gy := mul (lit 5 10) (sub cy2 cy1) in
  let g := sqrt (add (mul gx gx) (mul gy gy)) in
  Some (add acc g, Int.add cnt 1).

Definition quality_row (buf : list byte) (w : Z) (st : double * Z) (y : Z)
  : option (double * Z) :=
  foldlM (quality_cell buf w y) (int_range 1 (Int.sub w 1)) st.

Definition estimate_ascii_quality (buf : list byte) (w h : Z) : option double :=
  if (w <? 3) || (h <? 3) then Some zero
  else
    '(acc, cnt) ← foldlM (quality_row buf w) (int_range 1 (Int.sub h 1)) (zero, 0);
    if cnt =? 0 then Some zero
    else
      let avg := div acc (of_Z cnt) in
      let q := clamp avg zero one in
      Some q.

(** The body of the loop of [estimate_ascii_similarity]. *)
Definition similarity_cell (buf ref : list byte) (acc : double) (i : Z)
  : option double :=
  b ← get buf i;
  c ← get ref i;
  let d := char_density b in
  let r := char_density c in
  let e := sub d r in
  Some (add acc (mul e e)).

Definition estimate_ascii_similarity (buf ref : list byte) (w h : Z)
  : option double :=
  if negb (length buf =? length ref)%nat
     || negb (Int.wrap (Z.of_nat (length buf)) =? Int.mul w h)
  then Some zero
  else
    let cnt := Int.mul w h in
    acc ← foldlM (similarity_cell buf ref) (int_range 0 cnt) zero;
    if cnt =? 0 then Some zero
    else
      let mse := div acc (of_Z cnt) in
      let sim := sub one mse in
      let sim := if ltb sim zero then zero else sim in
      let sim := if gtb sim one then one else sim in
      Some sim.

Definition moving_average (prev current alpha : double) : double :=
  add (mul alpha current) (mul (sub one alpha) prev).

End torus_metrics.

(** ** mcik_controller.hpp *)

Module mcik_ctrl.

Import Double.

Record ParamVector : Type := mkParamVector {
  resolution_scale : double;   (* 0.25..1.0 *)
  samples_per_pixel : Z;       (* 1..4 *)
  gamma : double;              (* 0.5..3.0 *)
  normal_smooth : double;      (* 0..1 *)
  ramp_size : Z                (* 8..16 *)
}.

Record StepSuggestion : Type := mkStepSuggestion {
  next : ParamVector;
  mode : string                (* "off" | "K" | "K+H" *)
}.

Definition clamp_params (p : ParamVector) : ParamVector :=
  {| resolution_scale := clamp (resolution_scale p) (lit 25 100) one;
     samples_per_pixel := Int.clamp (samples_per_pixel p) 1 4;
     gamma := clamp (gamma p) (lit 5 10) (of_Z 3);
     normal_smooth := clamp (normal_smooth p) zero one;
     ramp_size := Int.clamp (ramp_size p) 8 16 |}.

Record ProbeDeltas : Type := mkProbeDeltas {
  d_scale : double;
  d_spp : Z;
  d_gamma : double;
  d_ns : double;
  d_ramp : Z
}.

(** The default member initialisers of [ProbeDeltas]. *)
Definition default_deltas : ProbeDeltas :=
  {| d_scale := lit 5 100; d_spp := 1; d_gamma := lit 1 10;
     d_ns := lit 1 10; d_ramp := 2 |}.

(** Field updates [p.f += d] and [p.f -= d]. *)
Definition with_scale (f : double -> double) (p : ParamVector) : ParamVector :=
  {| resolution_scale := f (resolution_scale p);
     samples_per_pixel := samples_per_pixel p; gamma := gamma p;
     normal_smooth := normal_smooth p; ramp_size := ramp_size p |}.
Definition with_spp (f : Z -> Z) (p : ParamVector) : ParamVector :=
  {| resolution_scale := resolution_scale p;
     samples_per_pixel := f (samples_per_pixel p); gamma := gamma p;
     normal_smooth := normal_smooth p; ramp_size := ramp_size p |}.
Definition with_gamma (f : double -> double) (p : ParamVector) : ParamVector :=
  {| resolution_scale := resolution_scale p;
     samples_per_pixel := samples_per_pixel p; gamma := f (gamma p);
     normal_smooth := normal_smooth p; ramp_size := ramp_size p |}.
Definition with_ns (f : double -> double) (p : ParamVector) : ParamVector :=
  {| resolution_scale := resolution_scale p;
     samples_per_pixel := samples_per_pixel p; gamma := gamma p;
     normal_smooth := f (normal_smooth p); ramp_size := ramp_size p |}.
Definition with_ramp (f : Z -> Z) (p : ParamVector) : ParamVector :=
  {| resolution_scale := resolution_scale p;
     samples_per_pixel := samples_per_pixel p; gamma := gamma p;
     normal_smooth := normal_smooth p; ramp_size := f (ramp_size p) |}.

(** The local [struct Cand] of [suggest_step_K]. *)
Record Cand : Type := mkCand {
  cand_p : ParamVector;
  cand_score : double;
  cand_mode : string
}.

Section Controller.

(** The scoring closure [evaluate]; a function of the candidate alone. *)
Variable evaluate : ParamVector -> double.
Variable d : ProbeDeltas.

(** The lambda [try_update], on the captured [best]. *)
Definition try_update (best : Cand) (p : ParamVector) : Cand :=
  let p := clamp_params p in
  let s := evaluate p in
  if gtb s (cand_score best) then mkCand p s "K" else best.

(** The ten probes, in the order the source issues them. *)
Definition K_probes (current : ParamVector) : list ParamVector :=
  [ with_scale (fun x => add x (d_scale d)) current;
    with_scale (fun x => sub x (d_scale d)) current;
    with_spp (fun x => Int.add x (d_spp d)) current;
    with_spp (fun x => Int.sub x (d_spp d)) current;
    with_gamma (fun x => add x (d_gamma d)) current;
    with_gamma (fun x => sub x (d_gamma d)) current;
    with_ns (fun x => add x (d_ns d)) current;
    with_ns (fun x => sub x (d_ns d)) current;
    with_ramp (fun x => Int.add x (d_ramp d)) current;
    with_ramp (fun x => Int.sub x (d_ramp d)) current ].

Definition K_best (current : ParamVector) : Cand :=
  let base := evaluate current in
  fold_left try_update (K_probes current) (mkCand current base "K").

Definition suggest_step_K (current : ParamVector) : StepSuggestion :=
  let best := K_best current in
  mkStepSuggestion (cand_p best) (cand_mode best).

(** The lambda [try_pair], on the captured [bestScore] and [best]. *)
Definition try_pair (current : ParamVector)
    (st : double * StepSuggestion)
    (ab : (ParamVector -> ParamVector) * (ParamVector -> ParamVector))
  : double * StepSuggestion :=
  let '(bestScore, best) := st in
  let '(apply_a, apply_b) := ab in
  let pa := clamp_params (apply_a current) in
  let pb := clamp_params (apply_b current) in
  let pab := clamp_params (apply_b pa) in
  let s0 := evaluate current in
  let sa := evaluate pa in
  let sb := evaluate pb in
  let sab := evaluate pab in
  let delta_a := sub sa s0 in
  let delta_b := sub sb s0 in
  let delta_ab := sub sab s0 in
  let synergy := sub delta_ab (add delta_a delta_b) in
  if gtb synergy zero && gtb sab bestScore
  then (sab, mkStepSuggestion pab "K+H")
  else (bestScore, best).

(** The three pairs, in source order. *)
Definition KH_pairs
  : list ((ParamVector -> ParamVector) * (ParamVector -> ParamVector)) :=
  [ (with_scale (fun x => add x (d_scale d)),
     with_spp (fun x => Int.add x (d_spp d)));
    (with_gamma (fun x => add x (d_gamma d)),
     with_ns (fun x => add x (d_ns d)));
    (with_scale (fun x => sub x (d_scale d)),
     with_gamma (fun x => add x (d_gamma d))) ].

Definition suggest_step_KH (current : ParamVector) : StepSuggestion :=
  let bestK := suggest_step_K current in
  let bestScore := evaluate (next bestK) in
  let best := bestK in
  snd (fold_left (try_pair current) KH_pairs (bestScore, best)).

Definition suggest_step (current : ParamVector) (useH : bool) : StepSuggestion :=
  if useH then suggest_step_KH current else suggest_step_K current.

End Controller.

(** A vector within the documented domain of every field. *)
Definition in_domain (p : ParamVector) : bool :=
  leb (lit 25 100) (resolution_scale p) && leb (resolution_scale p) one
  && (1 <=? samples_per_pixel p) && (samples_per_pixel p <=? 4)
  && leb (lit 5 10) (gamma p) && leb (gamma p) (of_Z 3)
  && leb zero (normal_smooth p) && leb (normal_smooth p) one
  && (8 <=? ramp_size p) && (ramp_size p <=? 16).

End mcik_ctrl.

(** ** ascii_torus.cpp *)

Module ascii_torus.

Import Double.

Definition DEFAULT_RAMP : list byte :=
  list_byte_of_string " .:-=+*#%@adkfkajnondvakdfaoivqevlasdkjfacvu".

(** [s.size() - 1] in [size_t] arithmetic (64-bit, unsigned). *)
Definition size_minus_1 {A : Type} (l : list A) : Z :=
  (Z.of_nat (length l) - 1) mod 2 ^ 64.

(** [(int)s.size()]. *)
Definition int_size {A : Type} (l : list A) : Z :=
  Int.wrap (Z.of_nat (length l)).

(** The glyph pushed at iteration [i] of the loop of [make_ramp]. *)
Definition ramp_glyph (base : list byte) (ramp_size i : Z) : option byte :=
  let t := if ramp_size =? 1 then zero
           else div (of_Z i) (of_Z (Int.sub ramp_size 1)) in
  let idx := mul t (of_Z (size_minus_1 base)) in
  let i0 := floor_to_int idx in
  let i1 := Int.min (Int.sub (int_size base) 1) (Int.add i0 1) in
  let u := sub idx (of_Z i0) in
  if ltb u (lit 5 10) then get base i0 else get base i1.

(** [make_ramp].  No ramp is returned ([None]) when [ramp.reserve] throws
    [std::length_error], which it does for a negative [ramp_size] (the
    [int] converts to a [size_t] above [max_size()]), or when a glyph is
    read outside the master ramp. *)
Definition make_ramp (ramp_size : Z) : option (list byte) :=
  let base := DEFAULT_RAMP in
  if ramp_size =? int_size base then Some base
  else if ramp_size <? 0 then None
  else mapM (ramp_glyph base ramp_size) (int_range 0 ramp_size).

Record TorusModel : Type := mkTorusModel {
  R : double;   (* distance from center of tube to center of torus *)
  r : double    (* tube radius *)
}.

Record FrameStats : Type := mkFrameStats { fps : double; ms : double }.

(** The character buffer and the depth buffer that [render_torus_frame]
    updates in place. *)
Record Frame : Type := mkFrame {
  out_buf : list byte;
  zbuf : list double
}.

(** What one iteration of the inner loop computes before the depth test. *)
Record Sample : Type := mkSample {
  s_xp : Z;
  s_yp : Z;
  s_ooz : double;
  s_idx : Z
}.

(** [M_PI], the double nearest to pi: 0x1.921fb54442d18p+1. *)
Definition M_PI : double := S754_finite false 7074237752028440 (-51).

(** [for (double x = 0.0; x < bound; x += step)]: the values of [x] at
    which the body runs; [None] when [fuel] iterations do not exhaust the
    loop. *)
Fixpoint for_double (fuel : nat) (x step bound : double)
  : option (list double) :=
  if ltb x bound then
    match fuel with
    | O => None
    | S fuel' => cons x <$> for_double fuel' (add x step) step bound
    end
  else Some [].

Definition loop_fuel : nat := 512.

(** The iterates of the two angular loops ([theta += 0.07], [phi += 0.02],
    both below [2 * M_PI]). *)
Definition theta_values : list double :=
  default [] (for_double loop_fuel zero (lit 7 100) (mul (of_Z 2) M_PI)).
Definition phi_values : list double :=
  default [] (for_double loop_fuel zero (lit 2 100) (mul (of_Z 2) M_PI)).

(** Lines 228-235: the bounds check and the depth test. *)
Definition plot (w h : Z) (ramp : list byte) (fr : Frame) (s : Sample)
  : option Frame :=
  let xp := s_xp s in
  let yp := s_yp s in
  if (0 <=? xp) && (xp <? w) && (0 <=? yp) && (yp <? h) then
    let zb := s_ooz s in   (* larger is nearer *)
    let off := Int.add (Int.mul yp w) xp in
    z ← get (zbuf fr) off;
    if gtb zb z then
      zbuf' ← set (zbuf fr) off zb;
      c ← get ramp (s_idx s);
      out' ← set (out_buf fr) off c;
      Some (mkFrame out' zbuf')
    else Some fr
  else Some fr.

(** The two [std::fill] calls on entry. *)
Definition clear_frame (fr : Frame) : Frame :=
  mkFrame (replicate (length (out_buf fr)) " "%byte)
          (replicate (length (zbuf fr)) zero).

(** The depth tests of a pass, in loop order. *)
Definition run_pass (w h : Z) (ramp : list byte) (samples : list Sample)
    (fr : Frame) : option Frame :=
  foldlM (plot w h ramp) samples fr.

Section Libm.

(** [std::cos], [std::sin] and [std::pow] of the C library. *)
Variable cos sin : double -> double.
Variable pow : double -> double -> double.

Section Render.

Variables (w h : Z) (A B : double) (model : TorusModel) (ramp : list byte)
          (gamma cam_distance : double).

(** Lines 188-226: projection and shading of the surface point at
    [(theta, phi)]; it reads neither buffer. *)
Definition torus_sample (costh sinth phi : double) : Sample :=
  let R := R model in
  let r := r model in
  let cosA := cos A in let sinA := sin A in
  let cosB := cos B in let sinB := sin B in
  let lx := zero in let ly := one in let lz := SFopp one in
  let K1 := of_Z 20 in
  let K2 := cam_distance in
  let cosph := cos phi in let sinph := sin phi in
  let cx := mul (add R (mul r costh)) cosph in
  let cy := mul (add R (mul r costh)) sinph in
  let cz := mul r sinth in
  let x := sub (mul cx cosB) (mul cy sinB) in
  let y := add (mul cx sinB) (mul cy cosB) in
  let z := cz in
  let y2 := sub (mul y cosA) (mul z sinA) in
  let z2 := add (mul y sinA) (mul z cosA) in
  let ooz := div one (add z2 K2) in
  let xp := to_int (add (of_Z (Int.div w 2)) (mul (mul K1 ooz) x)) in
  let yp := to_int (add (of_Z (Int.div h 2))
                        (mul (mul (mul K1 ooz) y2) (lit 5 10))) in
  let nx := mul costh cosph in
  let ny := mul costh sinph in
  let nz := sinth in
  let nx_rz := sub (mul nx cosB) (mul ny sinB) in
  let ny_rz := add (mul nx sinB) (mul ny cosB) in
  let nz_rz := nz in
  let nny := sub (mul ny_rz cosA) (mul nz_rz sinA) in
  let nnz := add (mul ny_rz sinA) (mul nz_rz cosA) in
  let nnx := nx_rz in
  let L := add (add (mul nnx lx) (mul nny ly)) (mul nnz lz) in
  let L := max zero L in
  let shade := pow L (if gtb gamma zero then div one gamma else one) in
  let idx := floor_to_int (mul shade (of_Z (size_minus_1 ramp))) in
  let idx := Int.clamp idx 0 (Int.sub (int_size ramp) 1) in
  mkSample xp yp ooz idx.

(** The samples of the two nested loops, theta outermost. *)
Definition torus_samples : list Sample :=
  flat_map (fun theta =>
              let costh := cos theta in
              let sinth := sin theta in
              map (torus_sample costh sinth) phi_values)
           theta_values.

(** [render_torus_frame]: clear both buffers, then depth-test every sample
    in loop order.  A sample does not depend on the buffers, so the pass is
    the fold of [plot] over [torus_samples]. *)
Definition render_torus_frame (fr : Frame) : option Frame :=
  run_pass w h ramp torus_samples (clear_frame fr).

End Render.

(** Two's complement wrap-around at 64 bits, for the [int64_t] tick count
    of a [std::chrono] duration. *)
Definition int64_wrap (z : Z) : Z := (z + 2 ^ 63) mod 2 ^ 64 - 2 ^ 63.

(** [measure_frame_time].  A [steady_clock::time_point] is a count of
    nanoseconds in an [int64_t], and [end - start] is taken in that type;
    the cast to [duration<double, std::milli>] converts the difference to
    [double] and divides it by 1e6. *)
Definition measure_frame_time (start end_ : Z) : FrameStats :=
  let ms := div (of_Z (int64_wrap (end_ - start))) (of_Z 1000000) in
  let fps := if gtb ms zero then div (of_Z 1000) ms else zero in
  mkFrameStats fps ms.

(** [evaluate_score]; [t0] and [t1] are the two clock readings around the
    render.  A negative buffer size [w * h] makes the allocation fail. *)
Definition evaluate_score (pv : mcik_ctrl.ParamVector) (A B : double)
    (torus : TorusModel) (base_w base_h target_fps : Z)
    (w_fps w_quality cam_distance : double) (t0 t1 : Z) : option double :=
  let w := Int.max 10 (round_to_int
             (mul (of_Z base_w) (mcik_ctrl.resolution_scale pv))) in
  let h := Int.max 10 (round_to_int
             (mul (of_Z base_h) (mcik_ctrl.resolution_scale pv))) in
  ramp ← make_ramp (mcik_ctrl.ramp_size pv);
  if Int.mul w h <? 0 then None
  else
    let buf := replicate (Z.to_nat (Int.mul w h)) " "%byte in
    let zb := replicate (Z.to_nat (Int.mul w h)) zero in
    fr ← render_torus_frame w h A B torus ramp (mcik_ctrl.gamma pv)
                            cam_distance (mkFrame buf zb);
    let st := measure_frame_time t0 t1 in
    q ← torus_metrics.estimate_ascii_quality (out_buf fr) w h;
    let fps_norm := min (div (fps st) (of_Z (Int.max 1 target_fps))) one in
    let score := add (mul w_fps fps_norm) (mul w_quality q) in
    Some score.

End Libm.

(** The numeric options of [RenderParams] and its three string options. *)
Record RenderParams : Type := mkRenderParams {
  base_width : Z;
  base_height : Z;
  resolution_scale : double;
  samples_per_pixel : Z;
  gamma : double;
  normal_smooth : double;
  ramp_size : Z;
  target_fps : Z;
  mode : string;
  frames : Z;
  controller : string;
  ctrl_interval : Z;
  w_fps : double;
  w_quality : double;
  torus_R : double;
  torus_r : double;
  cam_distance : double;
  log_csv : string
}.

(** [parse_args] after its option loop (lines 106-119): the clamping of the
    values the options left in [params]. *)
Definition parse_args_clamp (params : RenderParams) : RenderParams :=
  let resolution_scale := clamp (resolution_scale params) (lit 25 100) one in
  let samples_per_pixel := Int.clamp (samples_per_pixel params) 1 4 in
  let gamma := clamp (gamma params) (lit 5 10) (of_Z 3) in
  let normal_smooth := clamp (normal_smooth params) zero one in
  let ramp_size := Int.clamp (ramp_size params) 8 16 in
  let target_fps := Int.max 1 (target_fps params) in
  let ctrl_interval := Int.max 1 (ctrl_interval params) in
  let cam_distance := max (lit 5 10) (cam_distance params) in
  (* Ensure R > r > 0 *)
  let torus_R := max (lit 1 10) (torus_R params) in
  let torus_r := max (lit 5 100) (torus_r params) in
  let torus_r := if geb torus_r torus_R
                 then max (lit 5 100) (mul torus_R (lit 4 10))
                 else torus_r in
  let s := add (w_fps params) (w_quality params) in
  let '(w_fps, w_quality) :=
    if leb s zero then (lit 5 10, lit 5 10)
    else (w_fps params, w_quality params) in
  {| base_width := base_width params; base_height := base_height params;
     resolution_scale := resolution_scale;
     samples_per_pixel := samples_per_pixel;
     gamma := gamma; normal_smooth := normal_smooth; ramp_size := ramp_size;
     target_fps := target_fps; mode := mode params; frames := frames params;
     controller := controller params; ctrl_interval := ctrl_interval;
     w_fps := w_fps; w_quality := w_quality;
     torus_R := torus_R; torus_r := torus_r; cam_distance := cam_distance;
     log_csv := log_csv params |}.

End ascii_torus.

(** * Specification vocabulary *)

Module ControllerSpec.

Import Double mcik_ctrl.

Section Invariants.

Variable evaluate : ParamVector -> double.

(** What [best] satisfies throughout [suggest_step_K]: its score is the
    score of its vector, and it is not below the score [base] of the input. *)
Definition K_inv (base : double) (best : Cand) : Prop :=
  cand_score best = evaluate (cand_p best) /\ leb base (cand_score best) = true.

(** What [(bestScore, best)] satisfies throughout [suggest_step_KH]. *)
Definition KH_inv (sK : double) (st : double * StepSuggestion) : Prop :=
  fst st = evaluate (next (snd st)) /\ leb sK (fst st) = true.

End Invariants.

(** The defaults of [RenderParams], a scoring function that is NaN
    everywhere, and one that ranks vectors by their ramp size. *)
Definition p_default : ParamVector :=
  mkParamVector one 1 one zero 12.
Definition score_nan (_ : ParamVector) : double := nan.
Definition score_by_ramp (p : ParamVector) : double := of_Z (ramp_size p).

End ControllerSpec.

Module RampSpec.

Import Double.

(** A glyph sequence runs from darkest to brightest when [char_density]
    never decreases from a glyph to the next. *)
Fixpoint density_ordered (l : list byte) : bool :=
  match l with
  | a :: (b :: _) as l' =>
      leb (torus_metrics.char_density a) (torus_metrics.char_density b)
      && density_ordered l'
  | _ => true
  end.

(** The ramp sizes of the domain of [ParamVector]. *)
Definition ramp_sizes : list Z := int_range 8 17.

End RampSpec.

Module RenderSpec.

Import Double ascii_torus.

(** No stored depth is NaN. *)
Definition no_nan (fr : Frame) : Prop :=
  forall i z, zbuf fr !! i = Some z -> is_nan z = false.

(** Every cell of the character buffer is blank or a glyph of the ramp. *)
Definition alphabet (ramp : list byte) (fr : Frame) : Prop :=
  forall i c, out_buf fr !! i = Some c -> c = " "%byte \/ In c ramp.

(** Two frames whose buffers have the same sizes. *)
Definition same_shape (fr1 fr2 : Frame) : Prop :=
  length (out_buf fr1) = length (out_buf fr2) /\
  length (zbuf fr1) = length (zbuf fr2).

(** Both buffers hold at least [w * h] cells, and [w * h] fits an [int]. *)
Definition roomy (w h : Z) (fr : Frame) : Prop :=
  w * h <= Int.INT_MAX /\
  w * h <= Z.of_nat (length (out_buf fr)) /\
  w * h <= Z.of_nat (length (zbuf fr)).

(** The ramp index of a sample is a position of the ramp. *)
Definition idx_in_ramp (ramp : list byte) (s : Sample) : Prop :=
  0 <= s_idx s < Z.of_nat (length ramp).

(** A two-cell frame with stale contents, three samples of equal depth, and
    stand-ins for the C library used to run the renderer on them. *)
Definition demo_ramp : list byte := list_byte_of_string "ab".
Definition demo_prior : Frame := mkFrame (list_byte_of_string "xx") [nan; nan].
Definition demo_first : Sample := mkSample 0 0 one 0.
Definition demo_tie : Sample := mkSample 0 0 one 1.
Definition demo_last : Sample := mkSample 1 0 one 1.
Definition demo_mid : Frame := mkFrame (list_byte_of_string "a ") [one; zero].
Definition demo_end : Frame := mkFrame (list_byte_of_string "ab") [one; one].
Definition libm_one (_ : double) : double := one.
Definition libm_fst (x _ : double) : double := x.
Definition demo_model : TorusModel := mkTorusModel (lit 25 10) (lit 3 10).

End RenderSpec.

Module RoundingSpec.

Import Double.

(** How [binary_round_aux] packs a mantissa and an exponent. *)
Definition pack (sx : bool) (m e : Z) : double :=
  match m with
  | Z0 => S754_zero sx
  | Z.pos p => if e <=? 971 then S754_finite sx p e else S754_infinity sx
  | Z.neg _ => S754_nan
  end.

(** The power of two [2^k], for [k] in the normal range. *)
Definition pow2 (k : Z) : double := S754_finite false 4503599627370496 (k - 52).

(** One half. *)
Definition half : double := pow2 (-1).

(** Positive sign, NaN excluded: [+0], a positive finite number or
    [+infinity]. *)
Definition nonneg (x : double) : bool :=
  match x with
  | S754_zero false | S754_finite false _ _ | S754_infinity false => true
  | _ => false
  end.

(** A valid double of [[0, 2^k]]. *)
Definition in_unit (k : Z) (x : double) : Prop :=
  nonneg x = true /\ valid_binary prec emax x = true /\ leb x (pow2 k) = true.

End RoundingSpec.

Module StepSpec.

Import Double mcik_ctrl.

(** The three double fields of a vector are not NaN. *)
Definition nan_free (p : ParamVector) : Prop :=
  is_nan (resolution_scale p) = false /\ is_nan (gamma p) = false /\
  is_nan (normal_smooth p) = false.

(** The candidate [pab] of [try_pair], and the synergy it computes. *)
Definition pair_candidate (current : ParamVector)
    (apply_a apply_b : ParamVector -> ParamVector) : ParamVector :=
  clamp_params (apply_b (clamp_params (apply_a current))).

Definition pair_synergy (evaluate : ParamVector -> double) (current : ParamVector)
    (apply_a apply_b : ParamVector -> ParamVector) : double :=
  let s0 := evaluate current in
  let sa := evaluate (clamp_params (apply_a current)) in
  let sb := evaluate (clamp_params (apply_b current)) in
  let sab := evaluate (pair_candidate current apply_a apply_b) in
  sub (sub sab s0) (add (sub sa s0) (sub sb s0)).

(** The ten field updates behind the probes and the pairs, at the default
    deltas. *)
(** The field updates of the controller, with the default deltas, keep the
    three double fields of a vector of the domain free of NaN. *)
Definition default_updates : list (ParamVector -> ParamVector) :=
  [ with_scale (fun x => add x (d_scale default_deltas));
    with_scale (fun x => sub x (d_scale default_deltas));
    with_spp (fun x => Int.add x (d_spp default_deltas));
    with_spp (fun x => Int.sub x (d_spp default_deltas));
    with_gamma (fun x => add x (d_gamma default_deltas));
    with_gamma (fun x => sub x (d_gamma default_deltas));
    with_ns (fun x => add x (d_ns default_deltas));
    with_ns (fun x => sub x (d_ns default_deltas));
    with_ramp (fun x => Int.add x (d_ramp default_deltas));
    with_ramp (fun x => Int.sub x (d_ramp default_deltas)) ].

(** A vector outside the domain in every field. *)
Definition p_wild : ParamVector :=
  mkParamVector (of_Z 7) 9 pinf (SFopp one) 100.

End StepSpec.

Module MetricsSpec.

Import Double RoundingSpec.

(** The accumulator of [estimate_ascii_quality] stays non-negative and the
    counter stays an [int]. *)
Definition quality_inv (st : double * Z) : Prop :=
  nonneg (fst st) = true /\ Int.INT_MIN <= snd st <= Int.INT_MAX.

(** A twelve-cell buffer and the quality [estimate_ascii_quality] gives it
    at 4 x 3. *)
Definition demo_buf : list byte := list_byte_of_string " .:-=+*#%@ .".
Definition demo_quality : double := S754_finite false 5541748584814814 (-54).

End MetricsSpec.

Module DepthSpec.

Import Double ascii_torus.

(** A cell is untouched (depth [+0.0], blank glyph) or holds a strictly
    positive depth. *)
Definition cell_ok (fr : Frame) (i : nat) : Prop :=
  forall z, zbuf fr !! i = Some z ->
    (z = zero /\ forall c, out_buf fr !! i = Some c -> c = " "%byte) \/
    gtb z zero = true.

End DepthSpec.

Module ScoreSpec.

Import Double.

(** The frame dimension [evaluate_score] derives from a base dimension. *)
Definition score_dim (base : Z) (pv : mcik_ctrl.ParamVector) : Z :=
  Int.max 10 (round_to_int (mul (of_Z base) (mcik_ctrl.resolution_scale pv))).

End ScoreSpec.

Module ConfigSpec.

Import Double ascii_torus.

(** The defaults of [RenderParams]. *)
Definition default_params : RenderParams :=
  {| base_width := 80; base_height := 24; resolution_scale := one;
     samples_per_pixel := 1; gamma := one; normal_smooth := zero;
     ramp_size := 12; target_fps := 30; mode := "interactive";
     frames := 300; controller := "off"; ctrl_interval := 10;
     w_fps := lit 5 10; w_quality := lit 5 10;
     torus_R := lit 25 10; torus_r := lit 3 10; cam_distance := of_Z 10;
     log_csv := EmptyString |}.

End ConfigSpec.

(** ** mic_cause_kernel.hpp *)

Module mcik.

Import Double.

(** The exceptions [Lattice1D] throws, with their messages. *)
Inductive exception : Type :=
| invalid_argument (what : string)
| out_of_range (what : string).

(** A call that may throw: it returns, throws, or reads a vector out of
    bounds. *)
Inductive result (A : Type) : Type :=
| Ok (a : A)
| Throw (e : exception)
| Undefined.

Arguments Ok {A} a.
Arguments Throw {A} e.
Arguments Undefined {A}.

(** [Lattice1D<double>].  [std::size_t] indices are natural numbers: every
    index the class computes is below [size_], so none wraps around. *)
Record Lattice1D : Type := mkLattice1D {
  size_ : nat;
  alpha_ : double;
  beta_ : double;
  state_ : list double;
  kernel_ : list (list double)
}.

(** The constructor: the members are initialised, then the size is
    checked. *)
Definition make (size : nat) (alpha beta : double) : result Lattice1D :=
  if (size <? 3)%nat
  then Throw (invalid_argument "Lattice1D expects at least three sites.")
  else Ok {| size_ := size; alpha_ := alpha; beta_ := beta;
             state_ := replicate size zero;
             kernel_ := replicate size (replicate size zero) |}.

(** What a caller can do through the reference [g()] returns: put any
    vector in place of the state. *)
Definition set_g (l : Lattice1D) (state : list double) : Lattice1D :=
  {| size_ := size_ l; alpha_ := alpha_ l; beta_ := beta_ l;
     state_ := state; kernel_ := kernel_ l |}.

Definition reset (l : Lattice1D) (state : list double) : result Lattice1D :=
  if negb (length state =? size_ l)%nat
  then Throw (invalid_argument
                "reset() expects a vector matching lattice size.")
  else Ok (set_g l state).

(** [std::numeric_limits<double>::epsilon()], 2^-52, and the step
    [eps = sqrt(epsilon)] of [compute_kernel]. *)
Definition epsilon : double := S754_finite false 4503599627370496 (-104).
Definition eps : double := sqrt epsilon.

Section Libm.

Variable tanh : double -> double.

(** One iteration of the loop of [apply_rule]: the value of [next[i]]. *)
Definition site (l : Lattice1D) (input : list double) (i : nat)
  : option double :=
  let left := if (i =? 0)%nat then (size_ l - 1)%nat else (i - 1)%nat in
  let right := ((i + 1) mod size_ l)%nat in
  gi ← input !! i;
  gl ← input !! left;
  gr ← input !! right;
  Some (tanh (add (mul (alpha_ l) gi) (mul (beta_ l) (add gl gr)))).

Definition apply_rule (l : Lattice1D) (input : list double)
  : option (list double) :=
  mapM (site l input) (seq 0 (size_ l)).

Definition forward (l : Lattice1D) : option Lattice1D :=
  next ← apply_rule l (state_ l);
  Some (set_g l next).

Fixpoint forward_steps (l : Lattice1D) (steps : nat) : option Lattice1D :=
  match steps with
  | O => Some l
  | S k => l' ← forward l; forward_steps l' k
  end.

(** [v[j] = f(v[j])], for [plus[j] += eps] and [minus[j] -= eps]. *)
Definition bump (f : double -> double) (v : list double) (j : nat)
  : option (list double) :=
  x ← v !! j; Some (<[j := f x]> v).

(** The assignment to [kernel_[i][j]] in the inner loop. *)
Definition kernel_cell (next_plus next_minus : list double) (j : nat)
    (kernel : list (list double)) (i : nat) : option (list (list double)) :=
  p ← next_plus !! i;
  m ← next_minus !! i;
  row ← kernel !! i;
  _ ← row !! j;
  Some (<[i := <[j := div (sub p m) (mul (of_Z 2) eps)]> row]> kernel).

(** One iteration of the outer loop of [compute_kernel]. *)
Definition kernel_column (l : Lattice1D) (base_state : list double)
    (kernel : list (list double)) (j : nat) : option (list (list double)) :=
  plus ← bump (fun x => add x eps) base_state j;
  minus ← bump (fun x => sub x eps) base_state j;
  next_plus ← apply_rule l plus;
  next_minus ← apply_rule l minus;
  foldlM (kernel_cell next_plus next_minus j) (seq 0 (size_ l)) kernel.

Definition compute_kernel (l : Lattice1D) : option Lattice1D :=
  kernel ← foldlM (kernel_column l (state_ l)) (seq 0 (size_ l)) (kernel_ l);
  Some {| size_ := size_ l; alpha_ := alpha_ l; beta_ := beta_ l;
          state_ := state_ l; kernel_ := kernel |}.

Definition derive (l : Lattice1D) : option Lattice1D := compute_kernel l.

End Libm.

Definition column (l : Lattice1D) (index : nat) : result (list double) :=
  if (size_ l <=? index)%nat
  then Throw (out_of_range "Column index is out of bounds.")
  else match mapM (fun row => r ← kernel_ l !! row; r !! index)
                  (seq 0 (size_ l)) with
       | Some col => Ok col
       | None => Undefined
       end.

Section Main.

Variable tanh : double -> double.

(** [main.cpp] up to its printing loop: the vector [column] whose entries
    it prints, one per line. *)
Definition main_column : result (list double) :=
  match make 9 one (lit 5 10) with
  | Ok lattice =>
      let state := state_ lattice in
      match state !! 4%nat with
      | Some _ =>
          let lattice := set_g lattice (<[4%nat := lit 25 100]> state) in
          match l1 ← forward tanh lattice; derive tanh l1 with
          | Some l2 => column l2 4
          | None => Undefined
          end
      | None => Undefined
      end
  | Throw e => Throw e
  | Undefined => Undefined
  end.

End Main.

End mcik.

Module LatticeSpec.

Import Double mcik.

(** The invariant of the class: at least three sites, a state of [size_]
    values and a kernel of [size_] rows of [size_] values. *)
Definition wf (l : Lattice1D) : Prop :=
  (3 <= size_ l)%nat /\
  length (state_ l) = size_ l /\
  length (kernel_ l) = size_ l /\
  Forall (fun row => length row = size_ l) (kernel_ l).

(** The sites [i] reads from: itself and its two neighbours on the ring. *)
Definition left_of (n i : nat) : nat :=
  if (i =? 0)%nat then (n - 1)%nat else (i - 1)%nat.
Definition right_of (n i : nat) : nat := ((i + 1) mod n)%nat.
Definition near (n i j : nat) : Prop :=
  j = i \/ j = left_of n i \/ j = right_of n i.

(** The entry at row [i], column [j]. *)
Definition entry (kernel : list (list double)) (i j : nat) : option double :=
  row ← kernel !! i; row !! j.

(** A kernel of [n] rows of [n] values. *)
Definition square (n : nat) (kernel : list (list double)) : Prop :=
  length kernel = n /\ Forall (fun row => length row = n) kernel.

(** The centred difference of site [i] for a step [eps] at site [j]. *)
Definition difference (tanh : double -> double) (l : Lattice1D) (i j : nat)
  : option double :=
  plus ← bump (fun x => add x eps) (state_ l) j;
  minus ← bump (fun x => sub x eps) (state_ l) j;
  p ← site tanh l plus i;
  m ← site tanh l minus i;
  Some (div (sub p m) (mul (of_Z 2) eps)).

(** The value the inner loop stores at row [i]. *)
Definition cell_value (next_plus next_minus : list double) (i : nat)
  : option double :=
  p ← next_plus !! i; m ← next_minus !! i;
  Some (div (sub p m) (mul (of_Z 2) eps)).

(** The lattice of [main.cpp], before its call of [forward]. *)
Definition demo_lattice : Lattice1D :=
  {| size_ := 9; alpha_ := one; beta_ := lit 5 10;
     state_ := <[4%nat := lit 25 100]> (replicate 9 zero);
     kernel_ := replicate 9 (replicate 9 zero) |}.

(** A stand-in for [tanh] with values in [[-1, 1]]. *)
Definition demo_tanh (x : double) : double :=
  clamp x (SFopp one) one.

End LatticeSpec.

Module EdgeSpec.

Import Double ascii_torus.

(** A buffer of 2^32 + 5 blanks: its size converts to the [int] 5. *)
Definition wide_buf : list byte := replicate (Z.to_nat (2 ^ 32 + 5)) " "%byte.

(** A frame of 65536 x 65536 blanks. *)
Definition big_frame : list byte :=
  replicate (Z.to_nat (65536 * 65536)) " "%byte.




End EdgeSpec.

(** * Properties *)

(** ** Integers and comparisons of doubles *)

Module IntFacts.

Import Int.

Lemma wrap_small z : INT_MIN <= z <= INT_MAX -> wrap z = z.
Proof.
  unfold wrap, INT_MIN, INT_MAX. intros H.
  rewrite Z.mod_small by lia. lia.
Qed.

Lemma clamp_bounds v lo hi : lo <= hi -> lo <= clamp v lo hi <= hi.
Proof.
  intros H. unfold clamp.
  destruct (Z.ltb_spec v lo); [lia|].
  destruct (Z.ltb_spec hi v); lia.
Qed.

Lemma add_small a b : INT_MIN <= a + b <= INT_MAX -> add a b = a + b.
Proof. apply wrap_small. Qed.

Lemma sub_small a b : INT_MIN <= a - b <= INT_MAX -> sub a b = a - b.
Proof. apply wrap_small. Qed.

Lemma mul_small a b : INT_MIN <= a * b <= INT_MAX -> mul a b = a * b.
Proof. apply wrap_small. Qed.

End IntFacts.

(** ** Loops and container accesses *)

Module LoopFacts.

Lemma in_int_range lo hi x : In x (int_range lo hi) <-> lo <= x < hi.
Proof.
  unfold int_range. rewrite in_map_iff. split.
  - intros (k & <- & Hk). apply in_seq in Hk. lia.
  - intros H. exists (Z.to_nat (x - lo)). split; [lia|]. apply in_seq. lia.
Qed.

(** A loop whose body never faults does not fault. *)
Lemma foldlM_is_Some {A S : Type} (f : S -> A -> option S) l s :
  (forall s a, In a l -> is_Some (f s a)) -> is_Some (foldlM f l s).
Proof.
  revert s. induction l as [|a l IH]; intros s H; simpl.
  - eauto.
  - destruct (H s a) as [s' Hs']; [now left|]. rewrite Hs'. simpl.
    apply IH. intros; apply H; now right.
Qed.

(** An invariant of the body is an invariant of the loop. *)
Lemma foldlM_invariant {A S : Type} (I : S -> Prop) (f : S -> A -> option S) l :
  (forall s a s', In a l -> I s -> f s a = Some s' -> I s') ->
  forall s s', I s -> foldlM f l s = Some s' -> I s'.
Proof.
  induction l as [|a l IH]; intros Hf s s' Hs Hrun; simpl in Hrun.
  - injection Hrun as <-. exact Hs.
  - destruct (f s a) as [s1|] eqn:Hs1; [|discriminate]. simpl in Hrun.
    apply (IH (fun s a s' Hin => Hf s a s' (or_intror Hin)) s1 s'); [|exact Hrun].
    apply (Hf s a s1); [now left|exact Hs|exact Hs1].
Qed.

Lemma foldlM_app {A S : Type} (f : S -> A -> option S) l1 l2 s :
  foldlM f (l1 ++ l2) s = s' ← foldlM f l1 s; foldlM f l2 s'.
Proof.
  revert s. induction l1 as [|a l1 IH]; intros s; simpl; [reflexivity|].
  destruct (f s a); simpl; [apply IH|reflexivity].
Qed.

Lemma get_is_Some {A : Type} (l : list A) i :
  0 <= i < Z.of_nat (length l) -> is_Some (get l i).
Proof.
  intros H. unfold get. destruct (Z.ltb_spec i 0); [lia|].
  apply lookup_lt_is_Some. lia.
Qed.

Lemma set_is_Some {A : Type} (l : list A) i x :
  0 <= i < Z.of_nat (length l) -> set l i x = Some (<[Z.to_nat i := x]> l).
Proof.
  intros H. unfold set. destruct (Z.ltb_spec i 0); [lia|].
  destruct (Nat.ltb_spec (Z.to_nat i) (length l)); [reflexivity|lia].
Qed.

Lemma set_Some {A : Type} (l l' : list A) i x :
  set l i x = Some l' ->
  0 <= i < Z.of_nat (length l) /\ l' = <[Z.to_nat i := x]> l.
Proof.
  unfold set. destruct (Z.ltb_spec i 0); [discriminate|].
  destruct (Nat.ltb_spec (Z.to_nat i) (length l)); [|discriminate].
  intros [= <-]. split; [lia|reflexivity].
Qed.

Lemma get_Some {A : Type} (l : list A) i x :
  get l i = Some x -> 0 <= i /\ l !! Z.to_nat i = Some x.
Proof.
  unfold get. destruct (Z.ltb_spec i 0); [discriminate|]. auto.
Qed.

End LoopFacts.

Module DoubleFacts.

Import Double.

Lemma compare_cont_Eq m n : Pos.compare_cont Eq m n = Pos.compare m n.
Proof. reflexivity. Qed.

Ltac split_compare :=
  repeat match goal with
  | |- context [Z.compare ?a ?b] => destruct (Z.compare_spec a b)
  | H : context [Z.compare ?a ?b] |- _ => destruct (Z.compare_spec a b)
  | |- context [Pos.compare_cont Eq ?a ?b] =>
      rewrite (compare_cont_Eq a b); destruct (Pos.compare_spec a b)
  | H : context [Pos.compare_cont Eq ?a ?b] |- _ =>
      rewrite (compare_cont_Eq a b) in H; destruct (Pos.compare_spec a b)
  end.

Lemma ltb_leb a b : ltb a b = true -> leb a b = true.
Proof.
  unfold ltb, leb, SFltb, SFleb. destruct (SFcompare a b) as [[]|]; easy.
Qed.

Lemma leb_refl a : is_nan a = false -> leb a a = true.
Proof.
  unfold leb, SFleb. destruct a as [[]|[]| |[] m e]; simpl; try easy;
  rewrite Z.compare_refl, compare_cont_Eq, Pos.compare_refl; reflexivity.
Qed.

Lemma leb_trans a b c : leb a b = true -> leb b c = true -> leb a c = true.
Proof.
  unfold leb, SFleb.
  destruct a as [[]|[]| |[] ma ea], b as [[]|[]| |[] mb eb],
           c as [[]|[]| |[] mc ec];
    simpl; try easy; intros; split_compare; subst; simpl in *;
    try easy; try lia.
Qed.

Lemma leb_not_nan a b : leb a b = true -> is_nan a = false /\ is_nan b = false.
Proof. destruct a, b; simpl; try easy. Qed.

Lemma ltb_not_nan a b : ltb a b = true -> is_nan a = false /\ is_nan b = false.
Proof. intros H. apply leb_not_nan, ltb_leb, H. Qed.

(** [a < b] and [a == b] exclude each other, and so do [a < b] and [b <= a]. *)
Lemma ltb_eqb_excl a b : ltb a b = true -> eqb a b = false.
Proof.
  unfold ltb, eqb, SFltb, SFeqb. destruct (SFcompare a b) as [[]|]; easy.
Qed.

Lemma eqb_sym a b : eqb a b = eqb b a.
Proof.
  unfold eqb, SFeqb.
  destruct a as [[]|[]| |[] ma ea], b as [[]|[]| |[] mb eb];
    simpl; try easy; split_compare; subst; simpl in *; try easy; try lia.
Qed.

Lemma ltb_antisym a b : ltb a b = true -> leb b a = false.
Proof.
  unfold ltb, leb, SFltb, SFleb.
  destruct a as [[]|[]| |[] ma ea], b as [[]|[]| |[] mb eb];
    simpl; try easy; split_compare; subst; simpl in *; try easy; try lia.
Qed.

Lemma ltb_false_leb a b :
  is_nan a = false -> is_nan b = false -> ltb a b = false -> leb b a = true.
Proof.
  unfold ltb, leb, SFltb, SFleb.
  destruct a as [[]|[]| |[] ma ea], b as [[]|[]| |[] mb eb];
    simpl; try easy; split_compare; subst; simpl in *; try easy; try lia.
Qed.

Lemma eqb_leb a b : eqb a b = true -> leb a b = true.
Proof.
  unfold eqb, leb, SFeqb, SFleb. destruct (SFcompare a b) as [[]|]; easy.
Qed.

End DoubleFacts.

(** ** Rounding to binary64 and the arithmetic of doubles *)

Module RoundingFacts.

Import Double DoubleFacts RoundingSpec.

(** *** Binary digits *)

Lemma digits2_pos_bounds p :
  2 ^ (Z.pos (digits2_pos p) - 1) <= Z.pos p < 2 ^ Z.pos (digits2_pos p).
Proof.
  induction p as [p IH|p IH|]; simpl digits2_pos.
  - rewrite Pos2Z.inj_succ. replace (Z.succ (Z.pos (digits2_pos p)) - 1)
      with (Z.succ (Z.pos (digits2_pos p) - 1)) by lia.
    rewrite !Z.pow_succ_r by lia. lia.
  - rewrite Pos2Z.inj_succ. replace (Z.succ (Z.pos (digits2_pos p)) - 1)
      with (Z.succ (Z.pos (digits2_pos p) - 1)) by lia.
    rewrite !Z.pow_succ_r by lia. lia.
  - simpl. lia.
Qed.

Lemma Zdigits2_nonneg m : 0 <= Zdigits2 m.
Proof. destruct m; simpl; lia. Qed.

Lemma Zdigits2_bounds m :
  0 < m -> 2 ^ (Zdigits2 m - 1) <= m < 2 ^ Zdigits2 m.
Proof. destruct m as [|p|p]; try lia. intros _. apply digits2_pos_bounds. Qed.

(** Fewer than [2^j] means at most [j] digits; at least [2^(j-1)] means at
    least [j]. *)
Lemma Zdigits2_le m j : 0 <= m < 2 ^ j -> 0 <= j -> Zdigits2 m <= j.
Proof.
  intros [H0 Hm] Hj. destruct (Z.eq_dec m 0) as [->|Hne]; [simpl; lia|].
  destruct (Zdigits2_bounds m) as [Hlo _]; [lia|].
  destruct (Z.le_gt_cases (Zdigits2 m) j) as [|Hgt]; [assumption|exfalso].
  assert (2 ^ j <= 2 ^ (Zdigits2 m - 1)) by (apply Z.pow_le_mono_r; lia). lia.
Qed.

Lemma Zdigits2_ge m j : 2 ^ (j - 1) <= m -> 1 <= j -> j <= Zdigits2 m.
Proof.
  intros Hm Hj. assert (0 < 2 ^ (j - 1)) by (apply Z.pow_pos_nonneg; lia).
  destruct (Zdigits2_bounds m) as [_ Hhi]; [lia|].
  destruct (Z.le_gt_cases j (Zdigits2 m)) as [|Hgt]; [assumption|exfalso].
  assert (2 ^ Zdigits2 m <= 2 ^ (j - 1)) by (apply Z.pow_le_mono_r; lia). lia.
Qed.

(** *** Right shifts *)

Lemma shr_1_m mrs : 0 <= shr_m mrs -> shr_m (shr_1 mrs) = shr_m mrs / 2.
Proof.
  destruct mrs as [m r s]. simpl. intros Hm.
  destruct m as [|[p|p|]|p]; simpl; try lia; try reflexivity.
  - rewrite Pos2Z.inj_xI. apply Z.div_unique with (r := 1); lia.
  - rewrite Pos2Z.inj_xO. apply Z.div_unique with (r := 0); lia.
Qed.

Lemma shr_iter_m n : forall mrs,
  0 <= shr_m mrs ->
  shr_m (SpecFloat.iter_pos shr_1 n mrs) = shr_m mrs / 2 ^ Z.pos n.
Proof.
  induction n as [n IH|n IH|]; intros mrs Hm; simpl SpecFloat.iter_pos.
  - assert (H1 : 0 <= shr_m (shr_1 mrs)).
    { rewrite shr_1_m by assumption. apply Z.div_pos; lia. }
    assert (H2 : 0 <= shr_m (SpecFloat.iter_pos shr_1 n (shr_1 mrs))).
    { rewrite IH by assumption. apply Z.div_pos; [lia|]. apply Z.pow_pos_nonneg; lia. }
    rewrite IH by assumption. rewrite IH by assumption. rewrite shr_1_m by assumption.
    rewrite !Z.div_div by (try apply Z.pow_pos_nonneg; lia).
    f_equal. replace (Z.pos n~1) with (1 + Z.pos n + Z.pos n) by lia.
    rewrite !Z.pow_add_r by lia. lia.
  - assert (H2 : 0 <= shr_m (SpecFloat.iter_pos shr_1 n mrs)).
    { rewrite IH by assumption. apply Z.div_pos; [lia|]. apply Z.pow_pos_nonneg; lia. }
    rewrite IH by assumption. rewrite IH by assumption.
    rewrite !Z.div_div by (try apply Z.pow_pos_nonneg; lia).
    f_equal. replace (Z.pos n~0) with (Z.pos n + Z.pos n) by lia.
    rewrite !Z.pow_add_r by lia. lia.
  - rewrite shr_1_m by assumption. reflexivity.
Qed.

Lemma shr_record_of_loc_m m l : shr_m (shr_record_of_loc m l) = m.
Proof. destruct l as [|[]]; reflexivity. Qed.

(** [shr] divides the mantissa by [2^n] and adds [n] to the exponent, for
    [n >= 0]. *)
Lemma shr_spec mrs e n :
  0 <= shr_m mrs -> 0 <= n ->
  shr_m (fst (shr mrs e n)) = shr_m mrs / 2 ^ n /\ snd (shr mrs e n) = e + n.
Proof.
  intros Hm Hn. destruct n as [|p|p]; simpl; try lia.
  - rewrite Z.div_1_r. lia.
  - split; [apply shr_iter_m, Hm|reflexivity].
Qed.

Lemma round_nearest_even_bounds m l :
  round_nearest_even m l = m \/ round_nearest_even m l = m + 1.
Proof.
  destruct l as [|[]]; simpl; auto. destruct (Z.even m); auto.
Qed.

(** *** Rounding to binary64 *)

Abbreviation fexp := (SpecFloat.fexp prec emax).
Abbreviation BRA := (binary_round_aux prec emax).

Lemma fexp_eq e : fexp e = Z.max (e - 53) (-1074).
Proof. reflexivity. Qed.

Lemma shr_nonneg mrs e n : 0 <= shr_m mrs -> 0 <= shr_m (fst (shr mrs e n)).
Proof.
  intros Hm. destruct (Z.le_gt_cases 0 n) as [Hn|Hn].
  - destruct (shr_spec mrs e n Hm Hn) as [-> _]. apply Z.div_pos; [lia|].
    apply Z.pow_pos_nonneg; lia.
  - destruct n; try lia. exact Hm.
Qed.

Lemma BRA_unfold sx mx ex lx :
  BRA sx mx ex lx =
  let s1 := shr_fexp prec emax mx ex lx in
  let m2 := round_nearest_even (shr_m (fst s1)) (loc_of_shr_record (fst s1)) in
  let s2 := shr_fexp prec emax m2 (snd s1) loc_Exact in
  pack sx (shr_m (fst s2)) (snd s2).
Proof.
  unfold binary_round_aux. destruct (shr_fexp prec emax mx ex lx) as [mrs' e'].
  simpl. destruct (shr_fexp prec emax _ e' loc_Exact) as [mrs'' e'']. reflexivity.
Qed.

(** The result of rounding a non-negative mantissa is a zero, a finite
    number or an infinity of the given sign. *)
Lemma BRA_shape sx mx ex lx :
  0 <= mx -> exists m e, BRA sx mx ex lx = pack sx m e /\ 0 <= m.
Proof.
  intros Hm. rewrite BRA_unfold. cbv zeta. eexists _, _. split; [reflexivity|].
  unfold shr_fexp. apply shr_nonneg. simpl.
  assert (H1 : 0 <= shr_m (fst (shr (shr_record_of_loc mx lx) ex
                                  (fexp (Zdigits2 mx + ex) - ex)))).
  { apply shr_nonneg. rewrite shr_record_of_loc_m. exact Hm. }
  match goal with |- 0 <= round_nearest_even ?m ?l =>
    destruct (round_nearest_even_bounds m l) as [-> | ->] end; lia.
Qed.

Lemma shr_fexp_spec m e l :
  0 <= m -> e <= fexp (Zdigits2 m + e) ->
  shr_m (fst (shr_fexp prec emax m e l)) = m / 2 ^ (fexp (Zdigits2 m + e) - e)
  /\ snd (shr_fexp prec emax m e l) = fexp (Zdigits2 m + e).
Proof.
  intros Hm HP. unfold shr_fexp.
  destruct (shr_spec (shr_record_of_loc m l) e (fexp (Zdigits2 m + e) - e))
    as [Hs He]; [rewrite shr_record_of_loc_m; exact Hm|lia|].
  rewrite shr_record_of_loc_m in Hs. split; [exact Hs|lia].
Qed.

Lemma shr_fexp_id m e l :
  fexp (Zdigits2 m + e) <= e ->
  shr_fexp prec emax m e l = (shr_record_of_loc m l, e).
Proof.
  intros H. unfold shr_fexp, shr.
  destruct (fexp (Zdigits2 m + e) - e) eqn:Hn; try lia; reflexivity.
Qed.

(** Rounding [mx * 2^ex] when [mx] has enough digits ([ex] is at most the
    exponent [E] of the format at that magnitude): the mantissa is shifted
    to [E], moved up by at most one, and renormalised if that reaches
    [2^53]. *)
Lemma BRA_spec sx mx ex lx :
  0 <= mx -> ex <= fexp (Zdigits2 mx + ex) ->
  let E := fexp (Zdigits2 mx + ex) in
  let m1 := mx / 2 ^ (E - ex) in
  exists m e, BRA sx mx ex lx = pack sx m e /\
    ((m1 <= m <= m1 + 1 /\ m < 2 ^ 53 /\ e = E) \/
     (m1 + 1 = 2 ^ 53 /\ m = 2 ^ 52 /\ e = E + 1)).
Proof.
  intros Hm HP E m1. rewrite BRA_unfold. cbv zeta.
  destruct (shr_fexp_spec mx ex lx Hm HP) as [Hs1 He1].
  fold E in Hs1, He1. fold m1 in Hs1.
  destruct (shr_fexp prec emax mx ex lx) as [mrs1 e1]. simpl in Hs1, He1. simpl fst. simpl snd.
  subst e1. rewrite Hs1.
  set (m2 := round_nearest_even m1 (loc_of_shr_record mrs1)).
  assert (Hm1 : 0 <= m1 < 2 ^ 53).
  { split; [apply Z.div_pos; [lia|apply Z.pow_pos_nonneg; lia]|].
    apply Z.div_lt_upper_bound; [apply Z.pow_pos_nonneg; lia|].
    rewrite <- Z.pow_add_r by lia.
    destruct (Z.eq_dec mx 0) as [->|Hne]; [apply Z.pow_pos_nonneg; lia|].
    destruct (Zdigits2_bounds mx) as [_ Hhi]; [lia|].
    eapply Z.lt_le_trans; [exact Hhi|]. apply Z.pow_le_mono_r; [lia|].
    subst E. rewrite fexp_eq. lia. }
  assert (Hm2 : m2 = m1 \/ m2 = m1 + 1) by apply round_nearest_even_bounds.
  assert (HE : -1074 <= E) by (subst E; rewrite fexp_eq; lia).
  destruct (Z.eq_dec m2 (2 ^ 53)) as [Heq|Hne].
  - exists (2 ^ 52), (E + 1). split; [|right; lia].
    rewrite Heq. unfold shr_fexp.
    replace (fexp (Zdigits2 (2 ^ 53) + E) - E) with 1
      by (rewrite fexp_eq; change (Zdigits2 (2 ^ 53)) with 54; lia).
    reflexivity.
  - exists m2, E. split; [|left; lia].
    assert (Hd : Zdigits2 m2 <= 53) by (apply Zdigits2_le; lia).
    rewrite shr_fexp_id by (rewrite fexp_eq; lia). reflexivity.
Qed.

(** The result of such a rounding is a valid binary64 number. *)
Lemma BRA_valid sx mx ex lx :
  0 <= mx -> ex <= fexp (Zdigits2 mx + ex) ->
  valid_binary prec emax (BRA sx mx ex lx) = true.
Proof.
  intros Hm HP. destruct (BRA_spec sx mx ex lx Hm HP) as (m & e & -> & Hcase).
  set (E := fexp (Zdigits2 mx + ex)) in *. set (m1 := mx / 2 ^ (E - ex)) in *.
  assert (HE : E = Z.max (Zdigits2 mx + ex - 53) (-1074)) by reflexivity.
  unfold pack. destruct m as [|p|p]; [reflexivity| |reflexivity].
  destruct (Z.leb_spec e 971) as [He|He]; [|reflexivity].
  simpl. unfold bounded, canonical_mantissa.
  apply andb_true_iff. split; [|apply Z.leb_le; exact He].
  apply Z.eqb_eq. change (Z.pos (digits2_pos p)) with (Zdigits2 (Z.pos p)).
  rewrite fexp_eq.
  destruct Hcase as [(Hm1 & Hlt & ->)|(_ & Hp & ->)].
  - assert (Hd : Zdigits2 (Z.pos p) <= 53) by (apply Zdigits2_le; lia).
    destruct (Z.eq_dec E (-1074)) as [Hmin|Hnorm]; [lia|].
    assert (Hn : E - ex = Zdigits2 mx - 53) by lia.
    assert (Hmx : 0 < mx).
    { destruct (Z.eq_dec mx 0) as [->|]; [|lia]. simpl in *. subst m1.
      rewrite Z.div_0_l in Hm1 by (apply Z.pow_nonzero; lia). lia. }
    destruct (Zdigits2_bounds mx Hmx) as [Hlo _].
    assert (H52 : 2 ^ 52 <= m1).
    { subst m1. apply Z.div_le_lower_bound; [apply Z.pow_pos_nonneg; lia|].
      rewrite Z.mul_comm, <- Z.pow_add_r by lia.
      replace (52 + (E - ex)) with (Zdigits2 mx - 1) by lia. exact Hlo. }
    assert (53 <= Zdigits2 (Z.pos p)) by (apply Zdigits2_ge; lia). lia.
  - rewrite Hp. change (Zdigits2 (2 ^ 52)) with 53. lia.
Qed.

(** Rounding a value below [2^k] gives at most [2^k]. *)
Lemma BRA_le_pow2 k mx ex lx :
  -1021 <= k <= 1023 ->
  0 <= mx -> ex <= fexp (Zdigits2 mx + ex) -> Zdigits2 mx + ex <= k ->
  leb (BRA false mx ex lx) (pow2 k) = true.
Proof.
  intros Hk Hm HP Hmag.
  destruct (BRA_spec false mx ex lx Hm HP) as (m & e & -> & Hcase).
  set (E := fexp (Zdigits2 mx + ex)) in *.
  assert (HE : E = Z.max (Zdigits2 mx + ex - 53) (-1074)) by reflexivity.
  assert (Hm1 : 0 <= mx / 2 ^ (E - ex))
    by (apply Z.div_pos; [lia|apply Z.pow_pos_nonneg; lia]).
  unfold pack. destruct m as [|p|p]; [reflexivity| |lia].
  assert (He : e <= k - 52 /\ (e = k - 52 -> Z.pos p = 2 ^ 52)) by lia.
  destruct He as [He Heq].
  destruct (Z.leb_spec e 971) as [_|He']; [|lia].
  unfold leb, SFleb, pow2, SFcompare.
  destruct (Z.compare_spec e (k - 52)) as [Heq'|Hlt|Hgt]; [|reflexivity|lia].
  specialize (Heq Heq'). injection Heq as ->. reflexivity.
Qed.

(** Rounding a positive value of the normal range never gives a zero. *)
Lemma BRA_nonzero sx mx ex lx :
  0 < mx -> ex <= fexp (Zdigits2 mx + ex) -> -1074 <= Zdigits2 mx + ex - 53 ->
  (exists p e, BRA sx mx ex lx = S754_finite sx p e) \/
  BRA sx mx ex lx = S754_infinity sx.
Proof.
  intros Hm HP Hnorm.
  destruct (BRA_spec sx mx ex lx (Z.lt_le_incl _ _ Hm) HP) as (m & e & -> & Hcase).
  set (E := fexp (Zdigits2 mx + ex)) in *. set (m1 := mx / 2 ^ (E - ex)) in *.
  assert (HE : E = Zdigits2 mx + ex - 53) by (subst E; rewrite fexp_eq; lia).
  destruct (Zdigits2_bounds mx Hm) as [Hlo _].
  assert (H52 : 2 ^ 52 <= m1).
  { subst m1. apply Z.div_le_lower_bound; [apply Z.pow_pos_nonneg; lia|].
    rewrite Z.mul_comm, <- Z.pow_add_r by lia.
    replace (52 + (E - ex)) with (Zdigits2 mx - 1) by lia. exact Hlo. }
  assert (Hmp : 0 < m) by lia.
  unfold pack. destruct m as [|p|p]; try lia.
  destruct (e <=? 971); [left; eauto|right; reflexivity].
Qed.

(** *** Left shifts and [binary_round] *)

Lemma Zdigits2_mul_pow2 m j :
  0 < m -> 0 <= j -> Zdigits2 (m * 2 ^ j) = Zdigits2 m + j.
Proof.
  intros Hm Hj. destruct (Zdigits2_bounds m Hm) as [Hlo Hhi].
  assert (Hd : 1 <= Zdigits2 m).
  { destruct m; simpl; lia. }
  assert (Hp : 0 < 2 ^ j) by (apply Z.pow_pos_nonneg; lia).
  apply Z.le_antisymm.
  - apply Zdigits2_le; [|lia]. split; [nia|].
    rewrite Z.pow_add_r by lia. nia.
  - apply Zdigits2_ge; [|lia].
    replace (Zdigits2 m + j - 1) with (Zdigits2 m - 1 + j) by lia.
    rewrite Z.pow_add_r by lia. nia.
Qed.

Lemma iter_xO_spec d : forall m, Z.pos (Pos.iter xO m d) = Z.pos m * 2 ^ Z.pos d.
Proof.
  induction d as [|d IH] using Pos.peano_ind; intros m.
  - simpl. lia.
  - rewrite Pos.iter_succ, Pos2Z.inj_xO, IH, Pos2Z.inj_succ, Z.pow_succ_r by lia.
    lia.
Qed.

Lemma shl_align_spec mx ex e' :
  exists mz, shl_align mx ex e' = (mz, Z.min ex e')
             /\ Z.pos mz = Z.pos mx * 2 ^ (ex - Z.min ex e').
Proof.
  unfold shl_align. destruct (e' - ex) as [|d|d] eqn:Hd.
  - exists mx. replace (Z.min ex e') with ex by lia.
    rewrite Z.sub_diag, Z.mul_1_r. auto.
  - exists mx. replace (Z.min ex e') with ex by lia.
    rewrite Z.sub_diag, Z.mul_1_r. auto.
  - exists (Pos.iter xO mx d). replace (Z.min ex e') with e' by lia.
    split; [reflexivity|]. rewrite iter_xO_spec. f_equal. f_equal. lia.
Qed.

(** [binary_round sx mx ex] is a rounding of [mz * 2^ez] with the same
    value and magnitude as [mx * 2^ex], shifted so that it has enough
    digits. *)
Lemma binary_round_BRA sx mx ex :
  exists mz ez,
    binary_round prec emax sx mx ex = BRA sx (Z.pos mz) ez loc_Exact
    /\ ez <= fexp (Zdigits2 (Z.pos mz) + ez)
    /\ Zdigits2 (Z.pos mz) + ez = Zdigits2 (Z.pos mx) + ex.
Proof.
  unfold binary_round.
  destruct (shl_align_spec mx ex (fexp (Z.pos (digits2_pos mx) + ex)))
    as (mz & -> & Hmz).
  change (Z.pos (digits2_pos mx)) with (Zdigits2 (Z.pos mx)) in *.
  set (ez := Z.min ex (fexp (Zdigits2 (Z.pos mx) + ex))) in *.
  exists mz, ez. split; [reflexivity|].
  assert (Hmag : Zdigits2 (Z.pos mz) + ez = Zdigits2 (Z.pos mx) + ex).
  { rewrite Hmz, Zdigits2_mul_pow2 by lia. lia. }
  rewrite Hmag. split; [lia|reflexivity].
Qed.

Lemma binary_round_shape sx mx ex :
  exists m e, binary_round prec emax sx mx ex = pack sx m e /\ 0 <= m.
Proof.
  destruct (binary_round_BRA sx mx ex) as (mz & ez & -> & _).
  apply BRA_shape. lia.
Qed.

Lemma binary_round_valid sx mx ex :
  valid_binary prec emax (binary_round prec emax sx mx ex) = true.
Proof.
  destruct (binary_round_BRA sx mx ex) as (mz & ez & -> & HP & _).
  apply BRA_valid; [lia|exact HP].
Qed.

Lemma binary_round_le_pow2 k mx ex :
  -1021 <= k <= 1023 -> Zdigits2 (Z.pos mx) + ex <= k ->
  leb (binary_round prec emax false mx ex) (pow2 k) = true.
Proof.
  intros Hk Hmag. destruct (binary_round_BRA false mx ex) as (mz & ez & -> & HP & Heq).
  apply BRA_le_pow2; [exact Hk|lia|exact HP|lia].
Qed.

Lemma binary_round_nonzero sx mx ex :
  -1074 <= Zdigits2 (Z.pos mx) + ex - 53 ->
  (exists p e, binary_round prec emax sx mx ex = S754_finite sx p e) \/
  binary_round prec emax sx mx ex = S754_infinity sx.
Proof.
  intros Hn. destruct (binary_round_BRA sx mx ex) as (mz & ez & -> & HP & Heq).
  apply BRA_nonzero; [lia|exact HP|lia].
Qed.

(** *** Integers as doubles *)

(** A non-zero [int] converts to a finite non-zero double of its sign. *)
Lemma of_Z_pos z :
  0 < z <= Int.INT_MAX -> exists p e, of_Z z = S754_finite false p e.
Proof.
  intros Hz. destruct z as [|q|q]; try lia. unfold of_Z. simpl binary_normalize.
  assert (Hd : Zdigits2 (Z.pos q) <= 31).
  { apply Zdigits2_le; [|lia]. unfold Int.INT_MAX in Hz. lia. }
  assert (Hd1 : 1 <= Zdigits2 (Z.pos q)) by (simpl; lia).
  destruct (binary_round_nonzero false q 0) as [H|H]; [lia|exact H|].
  exfalso. assert (Hle : leb (binary_round prec emax false q 0) (pow2 31) = true)
    by (apply binary_round_le_pow2; lia).
  rewrite H in Hle. discriminate.
Qed.

Lemma of_Z_valid z : valid_binary prec emax (of_Z z) = true.
Proof.
  unfold of_Z. destruct z; simpl binary_normalize;
    [reflexivity|apply binary_round_valid..].
Qed.

(** *** Signs and validity of the operations *)

Lemma pack_nonneg m e : 0 <= m -> nonneg (pack false m e) = true.
Proof.
  intros Hm. unfold pack. destruct m; [reflexivity| |lia].
  destruct (e <=? 971); reflexivity.
Qed.

Lemma pack_not_nan sx m e : 0 <= m -> is_nan (pack sx m e) = false.
Proof.
  intros Hm. unfold pack. destruct m; [reflexivity| |lia].
  destruct (e <=? 971); reflexivity.
Qed.

Lemma nonneg_not_nan x : nonneg x = true -> is_nan x = false.
Proof. destruct x as [[]|[]| |[]]; simpl; congruence. Qed.

Lemma nonneg_leb_zero x : nonneg x = true -> leb zero x = true.
Proof. destruct x as [[]|[]| |[]]; simpl; try congruence; reflexivity. Qed.

(** The quotient and exponent that [SFdiv] hands to the rounding. *)
Lemma div_core_spec m1 e1 m2 e2 :
  exists q e' l,
    SFdiv_core_binary prec emax (Z.pos m1) e1 (Z.pos m2) e2 = (q, e', l)
    /\ 0 <= q /\ e' <= fexp (Zdigits2 q + e').
Proof.
  unfold SFdiv_core_binary.
  set (d1 := Zdigits2 (Z.pos m1)). set (d2 := Zdigits2 (Z.pos m2)).
  set (X := d1 + e1 - (d2 + e2)).
  set (e' := Z.min (SpecFloat.fexp prec emax X) (e1 - e2)).
  set (s := e1 - e2 - e').
  assert (Hs : 0 <= s) by (subst s e'; lia).
  set (m' := match s with Z.pos _ => Z.shiftl (Z.pos m1) s | 0 => Z.pos m1
                        | Z.neg _ => 0 end).
  assert (Hm' : m' = Z.pos m1 * 2 ^ s).
  { subst m'. destruct s as [|p|p] eqn:Hsp; [lia| |lia].
    apply Z.shiftl_mul_pow2. lia. }
  destruct (Z.div_eucl m' (Z.pos m2)) as [q r] eqn:Hqr.
  assert (Hq : q = m' / Z.pos m2) by (unfold Z.div; rewrite Hqr; reflexivity).
  exists q, e', (new_location (Z.pos m2) r). split; [reflexivity|].
  assert (Hp2 : 0 < 2 ^ s) by (apply Z.pow_pos_nonneg; lia).
  assert (Hq0 : 0 <= q) by (rewrite Hq; apply Z.div_pos; nia).
  split; [exact Hq0|].
  destruct (Zdigits2_bounds (Z.pos m1)) as [Hlo1 Hhi1]; [lia|].
  destruct (Zdigits2_bounds (Z.pos m2)) as [Hlo2 Hhi2]; [lia|].
  fold d1 in Hlo1, Hhi1. fold d2 in Hlo2, Hhi2.
  assert (Hd1 : 1 <= d1) by (subst d1; simpl; lia).
  assert (Hd2 : 1 <= d2) by (subst d2; simpl; lia).
  assert (He' : e' <= Z.max (X - 53) (-1074)) by (subst e'; rewrite fexp_eq; lia).
  rewrite fexp_eq.
  (* the quotient has at least [d1 + s - d2] digits *)
  assert (Hdq : d1 + s - d2 <= Zdigits2 q \/ (q = 0 /\ d1 + s <= d2)).
  { destruct (Z.le_gt_cases (d1 + s - d2) 0) as [Hsmall|Hbig].
    - destruct (Z.eq_dec q 0) as [->|Hne]; [right; lia|left].
      pose proof (Zdigits2_nonneg q). lia.
    - left. apply Zdigits2_ge; [|lia]. rewrite Hq.
      apply Z.div_le_lower_bound; [lia|].
      assert (Hpow : 2 ^ (d1 - 1) * 2 ^ s = 2 ^ d2 * 2 ^ (d1 + s - d2 - 1)).
      { rewrite <- !Z.pow_add_r by lia. f_equal. lia. }
      assert (0 < 2 ^ (d1 + s - d2 - 1)) by (apply Z.pow_pos_nonneg; lia).
      nia. }
  assert (HX : X = d1 + s - d2 + e') by (subst X s; lia).
  destruct Hdq as [Hdq|[-> Hdq]]; simpl Zdigits2; lia.
Qed.

Lemma div_valid a b : valid_binary prec emax (div a b) = true.
Proof.
  destruct a as [sa|sa| |sa ma ea], b as [sb|sb| |sb mb eb]; try reflexivity.
  unfold div, SFdiv.
  destruct (div_core_spec ma ea mb eb) as (q & e' & l & -> & Hq & HP).
  apply BRA_valid; assumption.
Qed.

Lemma div_nonneg a b :
  nonneg a = true -> nonneg b = true -> is_finite b = true ->
  b <> S754_zero false -> nonneg (div a b) = true.
Proof.
  destruct a as [[]|[]| |[] ma ea], b as [[]|[]| |[] mb eb];
    simpl; try congruence; intros _ _ _ _.
  unfold div, SFdiv.
  destruct (div_core_spec ma ea mb eb) as (q & e' & l & -> & Hq & HP).
  destruct (BRA_shape false q e' l Hq) as (m & e & -> & Hm).
  apply pack_nonneg, Hm.
Qed.

Lemma binary_normalize_not_nan z e :
  is_nan (binary_normalize prec emax z e false) = false.
Proof.
  destruct z as [|p|p]; simpl binary_normalize; [reflexivity| |].
  - destruct (binary_round_shape false p e) as (m & e0 & -> & Hm).
    apply pack_not_nan, Hm.
  - destruct (binary_round_shape true p e) as (m & e0 & -> & Hm).
    apply pack_not_nan, Hm.
Qed.

(** The difference of two finite numbers is not NaN. *)
Lemma sub_finite_not_nan a b :
  is_finite a = true -> is_finite b = true -> is_nan (sub a b) = false.
Proof.
  destruct a as [[]|[]| |sa ma ea], b as [[]|[]| |sb mb eb];
    unfold sub, SFsub, is_finite; intros Ha Hb;
    try discriminate; try reflexivity.
  apply binary_normalize_not_nan.
Qed.

Lemma add_finite_not_nan a b :
  is_finite a = true -> is_nan b = false -> is_nan (add a b) = false.
Proof.
  destruct a as [[]|[]| |sa ma ea], b as [[]|[]| |sb mb eb];
    unfold add, SFadd, is_finite, is_nan; intros Ha Hb;
    try discriminate; try reflexivity.
  apply binary_normalize_not_nan.
Qed.

Lemma mul_finite_not_nan a b :
  is_finite a = true -> a <> S754_zero false -> a <> S754_zero true ->
  is_nan b = false -> is_nan (mul a b) = false.
Proof.
  destruct a as [[]|[]| |sa ma ea], b as [[]|[]| |sb mb eb];
    unfold mul, SFmul, is_finite; intros Ha Hz1 Hz2 Hb;
    try discriminate; try reflexivity; try congruence.
  destruct (BRA_shape (xorb sa sb) (Z.pos (ma * mb)) (ea + eb) loc_Exact)
    as (m0 & e0 & -> & Hm); [lia|]. apply pack_not_nan, Hm.
Qed.

(** A square is non-negative. *)
Lemma mul_self_nonneg a : is_nan a = false -> nonneg (mul a a) = true.
Proof.
  destruct a as [[]|[]| |sa ma ea]; unfold mul, SFmul; intros Ha;
    try discriminate; try reflexivity.
  replace (xorb sa sa) with false by (destruct sa; reflexivity).
  destruct (BRA_shape false (Z.pos (ma * ma)) (ea + ea) loc_Exact)
    as (m0 & e0 & -> & Hm); [lia|]. apply pack_nonneg, Hm.
Qed.

Lemma add_nonneg a b :
  nonneg a = true -> nonneg b = true -> nonneg (add a b) = true.
Proof.
  destruct a as [[]|[]| |[] ma ea], b as [[]|[]| |[] mb eb];
    unfold add, SFadd; intros Ha Hb; try discriminate; try reflexivity.
  unfold cond_Zopp.
  destruct (shl_align_spec ma ea (Z.min ea eb)) as (mza & -> & _).
  destruct (shl_align_spec mb eb (Z.min ea eb)) as (mzb & -> & _).
  unfold fst. change (Z.pos mza + Z.pos mzb) with (Z.pos (mza + mzb)).
  unfold binary_normalize.
  destruct (binary_round_shape false (mza + mzb) (Z.min ea eb))
    as (m & e & -> & Hm).
  apply pack_nonneg, Hm.
Qed.

Lemma sqrt_nonneg a : nonneg a = true -> nonneg (sqrt a) = true.
Proof.
  destruct a as [[]|[]| |[] ma ea]; unfold sqrt, SFsqrt; intros Ha;
    try discriminate; try reflexivity.
  destruct (SFsqrt_core_binary prec emax (Z.pos ma) ea) as [[q e'] l] eqn:Hc.
  assert (Hq : 0 <= q).
  { unfold SFsqrt_core_binary in Hc.
    match type of Hc with context [Z.sqrtrem ?m] =>
      pose proof (Z.sqrtrem_sqrt m) as Hs; pose proof (Z.sqrt_nonneg m) as Hn;
      destruct (Z.sqrtrem m) as [q0 r0] end.
    unfold fst in Hs. injection Hc as <- _ _. lia. }
  destruct (BRA_shape false q e' l Hq) as (m & e & -> & Hm).
  apply pack_nonneg, Hm.
Qed.

(** *** Halving and adding inside the unit interval *)

(** What validity and [x <= 2^k] say of a positive finite [x]. *)
Lemma finite_le_pow2 k m e :
  -1021 <= k ->
  bounded prec emax m e = true ->
  leb (S754_finite false m e) (pow2 k) = true ->
  Zdigits2 (Z.pos m) <= 53 /\
  (e < k - 52 \/ (e = k - 52 /\ m = 4503599627370496%positive)).
Proof.
  intros Hk Hb Hle. unfold bounded, canonical_mantissa in Hb.
  apply andb_true_iff in Hb. destruct Hb as [Hc _]. apply Z.eqb_eq in Hc.
  change (Z.pos (digits2_pos m)) with (Zdigits2 (Z.pos m)) in Hc.
  rewrite fexp_eq in Hc.
  split; [lia|].
  unfold leb, SFleb, pow2, SFcompare in Hle.
  destruct (Z.compare_spec e (k - 52)) as [Heq|Hlt|Hgt];
    [|left; exact Hlt|discriminate].
  right. split; [exact Heq|].
  assert (Hd : Zdigits2 (Z.pos m) = 53) by lia.
  destruct (Zdigits2_bounds (Z.pos m)) as [Hlo _]; [lia|]. rewrite Hd in Hlo.
  rewrite compare_cont_Eq in Hle.
  destruct (Pos.compare_spec m 4503599627370496) as [->|Hl|Hg];
    [reflexivity| |discriminate].
  change (2 ^ (53 - 1)) with (Z.pos 4503599627370496) in Hlo.
  exfalso. apply (Z.lt_irrefl (Z.pos m)).
  eapply Z.lt_le_trans; [apply Pos2Z.pos_lt_pos, Hl|exact Hlo].
Qed.

Lemma leb_pinf_finite m e :
  leb (S754_infinity false) (S754_finite false m e) = false.
Proof. reflexivity. Qed.

Lemma in_unit_cases k x :
  -1021 <= k -> in_unit k x ->
  x = zero \/ x = pow2 k \/
  exists m e, x = S754_finite false m e /\ Zdigits2 (Z.pos m) + e <= k.
Proof.
  intros Hk (Hn & Hv & Hle).
  destruct x as [[]|[]| |[] m e]; simpl in Hn; try discriminate.
  - left; reflexivity.
  - simpl in Hv. destruct (finite_le_pow2 k m e Hk Hv Hle) as [Hd [Hlt|[-> ->]]].
    + right; right. exists m, e. split; [reflexivity|lia].
    + right; left. reflexivity.
Qed.

(** Half of a number of [[0, 1]] is a number of [[0, 1/2]]. *)
Lemma mul_half_unit x : in_unit 0 x -> in_unit (-1) (mul half x).
Proof.
  intros Hx. destruct (in_unit_cases 0 x) as [->|[->|(m & e & -> & Hmag)]];
    [lia|exact Hx|repeat split..|].
  unfold mul, SFmul, half, pow2. simpl xorb.
  set (mx := Z.pos (4503599627370496 * m)). set (ex := -1 - 52 + e).
  assert (Hmx : mx = Z.pos m * 2 ^ 52) by (subst mx; lia).
  assert (Hd : Zdigits2 mx = Zdigits2 (Z.pos m) + 52)
    by (rewrite Hmx; apply Zdigits2_mul_pow2; lia).
  assert (Hd1 : 1 <= Zdigits2 (Z.pos m)) by (simpl; lia).
  assert (HP : ex <= fexp (Zdigits2 mx + ex)) by (rewrite fexp_eq; lia).
  repeat split.
  - destruct (BRA_shape false mx ex loc_Exact) as (m0 & e0 & -> & Hm0); [lia|].
    apply pack_nonneg, Hm0.
  - apply BRA_valid; [lia|exact HP].
  - apply BRA_le_pow2; [lia|lia|exact HP|lia].
Qed.

(** A finite number of magnitude at most [j], written at a lower
    exponent [ez], has a mantissa below [2^(j - ez)]. *)
Lemma aligned_lt m e ez j :
  ez <= e -> Zdigits2 (Z.pos m) + e <= j ->
  Z.pos m * 2 ^ (e - ez) < 2 ^ (j - ez).
Proof.
  intros Hez Hmag. destruct (Zdigits2_bounds (Z.pos m)) as [_ Hhi]; [lia|].
  assert (Hd1 : 1 <= Zdigits2 (Z.pos m)) by (simpl; lia).
  assert (Hle : 2 ^ Zdigits2 (Z.pos m) <= 2 ^ (j - e))
    by (apply Z.pow_le_mono_r; lia).
  replace (j - ez) with ((j - e) + (e - ez)) by lia.
  rewrite Z.pow_add_r by lia.
  assert (0 < 2 ^ (e - ez)) by (apply Z.pow_pos_nonneg; lia). nia.
Qed.

Lemma add_finite_le_pow2 k ma ea mb eb :
  -1021 <= k <= 1023 -> Z.min ea eb <= k ->
  Z.pos ma * 2 ^ (ea - Z.min ea eb) + Z.pos mb * 2 ^ (eb - Z.min ea eb)
    < 2 ^ (k - Z.min ea eb) ->
  leb (add (S754_finite false ma ea) (S754_finite false mb eb)) (pow2 k) = true.
Proof.
  intros Hk Hez Hsum. unfold add, SFadd. simpl cond_Zopp.
  destruct (shl_align_spec ma ea (Z.min ea eb)) as (mza & -> & Hza).
  destruct (shl_align_spec mb eb (Z.min ea eb)) as (mzb & -> & Hzb).
  simpl fst. simpl binary_normalize.
  replace (Z.min ea (Z.min ea eb)) with (Z.min ea eb) in Hza by lia.
  replace (Z.min eb (Z.min ea eb)) with (Z.min ea eb) in Hzb by lia.
  apply binary_round_le_pow2; [exact Hk|].
  assert (Zdigits2 (Z.pos (mza + mzb)) <= k - Z.min ea eb); [|lia].
  apply Zdigits2_le; [|lia]. rewrite Pos2Z.inj_add, Hza, Hzb. lia.
Qed.

(** The sum of two numbers of [[0, 1/2]] is a number of [[0, 1]]. *)
Lemma add_half_unit a b :
  in_unit (-1) a -> in_unit (-1) b ->
  leb zero (add a b) = true /\ leb (add a b) one = true.
Proof.
  intros Ha Hb.
  split; [apply nonneg_leb_zero, add_nonneg; [apply Ha|apply Hb]|].
  assert (Hhalf : forall y, in_unit (-1) y -> leb y one = true).
  { intros y (_ & _ & Hle). eapply leb_trans; [exact Hle|reflexivity]. }
  destruct (in_unit_cases (-1) a) as [->|[->|(ma & ea & -> & Hma)]];
    [lia|exact Ha| | |];
  destruct (in_unit_cases (-1) b) as [->|[->|(mb & eb & -> & Hmb)]];
    try lia; try exact Hb;
    try reflexivity; try (apply Hhalf; assumption).
  - (* 1/2 + b, b < 1/2 *)
    assert (Hd1 : 1 <= Zdigits2 (Z.pos mb)) by (simpl; lia).
    apply (add_finite_le_pow2 0); [lia|lia|].
    set (ez := Z.min (-1 - 52) eb).
    pose proof (aligned_lt mb eb ez (-1) ltac:(lia) Hmb) as Hb'.
    assert (Ha' : 4503599627370496 * 2 ^ (-1 - 52 - ez) = 2 ^ (-1 - ez)).
    { change 4503599627370496 with (2 ^ 52). rewrite <- Z.pow_add_r by lia.
      f_equal. lia. }
    replace (0 - ez) with (1 + (-1 - ez)) by lia.
    rewrite Z.pow_add_r by lia. change (2 ^ 1) with 2. lia.
  - (* a + 1/2, a < 1/2 *)
    assert (Hd1 : 1 <= Zdigits2 (Z.pos ma)) by (simpl; lia).
    apply (add_finite_le_pow2 0); [lia|lia|].
    set (ez := Z.min ea (-1 - 52)).
    pose proof (aligned_lt ma ea ez (-1) ltac:(lia) Hma) as Ha'.
    assert (Hb' : 4503599627370496 * 2 ^ (-1 - 52 - ez) = 2 ^ (-1 - ez)).
    { change 4503599627370496 with (2 ^ 52). rewrite <- Z.pow_add_r by lia.
      f_equal. lia. }
    replace (0 - ez) with (1 + (-1 - ez)) by lia.
    rewrite Z.pow_add_r by lia. change (2 ^ 1) with 2. lia.
  - (* a + b, both below 1/2 *)
    assert (Hda : 1 <= Zdigits2 (Z.pos ma)) by (simpl; lia).
    assert (Hdb : 1 <= Zdigits2 (Z.pos mb)) by (simpl; lia).
    apply (add_finite_le_pow2 0); [lia|lia|].
    set (ez := Z.min ea eb).
    pose proof (aligned_lt ma ea ez (-1) ltac:(lia) Hma) as Ha'.
    pose proof (aligned_lt mb eb ez (-1) ltac:(lia) Hmb) as Hb'.
    replace (0 - ez) with (1 + (-1 - ez)) by lia.
    rewrite Z.pow_add_r by lia. change (2 ^ 1) with 2. lia.
Qed.

End RoundingFacts.

(** ** The controller never regresses *)

Module ControllerFacts.

Import Double DoubleFacts mcik_ctrl ControllerSpec.

Section NonRegression.

Variable evaluate : ParamVector -> double.
Variable d : ProbeDeltas.

Lemma try_update_inv base best p :
  K_inv evaluate base best -> K_inv evaluate base (try_update evaluate best p).
Proof.
  intros [Hs Hb]. unfold try_update, gtb.
  destruct (ltb (cand_score best) (evaluate (clamp_params p))) eqn:Hlt.
  - split; [reflexivity|]. simpl.
    eapply leb_trans; [exact Hb|]. apply ltb_leb, Hlt.
  - split; assumption.
Qed.

Lemma fold_try_update_inv base probes best :
  K_inv evaluate base best -> K_inv evaluate base (fold_left (try_update evaluate) probes best).
Proof.
  revert best. induction probes as [|p probes IH]; intros best H; simpl.
  - exact H.
  - apply IH, try_update_inv, H.
Qed.

Lemma K_best_inv current :
  is_nan (evaluate current) = false ->
  K_inv evaluate (evaluate current) (K_best evaluate d current).
Proof.
  intros Hn. unfold K_best. apply fold_try_update_inv.
  split; simpl; [reflexivity|]. apply leb_refl, Hn.
Qed.

Lemma suggest_step_K_ge current :
  is_nan (evaluate current) = false ->
  leb (evaluate current) (evaluate (next (suggest_step_K evaluate d current)))
  = true.
Proof.
  intros Hn. destruct (K_best_inv current Hn) as [Hs Hb].
  unfold suggest_step_K. simpl. rewrite <- Hs. exact Hb.
Qed.

Lemma try_pair_inv sK current st ab :
  KH_inv evaluate sK st -> KH_inv evaluate sK (try_pair evaluate current st ab).
Proof.
  destruct st as [bestScore best], ab as [apply_a apply_b].
  intros [Hs Hb]. simpl in Hs, Hb. unfold try_pair.
  match goal with |- context [if ?c then _ else _] => destruct c eqn:Hc end.
  - apply andb_true_iff in Hc. destruct Hc as [_ Hgt]. unfold gtb in Hgt.
    split; simpl; [reflexivity|].
    eapply leb_trans; [exact Hb|]. apply ltb_leb, Hgt.
  - split; assumption.
Qed.

Lemma fold_try_pair_inv sK current pairs st :
  KH_inv evaluate sK st -> KH_inv evaluate sK (fold_left (try_pair evaluate current) pairs st).
Proof.
  revert st. induction pairs as [|ab pairs IH]; intros st H; simpl.
  - exact H.
  - apply IH, try_pair_inv, H.
Qed.

Lemma suggest_step_KH_ge current :
  is_nan (evaluate (next (suggest_step_K evaluate d current))) = false ->
  leb (evaluate (next (suggest_step_K evaluate d current)))
      (evaluate (next (suggest_step_KH evaluate d current))) = true.
Proof.
  intros Hn. unfold suggest_step_KH.
  set (sK := evaluate (next (suggest_step_K evaluate d current))) in *.
  destruct (fold_try_pair_inv sK current (KH_pairs d)
              (sK, suggest_step_K evaluate d current)) as [Hs Hb].
  - split; simpl; [reflexivity|]. apply leb_refl, Hn.
  - rewrite <- Hs. exact Hb.
Qed.

End NonRegression.

(** C1, as amended: for every vector [p] and every scoring function whose
    score at [p] is not NaN, the score of the vector returned by the K step
    is at least the score of [p], and the score of the vector returned by
    the K+H step is at least the score of the vector returned by the K
    step. *)
Theorem controller_non_regression
    (evaluate : ParamVector -> double) (d : ProbeDeltas) (p : ParamVector) :
  is_nan (evaluate p) = false ->
  geb (evaluate (next (suggest_step_K evaluate d p))) (evaluate p) = true /\
  geb (evaluate (next (suggest_step_KH evaluate d p)))
      (evaluate (next (suggest_step_K evaluate d p))) = true.
Proof.
  intros Hn. unfold geb.
  pose proof (suggest_step_K_ge evaluate d p Hn) as HK.
  split; [exact HK|].
  apply suggest_step_KH_ge. apply (leb_not_nan _ _ HK).
Qed.

Lemma controller_non_regression_witness :
  in_domain p_default = true /\
  geb (score_by_ramp (next (suggest_step_K score_by_ramp default_deltas p_default)))
      (score_by_ramp p_default) = true /\
  geb (score_by_ramp (next (suggest_step_KH score_by_ramp default_deltas p_default)))
      (score_by_ramp (next (suggest_step_K score_by_ramp default_deltas p_default)))
  = true.
Proof.
  split; [vm_compute; reflexivity|].
  apply (controller_non_regression score_by_ramp default_deltas p_default).
  vm_compute; reflexivity.
Defined.

(** C1 as stated fails: with a score that is NaN, the K step returns its
    input, and [NaN >= NaN] is false. *)
Lemma controller_non_regression_nan_counterexample :
  in_domain p_default = true /\
  next (suggest_step_K score_nan default_deltas p_default) = p_default /\
  geb (score_nan (next (suggest_step_K score_nan default_deltas p_default)))
      (score_nan p_default) = false.
Proof. vm_compute. repeat split; reflexivity. Qed.

End ControllerFacts.

(** ** The shading ramp *)

Module RampFacts.

Import Double torus_metrics ascii_torus RampSpec.

(** The master ramp holds 44 glyphs: the ten of the density ramp, then 34
    letters. *)
Lemma DEFAULT_RAMP_size : int_size DEFAULT_RAMP = 44.
Proof. reflexivity. Qed.

(** The ten glyphs the comment at [DEFAULT_RAMP] counts are ordered. *)
Lemma density_ramp_ordered : density_ordered density_ramp = true.
Proof. vm_compute. reflexivity. Qed.

Lemma make_ramp_length ramp_size ramp :
  make_ramp ramp_size = Some ramp ->
  0 <= ramp_size -> Z.of_nat (length ramp) = ramp_size.
Proof.
  unfold make_ramp. intros H Hpos.
  destruct (Z.eqb_spec ramp_size (int_size DEFAULT_RAMP)) as [->|_].
  - injection H as <-. reflexivity.
  - destruct (Z.ltb_spec ramp_size 0); [discriminate|].
    apply length_mapM in H. rewrite <- H. unfold int_range.
    rewrite length_map, length_seq. lia.
Qed.

(** C3 fails on the code for every ramp size of the domain: the ramp has
    the requested length, but [char_density] decreases somewhere along it. *)
Lemma make_ramp_unordered_all :
  Forall (fun n => exists ramp, make_ramp n = Some ramp
                                /\ Z.of_nat (length ramp) = n
                                /\ density_ordered ramp = false) ramp_sizes.
Proof.
  unfold ramp_sizes. change (int_range 8 17) with [8; 9; 10; 11; 12; 13; 14; 15; 16].
  repeat (constructor;
          [eexists; split; [vm_compute; reflexivity|];
           split; vm_compute; reflexivity|]).
  constructor.
Qed.

(** C3 at [ramp_size = 8]: [make_ramp] yields the eight glyphs [ *kofeku],
    and the density of ['f'] is below that of ['o'] before it. *)
Theorem make_ramp_8_not_ordered :
  make_ramp 8 = Some (list_byte_of_string " *kofeku") /\
  density_ordered (list_byte_of_string " *kofeku") = false /\
  ltb (char_density "f"%byte) (char_density "o"%byte) = true.
Proof. vm_compute. repeat split; reflexivity. Qed.

(** C6: two calls of [make_ramp] with the same size yield the same ramp,
    and the size of the master ramp yields the master ramp itself. *)
Theorem make_ramp_deterministic_native (ramp_size : Z) (r1 r2 : option (list byte)) :
  (make_ramp ramp_size = r1 -> make_ramp ramp_size = r2 -> r1 = r2) /\
  make_ramp (int_size DEFAULT_RAMP) = Some DEFAULT_RAMP.
Proof.
  split.
  - intros <- <-. reflexivity.
  - reflexivity.
Qed.

Lemma make_ramp_deterministic_native_witness :
  Some (list_byte_of_string " =%kjdkoesfu") = Some (list_byte_of_string " =%kjdkoesfu")
  /\ make_ramp 44 = Some DEFAULT_RAMP.
Proof.
  destruct (make_ramp_deterministic_native 12
              (Some (list_byte_of_string " =%kjdkoesfu"))
              (Some (list_byte_of_string " =%kjdkoesfu"))) as [Hdet Hnat].
  split; [apply Hdet; vm_compute; reflexivity | exact Hnat].
Defined.

End RampFacts.

(** ** The metrics *)

Module MetricsFacts.

Import Double torus_metrics IntFacts LoopFacts.

Lemma quality_cell_is_Some buf w h y st x :
  3 <= w -> 3 <= h -> w * h <= Int.INT_MAX -> Z.of_nat (length buf) = w * h ->
  1 <= y < h - 1 -> 1 <= x < w - 1 -> is_Some (quality_cell buf w y st x).
Proof.
  intros Hw Hh Hmax Hlen Hy Hx. destruct st as [acc cnt]. unfold quality_cell.
  assert (Hyw : w <= y * w <= (h - 2) * w) by nia.
  assert (Hwh : (h - 2) * w = w * h - 2 * w) by lia.
  unfold Int.INT_MAX in Hmax.
  assert (Hoff : Int.add (Int.mul y w) x = y * w + x).
  { rewrite mul_small, add_small; unfold Int.INT_MIN, Int.INT_MAX; lia. }
  rewrite Hoff.
  rewrite (sub_small (y * w + x) 1), (add_small (y * w + x) 1),
    (sub_small (y * w + x) w), (add_small (y * w + x) w)
    by (unfold Int.INT_MIN, Int.INT_MAX; lia).
  destruct (get_is_Some buf (y * w + x - 1)) as [b1 ->]; [lia|].
  destruct (get_is_Some buf (y * w + x + 1)) as [b2 ->]; [lia|].
  destruct (get_is_Some buf (y * w + x - w)) as [b3 ->]; [lia|].
  destruct (get_is_Some buf (y * w + x + w)) as [b4 ->]; [lia|].
  simpl. eauto.
Qed.

Lemma quality_loops_is_Some buf w h st :
  3 <= w -> 3 <= h -> w * h <= Int.INT_MAX -> Z.of_nat (length buf) = w * h ->
  is_Some (foldlM (quality_row buf w) (int_range 1 (Int.sub h 1)) st).
Proof.
  intros Hw Hh Hmax Hlen.
  assert (Hw1 : Int.sub w 1 = w - 1).
  { apply wrap_small. unfold Int.INT_MIN, Int.INT_MAX in *. nia. }
  assert (Hh1 : Int.sub h 1 = h - 1).
  { apply wrap_small. unfold Int.INT_MIN, Int.INT_MAX in *. nia. }
  apply foldlM_is_Some.
  intros st0 y Hy. rewrite Hh1 in Hy. apply in_int_range in Hy.
  unfold quality_row. apply foldlM_is_Some.
  intros st' x Hx. rewrite Hw1 in Hx. apply in_int_range in Hx.
  now apply quality_cell_is_Some with (h := h).
Qed.

(** C4, as amended: [estimate_ascii_quality] returns exactly 0 when [w < 3]
    or [h < 3], and [estimate_ascii_similarity] returns exactly 0 when the
    two lengths differ or the length of the buffer, converted to [int], is
    not the [int] [w * h]; neither faults. *)
Theorem sentinel_zero (buf ref : list byte) (w h : Z) :
  (w < 3 \/ h < 3 -> estimate_ascii_quality buf w h = Some zero) /\
  (length buf <> length ref \/ Int.wrap (Z.of_nat (length buf)) <> Int.mul w h ->
   estimate_ascii_similarity buf ref w h = Some zero).
Proof.
  split.
  - intros H. unfold estimate_ascii_quality.
    destruct (Z.ltb_spec w 3); [reflexivity|].
    destruct (Z.ltb_spec h 3); [reflexivity|lia].
  - intros H. unfold estimate_ascii_similarity.
    destruct (Nat.eqb_spec (length buf) (length ref)) as [Heq|Hne];
      [|reflexivity].
    destruct (Z.eqb_spec (Int.wrap (Z.of_nat (length buf))) (Int.mul w h));
      [|reflexivity].
    destruct H; contradiction.
Qed.

Lemma sentinel_zero_witness :
  estimate_ascii_quality (list_byte_of_string "ab") 2 1 = Some zero /\
  estimate_ascii_similarity (list_byte_of_string "ab")
                            (list_byte_of_string "abc") 2 1 = Some zero.
Proof.
  destruct (sentinel_zero (list_byte_of_string "ab")
                          (list_byte_of_string "abc") 2 1) as [Hq Hs].
  split; [apply Hq; left; lia | apply Hs; left; simpl; lia].
Defined.

(** C9, as amended: for [w >= 3], [h >= 3], a product [w * h] that fits an
    [int] and a buffer of exactly [w * h] cells, every read of
    [estimate_ascii_quality] is within the buffer, so the function returns;
    the function checks no length itself, and on a shorter buffer a read is
    out of bounds. *)
Theorem quality_access_safety (buf : list byte) (w h : Z) :
  (3 <= w -> 3 <= h -> w * h <= Int.INT_MAX ->
   Z.of_nat (length buf) = w * h ->
   is_Some (estimate_ascii_quality buf w h)) /\
  estimate_ascii_quality [] 3 3 = None.
Proof.
  split; [|reflexivity].
  intros Hw Hh Hmax Hlen. unfold estimate_ascii_quality.
  destruct (Z.ltb_spec w 3); [lia|]. destruct (Z.ltb_spec h 3); [lia|]. simpl.
  destruct (quality_loops_is_Some buf w h (zero, 0) Hw Hh Hmax Hlen)
    as [[acc cnt] ->].
  simpl. destruct (cnt =? 0); eauto.
Qed.

Lemma quality_access_safety_witness :
  is_Some (estimate_ascii_quality (list_byte_of_string " .:-=+*#%@ .") 4 3).
Proof.
  apply (quality_access_safety (list_byte_of_string " .:-=+*#%@ .") 4 3);
    [lia | lia | unfold Int.INT_MAX; lia | reflexivity].
Defined.

End MetricsFacts.

(** ** The renderer *)

Module RenderFacts.

Import Double DoubleFacts ascii_torus IntFacts LoopFacts RenderSpec.

(** The two outcomes of a depth test. *)
Lemma plot_cases w h ramp fr s fr' :
  plot w h ramp fr s = Some fr' ->
  fr' = fr \/
  exists off z c,
    (off < length (zbuf fr))%nat /\ (off < length (out_buf fr))%nat /\
    zbuf fr !! off = Some z /\ gtb (s_ooz s) z = true /\
    get ramp (s_idx s) = Some c /\
    zbuf fr' = <[off := s_ooz s]> (zbuf fr) /\
    out_buf fr' = <[off := c]> (out_buf fr).
Proof.
  unfold plot.
  destruct ((0 <=? s_xp s) && (s_xp s <? w) && (0 <=? s_yp s) && (s_yp s <? h));
    [|intros [= <-]; now left].
  set (off := Int.add (Int.mul (s_yp s) w) (s_xp s)).
  destruct (get (zbuf fr) off) as [z|] eqn:Hz; [|discriminate]. simpl.
  destruct (gtb (s_ooz s) z) eqn:Hgt; [|intros [= <-]; now left].
  destruct (set (zbuf fr) off (s_ooz s)) as [zbuf'|] eqn:Hzs; [|discriminate].
  simpl. destruct (get ramp (s_idx s)) as [c|] eqn:Hc; [|discriminate]. simpl.
  destruct (set (out_buf fr) off c) as [out'|] eqn:Hos; [|discriminate].
  simpl. intros [= <-]. right.
  apply set_Some in Hzs, Hos. apply get_Some in Hz.
  destruct Hzs as [Hzr ->], Hos as [Hor ->], Hz as [_ Hz].
  exists (Z.to_nat off), z, c. simpl. repeat split; try assumption; lia.
Qed.

Lemma plot_no_nan w h ramp fr s fr' :
  plot w h ramp fr s = Some fr' -> no_nan fr -> no_nan fr'.
Proof.
  intros Hp Hn. destruct (plot_cases _ _ _ _ _ _ Hp) as [->|(off & z & c & H)];
    [exact Hn|].
  destruct H as (Hlz & _ & Hz & Hgt & _ & Hzb & _).
  intros i z' Hi. rewrite Hzb in Hi.
  destruct (decide (off = i)) as [->|Hne].
  - rewrite list_lookup_insert_eq in Hi by exact Hlz. injection Hi as <-.
    apply (ltb_not_nan _ _ Hgt).
  - rewrite list_lookup_insert_ne in Hi by exact Hne. apply (Hn i z' Hi).
Qed.

Lemma clear_frame_no_nan fr : no_nan (clear_frame fr).
Proof.
  intros i z Hi. simpl in Hi. apply lookup_replicate in Hi. destruct Hi as [-> _].
  reflexivity.
Qed.

Lemma run_pass_no_nan w h ramp samples fr fr' :
  run_pass w h ramp samples fr = Some fr' -> no_nan fr -> no_nan fr'.
Proof.
  intros Hrun Hn. unfold run_pass in Hrun.
  apply (foldlM_invariant no_nan (plot w h ramp) samples) with (s := fr);
    [|exact Hn|exact Hrun].
  intros s a s' _ Hs Hp. exact (plot_no_nan _ _ _ _ _ _ Hp Hs).
Qed.

(** One depth test never lowers a stored depth. *)
Lemma plot_depth_mono w h ramp fr s fr' :
  plot w h ramp fr s = Some fr' -> no_nan fr ->
  forall i z, zbuf fr !! i = Some z ->
  exists z', zbuf fr' !! i = Some z' /\ leb z z' = true.
Proof.
  intros Hp Hn i z Hi.
  destruct (plot_cases _ _ _ _ _ _ Hp) as [->|(off & z0 & c & H)].
  - exists z. split; [exact Hi|]. apply leb_refl, (Hn i z Hi).
  - destruct H as (Hlz & _ & Hz & Hgt & _ & Hzb & _). rewrite Hzb.
    destruct (decide (off = i)) as [->|Hne].
    + rewrite list_lookup_insert_eq by exact Hlz. exists (s_ooz s).
      split; [reflexivity|]. rewrite Hi in Hz. injection Hz as ->.
      apply ltb_leb, Hgt.
    + rewrite list_lookup_insert_ne by exact Hne. exists z.
      split; [exact Hi|]. apply leb_refl, (Hn i z Hi).
Qed.

Lemma run_pass_depth_mono w h ramp samples :
  forall fr fr', run_pass w h ramp samples fr = Some fr' -> no_nan fr ->
  forall i z, zbuf fr !! i = Some z ->
  exists z', zbuf fr' !! i = Some z' /\ leb z z' = true.
Proof.
  induction samples as [|s samples IH]; intros fr fr' Hrun Hn i z Hi.
  - injection Hrun as <-. exists z. split; [exact Hi|]. apply leb_refl, (Hn i z Hi).
  - unfold run_pass in Hrun. simpl in Hrun.
    destruct (plot w h ramp fr s) as [fr1|] eqn:Hp; [|discriminate].
    simpl in Hrun.
    destruct (plot_depth_mono _ _ _ _ _ _ Hp Hn i z Hi) as (z1 & Hz1 & Hle1).
    destruct (IH fr1 fr' Hrun (plot_no_nan _ _ _ _ _ _ Hp Hn) i z1 Hz1)
      as (z' & Hz' & Hle').
    exists z'. split; [exact Hz'|]. exact (leb_trans _ _ _ Hle1 Hle').
Qed.

(** What one depth test does to cell [i]: it leaves the cell alone, or the
    candidate is strictly nearer and takes the cell. *)
Lemma plot_cell w h ramp fr s fr' i z :
  plot w h ramp fr s = Some fr' -> zbuf fr !! i = Some z ->
  (out_buf fr' !! i = out_buf fr !! i /\ zbuf fr' !! i = Some z) \/
  (gtb (s_ooz s) z = true /\ zbuf fr' !! i = Some (s_ooz s) /\
   exists c, get ramp (s_idx s) = Some c /\ out_buf fr' !! i = Some c).
Proof.
  intros Hp Hi. destruct (plot_cases _ _ _ _ _ _ Hp) as [->|(off & z0 & c & H)].
  - left. split; [reflexivity|exact Hi].
  - destruct H as (Hlz & Hlo & Hz & Hgt & Hc & Hzb & Hob). rewrite Hzb, Hob.
    destruct (decide (off = i)) as [->|Hne].
    + right. rewrite Hi in Hz. injection Hz as ->.
      rewrite !list_lookup_insert_eq by assumption. eauto.
    + left. rewrite !list_lookup_insert_ne by exact Hne. auto.
Qed.

(** C2: in a pass of [render_torus_frame] (the depth tests [before], then
    the one of sample [s], then those [later], from the cleared buffers), the
    test of [s] changes glyph or depth of a cell only when the depth [ooz]
    of [s] is strictly greater than the depth stored there, and then stores
    [ooz]; a candidate of equal depth, which [>=] would let through, leaves
    the cell to the earlier writer; and the depth stored at a cell never
    decreases, over the step and to the end of the pass. *)
Theorem depth_test_strict (w h : Z) (ramp : list byte) (fr0 : Frame)
    (before : list Sample) (s : Sample) (later : list Sample)
    (fr fr' fr_end : Frame) :
  run_pass w h ramp before (clear_frame fr0) = Some fr ->
  plot w h ramp fr s = Some fr' ->
  run_pass w h ramp later fr' = Some fr_end ->
  forall (i : nat) (z : double), zbuf fr !! i = Some z ->
    ((out_buf fr' !! i <> out_buf fr !! i \/ zbuf fr' !! i <> Some z) ->
       gtb (s_ooz s) z = true /\ zbuf fr' !! i = Some (s_ooz s)) /\
    (eqb (s_ooz s) z = true ->
       geb (s_ooz s) z = true /\
       out_buf fr' !! i = out_buf fr !! i /\ zbuf fr' !! i = Some z) /\
    (exists z', zbuf fr' !! i = Some z' /\ leb z z' = true) /\
    (exists z', zbuf fr_end !! i = Some z' /\ leb z z' = true).
Proof.
  intros Hbefore Hp Hlater i z Hi.
  pose proof (run_pass_no_nan _ _ _ _ _ _ Hbefore (clear_frame_no_nan fr0)) as Hn.
  pose proof (plot_cell _ _ _ _ _ _ _ _ Hp Hi) as Hcell.
  split; [|split; [|split]].
  - intros Hch. destruct Hcell as [[Ho Hz]|(Hgt & Hz & _)]; [|auto].
    destruct Hch as [Hch|Hch]; contradiction.
  - intros Heq. split; [apply eqb_leb; rewrite eqb_sym; exact Heq|].
    destruct Hcell as [Hsame|(Hgt & _)]; [exact Hsame|].
    unfold gtb in Hgt. apply ltb_eqb_excl in Hgt. rewrite eqb_sym in Hgt.
    congruence.
  - exact (plot_depth_mono _ _ _ _ _ _ Hp Hn i z Hi).
  - destruct (plot_depth_mono _ _ _ _ _ _ Hp Hn i z Hi) as (z1 & Hz1 & Hle1).
    destruct (run_pass_depth_mono _ _ _ _ _ _ Hlater (plot_no_nan _ _ _ _ _ _ Hp Hn) i z1 Hz1)
      as (z' & Hz' & Hle').
    exists z'. split; [exact Hz'|]. exact (leb_trans _ _ _ Hle1 Hle').
Qed.

Lemma depth_test_strict_witness :
  ((out_buf demo_mid !! 0%nat <> out_buf demo_mid !! 0%nat
    \/ zbuf demo_mid !! 0%nat <> Some one) ->
   gtb (s_ooz demo_tie) one = true
   /\ zbuf demo_mid !! 0%nat = Some (s_ooz demo_tie)) /\
  (eqb (s_ooz demo_tie) one = true ->
   geb (s_ooz demo_tie) one = true
   /\ out_buf demo_mid !! 0%nat = out_buf demo_mid !! 0%nat
   /\ zbuf demo_mid !! 0%nat = Some one) /\
  (exists z', zbuf demo_mid !! 0%nat = Some z' /\ leb one z' = true) /\
  (exists z', zbuf demo_end !! 0%nat = Some z' /\ leb one z' = true).
Proof.
  apply (depth_test_strict 2 1 demo_ramp demo_prior [demo_first] demo_tie
           [demo_last] demo_mid demo_mid demo_end);
    vm_compute; reflexivity.
Defined.

Lemma plot_same_shape w h ramp fr s fr' :
  plot w h ramp fr s = Some fr' -> same_shape fr' fr.
Proof.
  intros Hp. destruct (plot_cases _ _ _ _ _ _ Hp) as [->|(off & z & c & H)].
  - split; reflexivity.
  - destruct H as (_ & _ & _ & _ & _ & Hz & Ho). unfold same_shape.
    rewrite Hz, Ho. split; apply length_insert.
Qed.

Lemma plot_alphabet w h ramp fr s fr' :
  plot w h ramp fr s = Some fr' -> alphabet ramp fr -> alphabet ramp fr'.
Proof.
  intros Hp Ha. destruct (plot_cases _ _ _ _ _ _ Hp) as [->|(off & z & c & H)];
    [exact Ha|].
  destruct H as (_ & Hlo & _ & _ & Hc & _ & Hob).
  intros i c' Hi. rewrite Hob in Hi.
  destruct (decide (off = i)) as [->|Hne].
  - rewrite list_lookup_insert_eq in Hi by exact Hlo. injection Hi as <-.
    right. apply get_Some in Hc. destruct Hc as [_ Hc].
    apply list_elem_of_In. eapply list_elem_of_lookup_2, Hc.
  - rewrite list_lookup_insert_ne in Hi by exact Hne. exact (Ha i c' Hi).
Qed.

Lemma clear_frame_alphabet ramp fr : alphabet ramp (clear_frame fr).
Proof.
  intros i c Hi. simpl in Hi. apply lookup_replicate in Hi. left. apply Hi.
Qed.

Lemma clear_frame_same_shape fr1 fr2 :
  same_shape fr1 fr2 -> clear_frame fr1 = clear_frame fr2.
Proof. intros [Ho Hz]. unfold clear_frame. rewrite Ho, Hz. reflexivity. Qed.

Lemma clear_frame_roomy w h fr : roomy w h fr -> roomy w h (clear_frame fr).
Proof.
  intros (Hm & Ho & Hz). unfold roomy, clear_frame; simpl.
  rewrite !length_replicate. auto.
Qed.

Lemma plot_is_Some w h ramp fr s :
  roomy w h fr -> idx_in_ramp ramp s -> is_Some (plot w h ramp fr s).
Proof.
  intros (Hm & Ho & Hz) Hidx. unfold plot.
  destruct ((0 <=? s_xp s) && (s_xp s <? w) && (0 <=? s_yp s) && (s_yp s <? h))
    eqn:Hb; [|eauto].
  apply andb_true_iff in Hb. destruct Hb as [Hb Hyh].
  apply andb_true_iff in Hb. destruct Hb as [Hb Hy0].
  apply andb_true_iff in Hb. destruct Hb as [Hx0 Hxw].
  apply Z.leb_le in Hx0, Hy0. apply Z.ltb_lt in Hxw, Hyh.
  assert (Hyw : 0 <= s_yp s * w <= (h - 1) * w) by nia.
  assert (Hwh : (h - 1) * w = w * h - w) by lia.
  unfold Int.INT_MAX in Hm.
  assert (Hoff : Int.add (Int.mul (s_yp s) w) (s_xp s) = s_yp s * w + s_xp s).
  { rewrite mul_small, add_small; unfold Int.INT_MIN, Int.INT_MAX; lia. }
  rewrite Hoff.
  destruct (get_is_Some (zbuf fr) (s_yp s * w + s_xp s)) as [z ->]; [lia|].
  simpl. destruct (gtb (s_ooz s) z); [|eauto].
  rewrite set_is_Some by lia. simpl.
  destruct (get_is_Some ramp (s_idx s) Hidx) as [c ->]. simpl.
  rewrite set_is_Some by lia. simpl. eauto.
Qed.

Lemma plot_roomy w h ramp fr s fr' :
  plot w h ramp fr s = Some fr' -> roomy w h fr -> roomy w h fr'.
Proof.
  intros Hp (Hm & Ho & Hz). destruct (plot_same_shape _ _ _ _ _ _ Hp) as [Ho' Hz'].
  unfold roomy. rewrite Ho', Hz'. auto.
Qed.

Lemma run_pass_is_Some w h ramp samples :
  Forall (idx_in_ramp ramp) samples ->
  forall fr, roomy w h fr -> is_Some (run_pass w h ramp samples fr).
Proof.
  induction 1 as [|s samples Hs _ IH]; intros fr Hr; unfold run_pass; simpl.
  - eauto.
  - destruct (plot_is_Some w h ramp fr s Hr Hs) as [fr1 Hp]. rewrite Hp. simpl.
    apply IH, (plot_roomy _ _ _ _ _ _ Hp Hr).
Qed.

Lemma run_pass_alphabet w h ramp samples fr fr' :
  run_pass w h ramp samples fr = Some fr' -> alphabet ramp fr -> alphabet ramp fr'.
Proof.
  intros Hrun Ha.
  apply (foldlM_invariant (alphabet ramp) (plot w h ramp) samples) with (s := fr);
    [|exact Ha|exact Hrun].
  intros s a s' _ Hs Hp. exact (plot_alphabet _ _ _ _ _ _ Hp Hs).
Qed.

Section Libm.

Variable cos sin : double -> double.
Variable pow : double -> double -> double.

Lemma torus_sample_idx w h A B model ramp gamma cam costh sinth phi :
  ramp <> [] -> Z.of_nat (length ramp) <= Int.INT_MAX ->
  idx_in_ramp ramp (torus_sample cos sin pow w h A B model ramp gamma cam costh sinth phi).
Proof.
  intros Hne Hlen. unfold idx_in_ramp, torus_sample. simpl.
  assert (Hpos : 0 < Z.of_nat (length ramp)) by (destruct ramp; [congruence|simpl; lia]).
  assert (Hsz : Int.sub (int_size ramp) 1 = Z.of_nat (length ramp) - 1).
  { unfold int_size. unfold Int.INT_MAX in Hlen.
    rewrite wrap_small by (unfold Int.INT_MIN, Int.INT_MAX; lia).
    apply sub_small. unfold Int.INT_MIN, Int.INT_MAX; lia. }
  rewrite Hsz.
  match goal with |- context [Int.clamp ?v 0 ?hi] =>
    pose proof (clamp_bounds v 0 hi) end. lia.
Qed.

Lemma torus_samples_idx w h A B model ramp gamma cam :
  ramp <> [] -> Z.of_nat (length ramp) <= Int.INT_MAX ->
  Forall (idx_in_ramp ramp) (torus_samples cos sin pow w h A B model ramp gamma cam).
Proof.
  intros Hne Hlen. apply List.Forall_forall. intros s Hs.
  unfold torus_samples in Hs. revert Hs.
  generalize theta_values, phi_values. intros thetas phis Hs.
  destruct (proj1 (in_flat_map _ _ _) Hs) as (theta & _ & Hs').
  destruct (proj1 (in_map_iff _ _ _) Hs') as (phi & <- & _).
  now apply torus_sample_idx.
Qed.

(** C10: [render_torus_frame] clears both buffers on entry.  For a
    non-empty ramp and buffers that hold the [w * h] cells, it returns a
    frame whose every character is the blank or a glyph of the ramp, and it
    returns that same frame from any other prior contents of the buffers. *)
Theorem render_alphabet (w h : Z) (A B : double) (model : TorusModel)
    (ramp : list byte) (gamma cam_distance : double) (fr : Frame) :
  ramp <> [] -> Z.of_nat (length ramp) <= Int.INT_MAX -> roomy w h fr ->
  exists fr',
    render_torus_frame cos sin pow w h A B model ramp gamma cam_distance fr = Some fr' /\
    (forall i c, out_buf fr' !! i = Some c -> c = " "%byte \/ In c ramp) /\
    (forall fr2, same_shape fr2 fr ->
       render_torus_frame cos sin pow w h A B model ramp gamma cam_distance fr2 = Some fr').
Proof.
  intros Hne Hlen Hr. unfold render_torus_frame.
  destruct (run_pass_is_Some w h ramp _ (torus_samples_idx w h A B model ramp gamma cam_distance Hne Hlen)
              (clear_frame fr) (clear_frame_roomy _ _ _ Hr)) as [fr' Hrun].
  exists fr'. split; [exact Hrun|]. split.
  - exact (run_pass_alphabet _ _ _ _ _ _ Hrun (clear_frame_alphabet ramp fr)).
  - intros fr2 Hs. rewrite (clear_frame_same_shape _ _ Hs). exact Hrun.
Qed.

End Libm.

Lemma render_alphabet_witness :
  exists fr',
    render_torus_frame libm_one libm_one libm_fst 2 1 zero zero demo_model
      demo_ramp one (of_Z 10) demo_prior = Some fr' /\
    (forall i c, out_buf fr' !! i = Some c -> c = " "%byte \/ In c demo_ramp) /\
    (forall fr2, same_shape fr2 demo_prior ->
       render_torus_frame libm_one libm_one libm_fst 2 1 zero zero demo_model
         demo_ramp one (of_Z 10) fr2 = Some fr').
Proof.
  apply (render_alphabet libm_one libm_one libm_fst 2 1 zero zero demo_model
           demo_ramp one (of_Z 10) demo_prior).
  - discriminate.
  - vm_compute. discriminate.
  - unfold roomy. simpl. unfold Int.INT_MAX. lia.
Defined.

End RenderFacts.

(** ** More on the order of doubles, clamping and conversions *)

Module OrderFacts.

Import Double DoubleFacts RoundingSpec RoundingFacts IntFacts.

Lemma ltb_irrefl a : ltb a a = false.
Proof.
  unfold ltb, SFltb, SFcompare. destruct a as [[]|[]| |[] m e]; try reflexivity;
    rewrite Z.compare_refl, compare_cont_Eq, Pos.compare_refl; reflexivity.
Qed.

Lemma leb_ltb_false a b : leb a b = true -> ltb b a = false.
Proof.
  intros H. destruct (ltb b a) eqn:Hlt; [|reflexivity].
  apply ltb_antisym in Hlt. congruence.
Qed.

Lemma ltb_trans a b c : ltb a b = true -> ltb b c = true -> ltb a c = true.
Proof.
  unfold ltb, SFltb, SFcompare.
  destruct a as [[]|[]| |[] ma ea], b as [[]|[]| |[] mb eb],
           c as [[]|[]| |[] mc ec];
    try easy; intros; split_compare; subst; try easy; try lia.
Qed.

Lemma leb_ltb_trans a b c : leb a b = true -> ltb b c = true -> ltb a c = true.
Proof.
  unfold leb, ltb, SFleb, SFltb, SFcompare.
  destruct a as [[]|[]| |[] ma ea], b as [[]|[]| |[] mb eb],
           c as [[]|[]| |[] mc ec];
    try easy; intros; split_compare; subst; try easy; try lia.
Qed.

Lemma ltb_leb_trans a b c : ltb a b = true -> leb b c = true -> ltb a c = true.
Proof.
  unfold leb, ltb, SFleb, SFltb, SFcompare.
  destruct a as [[]|[]| |[] ma ea], b as [[]|[]| |[] mb eb],
           c as [[]|[]| |[] mc ec];
    try easy; intros; split_compare; subst; try easy; try lia.
Qed.

Lemma leb_finite_between lo v hi :
  is_finite lo = true -> is_finite hi = true ->
  leb lo v = true -> leb v hi = true -> is_finite v = true.
Proof.
  destruct lo as [[]|[]| |[] ml el], hi as [[]|[]| |[] mh eh],
           v as [[]|[]| |[] mv ev]; try easy.
Qed.

Lemma is_finite_not_nan x : is_finite x = true -> is_nan x = false.
Proof. destruct x; simpl; congruence. Qed.

Lemma ltb_zero_shape x :
  ltb zero x = true ->
  (exists m e, x = S754_finite false m e) \/ x = S754_infinity false.
Proof. destruct x as [[]|[]| |[] m e]; try discriminate; eauto. Qed.

(** [std::clamp] on doubles. *)
Lemma clamp_id v lo hi :
  leb lo v = true -> leb v hi = true -> clamp v lo hi = v.
Proof.
  intros H1 H2. unfold clamp.
  rewrite (leb_ltb_false _ _ H1), (leb_ltb_false _ _ H2). reflexivity.
Qed.

Lemma clamp_in_range v lo hi :
  is_nan v = false -> leb lo hi = true ->
  leb lo (clamp v lo hi) = true /\ leb (clamp v lo hi) hi = true.
Proof.
  intros Hv Hlh. destruct (leb_not_nan _ _ Hlh) as [Hlo Hhi]. unfold clamp.
  destruct (ltb v lo) eqn:H1.
  - split; [apply leb_refl, Hlo|exact Hlh].
  - destruct (ltb hi v) eqn:H2.
    + split; [exact Hlh|apply leb_refl, Hhi].
    + split; apply ltb_false_leb; assumption.
Qed.

Lemma clamp_idem v lo hi :
  leb lo hi = true -> clamp (clamp v lo hi) lo hi = clamp v lo hi.
Proof.
  intros Hlh. unfold clamp.
  destruct (ltb v lo) eqn:H1; [|destruct (ltb hi v) eqn:H2].
  - rewrite ltb_irrefl, (leb_ltb_false _ _ Hlh). reflexivity.
  - rewrite (leb_ltb_false _ _ Hlh), ltb_irrefl. reflexivity.
  - rewrite H1, H2. reflexivity.
Qed.

Lemma clamp_unit v :
  is_nan v = false ->
  leb zero (clamp v zero one) = true /\ leb (clamp v zero one) one = true.
Proof. intros Hv. apply (clamp_in_range v zero one Hv). reflexivity. Qed.

Lemma int_clamp_id v lo hi : lo <= v <= hi -> Int.clamp v lo hi = v.
Proof.
  intros H. unfold Int.clamp.
  destruct (Z.ltb_spec v lo); [lia|]. destruct (Z.ltb_spec hi v); [lia|reflexivity].
Qed.

Lemma int_clamp_idem v lo hi :
  lo <= hi -> Int.clamp (Int.clamp v lo hi) lo hi = Int.clamp v lo hi.
Proof. intros H. apply int_clamp_id, IntFacts.clamp_bounds, H. Qed.

Lemma wrap_range z : Int.INT_MIN <= Int.wrap z <= Int.INT_MAX.
Proof.
  unfold Int.wrap, Int.INT_MIN, Int.INT_MAX.
  pose proof (Z.mod_pos_bound (z + 2 ^ 31) (2 ^ 32) ltac:(lia)). lia.
Qed.

Lemma wrap_le_nonneg z : 0 <= z -> Int.wrap z <= z.
Proof.
  intros Hz. unfold Int.wrap.
  pose proof (Z.mod_le (z + 2 ^ 31) (2 ^ 32) ltac:(lia) ltac:(lia)). lia.
Qed.

Lemma sub_finite_l_not_nan a b :
  is_finite a = true -> is_nan b = false -> is_nan (sub a b) = false.
Proof.
  destruct a as [[]|[]| |sa ma ea], b as [[]|[]| |sb mb eb];
    unfold sub, SFsub, is_finite, is_nan; intros Ha Hb;
    try discriminate; try reflexivity.
  apply binary_normalize_not_nan.
Qed.

Lemma of_Z_neg z :
  Int.INT_MIN <= z < 0 -> exists p e, of_Z z = S754_finite true p e.
Proof.
  intros Hz. destruct z as [|q|q]; try lia. unfold of_Z. cbn [binary_normalize].
  assert (Hd : Zdigits2 (Z.pos q) <= 32).
  { apply Zdigits2_le; [|lia]. unfold Int.INT_MIN in Hz. lia. }
  assert (Hd1 : 1 <= Zdigits2 (Z.pos q)) by (simpl; lia).
  destruct (binary_round_nonzero true q 0) as [H|H]; [lia|exact H|].
  exfalso.
  destruct (binary_round_BRA true q 0) as (mz & ez & Heq & HP & Hmag).
  destruct (BRA_spec true (Z.pos mz) ez loc_Exact) as (m & e & Hpack & Hcase);
    [lia|exact HP|].
  rewrite Heq, Hpack in H. unfold pack in H.
  assert (He : e <= 971) by (rewrite fexp_eq in Hcase; lia).
  destruct m; try discriminate.
  destruct (Z.leb_spec e 971); [discriminate|lia].
Qed.

Lemma of_Z_int_finite z :
  Int.INT_MIN <= z <= Int.INT_MAX -> z <> 0 ->
  exists s p e, of_Z z = S754_finite s p e.
Proof.
  intros Hz Hne. destruct (Z.lt_trichotomy z 0) as [Hlt|[->|Hgt]]; [|lia|].
  - destruct (of_Z_neg z) as (p & e & ->); [lia|]. eauto.
  - destruct (of_Z_pos z) as (p & e & ->); [lia|]. eauto.
Qed.

Lemma div_not_nan a s p e :
  nonneg a = true -> is_nan (div a (S754_finite s p e)) = false.
Proof.
  destruct a as [[]|[]| |[] ma ea]; unfold div, SFdiv; intros Ha;
    try discriminate; try reflexivity.
  destruct (div_core_spec ma ea p e) as (q & e' & l & -> & Hq & HP).
  destruct (BRA_shape (xorb false s) q e' l Hq) as (m & e0 & -> & Hm).
  apply pack_not_nan, Hm.
Qed.

Lemma lit_half : lit 5 10 = half.
Proof. vm_compute. reflexivity. Qed.

Lemma pack_true_not_pos m e : 0 <= m -> ltb zero (pack true m e) = false.
Proof.
  intros Hm. unfold pack. destruct m; [reflexivity| |lia].
  destruct (e <=? 971); reflexivity.
Qed.

End OrderFacts.

(** ** Clamping and the steps of the controller *)

Module StepFacts.

Import Double DoubleFacts RoundingSpec RoundingFacts OrderFacts.
Import mcik_ctrl ControllerSpec StepSpec.

Lemma in_domain_fields p :
  in_domain p = true ->
  (leb (lit 25 100) (resolution_scale p) = true /\ leb (resolution_scale p) one = true) /\
  1 <= samples_per_pixel p <= 4 /\
  (leb (lit 5 10) (gamma p) = true /\ leb (gamma p) (of_Z 3) = true) /\
  (leb zero (normal_smooth p) = true /\ leb (normal_smooth p) one = true) /\
  8 <= ramp_size p <= 16.
Proof.
  unfold in_domain. rewrite !andb_true_iff, !Z.leb_le. tauto.
Qed.

Lemma in_domain_intro p :
  (leb (lit 25 100) (resolution_scale p) = true /\ leb (resolution_scale p) one = true) ->
  1 <= samples_per_pixel p <= 4 ->
  (leb (lit 5 10) (gamma p) = true /\ leb (gamma p) (of_Z 3) = true) ->
  (leb zero (normal_smooth p) = true /\ leb (normal_smooth p) one = true) ->
  8 <= ramp_size p <= 16 -> in_domain p = true.
Proof.
  unfold in_domain. rewrite !andb_true_iff, !Z.leb_le. tauto.
Qed.

(** X1: [clamp_params] leaves a vector of the domain as it is. *)
Theorem clamp_params_in_domain_id (p : ParamVector) :
  in_domain p = true -> clamp_params p = p.
Proof.
  intros H. apply in_domain_fields in H.
  destruct H as ([? ?] & ? & [? ?] & [? ?] & ?).
  destruct p as [rs spp g ns rz]. unfold clamp_params. simpl in *.
  rewrite !clamp_id, !int_clamp_id by assumption. reflexivity.
Qed.

Lemma clamp_params_in_domain_id_witness : clamp_params p_default = p_default.
Proof.
  apply (clamp_params_in_domain_id p_default). vm_compute. reflexivity.
Defined.

Lemma clamp_params_nan_free p : nan_free p -> in_domain (clamp_params p) = true.
Proof.
  intros (H1 & H2 & H3). apply in_domain_intro; unfold clamp_params; simpl.
  - apply clamp_in_range; [exact H1|reflexivity].
  - apply IntFacts.clamp_bounds. lia.
  - apply clamp_in_range; [exact H2|reflexivity].
  - apply clamp_in_range; [exact H3|reflexivity].
  - apply IntFacts.clamp_bounds. lia.
Qed.

(** X2: when none of its three double fields is NaN, [clamp_params] maps a
    vector, however far outside, into the domain of every field. *)
Theorem clamp_params_lands_in_domain (p : ParamVector) :
  is_nan (resolution_scale p) = false -> is_nan (gamma p) = false ->
  is_nan (normal_smooth p) = false ->
  in_domain (clamp_params p) = true.
Proof. intros H1 H2 H3. apply clamp_params_nan_free. repeat split; assumption. Qed.

Lemma clamp_params_lands_in_domain_witness :
  in_domain p_wild = false /\ in_domain (clamp_params p_wild) = true.
Proof.
  split; [vm_compute; reflexivity|].
  apply (clamp_params_lands_in_domain p_wild); reflexivity.
Defined.

(** X3: clamping twice is clamping once, for every vector (NaN fields
    included). *)
Theorem clamp_params_idempotent (p : ParamVector) :
  clamp_params (clamp_params p) = clamp_params p.
Proof.
  unfold clamp_params. simpl.
  rewrite !clamp_idem by reflexivity. rewrite !int_clamp_idem by lia. reflexivity.
Qed.

Section KStep.

Variable evaluate : ParamVector -> double.
Variable d : ProbeDeltas.

(** After a run of [try_update] the incumbent is the old one, or a clamped
    probe of the run that scores strictly higher. *)
Lemma fold_try_update_form probes : forall best,
  fold_left (try_update evaluate) probes best = best \/
  exists q, In q probes /\
    fold_left (try_update evaluate) probes best
      = mkCand (clamp_params q) (evaluate (clamp_params q)) "K" /\
    ltb (cand_score best) (evaluate (clamp_params q)) = true.
Proof.
  induction probes as [|q probes IH]; intros best; simpl; [now left|].
  destruct (IH (try_update evaluate best q)) as [Heq|(q' & Hin & Heq & Hlt)].
  - rewrite Heq. unfold try_update, gtb.
    destruct (ltb (cand_score best) (evaluate (clamp_params q))) eqn:Hlt;
      [right|now left].
    exists q. split; [now left|]. split; [reflexivity|exact Hlt].
  - right. exists q'. split; [now right|]. split; [exact Heq|].
    revert Hlt. unfold try_update, gtb.
    destruct (ltb (cand_score best) (evaluate (clamp_params q))) eqn:Hlt0;
      simpl; intros Hlt; [|exact Hlt].
    exact (ltb_trans _ _ _ Hlt0 Hlt).
Qed.

(** X4: the K step always tags its suggestion "K"; it returns its input or
    a clamped probe that scores strictly higher than the input; and when no
    clamped probe scores strictly higher, it returns the input (ties keep
    the incumbent). *)
Theorem K_step_form (current : ParamVector) :
  mode (suggest_step_K evaluate d current) = "K"%string /\
  (next (suggest_step_K evaluate d current) = current \/
   exists q, In q (K_probes d current) /\
     next (suggest_step_K evaluate d current) = clamp_params q /\
     gtb (evaluate (clamp_params q)) (evaluate current) = true) /\
  ((forall q, In q (K_probes d current) ->
      gtb (evaluate (clamp_params q)) (evaluate current) = false) ->
   next (suggest_step_K evaluate d current) = current).
Proof.
  unfold suggest_step_K, K_best. cbn [next mode].
  destruct (fold_try_update_form (K_probes d current)
              (mkCand current (evaluate current) "K"))
    as [Heq|(q & Hin & Heq & Hlt)]; rewrite Heq; cbn [cand_p cand_mode].
  - split; [reflexivity|]. split; [now left|]. intros _. reflexivity.
  - split; [reflexivity|]. split.
    + right. exists q. repeat split; assumption.
    + intros Hno. specialize (Hno q Hin). unfold gtb in Hno.
      cbn [cand_score] in Hlt. congruence.
Qed.

Lemma try_update_cases best q :
  (ltb (cand_score best) (evaluate (clamp_params q)) = true /\
   try_update evaluate best q
     = mkCand (clamp_params q) (evaluate (clamp_params q)) "K") \/
  (ltb (cand_score best) (evaluate (clamp_params q)) = false /\
   try_update evaluate best q = best).
Proof.
  unfold try_update, gtb.
  destruct (ltb (cand_score best) (evaluate (clamp_params q))); auto.
Qed.

(** With scores that are never NaN, a run of [try_update] ends on a
    maximum: the incumbent's score is at least the old one's and at least
    that of every probe, and every probe before the one it took scores
    strictly less. *)
Lemma fold_try_update_max probes : forall best,
  is_nan (cand_score best) = false ->
  (forall q, In q probes -> is_nan (evaluate (clamp_params q)) = false) ->
  let r := fold_left (try_update evaluate) probes best in
  leb (cand_score best) (cand_score r) = true /\
  (forall q, In q probes -> leb (evaluate (clamp_params q)) (cand_score r) = true) /\
  (r = best \/
   exists l1 q l2, probes = l1 ++ q :: l2 /\
     r = mkCand (clamp_params q) (evaluate (clamp_params q)) "K" /\
     ltb (cand_score best) (evaluate (clamp_params q)) = true /\
     forall q', In q' l1 ->
       ltb (evaluate (clamp_params q')) (evaluate (clamp_params q)) = true).
Proof.
  induction probes as [|q probes IH]; intros best Hb Hn; cbv zeta;
    cbn [fold_left].
  - split; [apply leb_refl, Hb|]. split; [intros q []|now left].
  - assert (Hq : is_nan (evaluate (clamp_params q)) = false) by (apply Hn; now left).
    assert (Hn' : forall q0, In q0 probes -> is_nan (evaluate (clamp_params q0)) = false)
      by (intros q0 H0; apply Hn; now right).
    destruct (try_update_cases best q) as [[Hlt Heq]|[Hlt Heq]]; rewrite Heq.
    + (* the probe takes over *)
      destruct (IH (mkCand (clamp_params q) (evaluate (clamp_params q)) "K") Hq Hn')
        as (Hle & Hall & Hform). cbn [cand_score] in Hle.
      split; [eapply leb_trans; [apply ltb_leb, Hlt|exact Hle]|].
      split.
      * intros q0 [<-|H0]; [exact Hle|apply Hall, H0].
      * right. destruct Hform as [Heq1|(l1 & q1 & l2 & Hsplit & Heq1 & Hlt1 & Hbefore)].
        -- exists [], q, probes. split; [reflexivity|]. split; [exact Heq1|].
           split; [exact Hlt|intros q' []].
        -- exists (q :: l1), q1, l2. split; [rewrite Hsplit; reflexivity|].
           split; [exact Heq1|]. cbn [cand_score] in Hlt1.
           split; [exact (ltb_trans _ _ _ Hlt Hlt1)|].
           intros q' [<-|H']; [exact Hlt1|apply Hbefore, H'].
    + (* the incumbent stays *)
      destruct (IH best Hb Hn') as (Hle & Hall & Hform).
      split; [exact Hle|]. split.
      * intros q0 [<-|H0]; [|apply Hall, H0].
        eapply leb_trans; [|exact Hle]. apply ltb_false_leb; assumption.
      * destruct Hform as [Heq1|(l1 & q1 & l2 & Hsplit & Heq1 & Hlt1 & Hbefore)];
          [now left|right].
        exists (q :: l1), q1, l2. split; [rewrite Hsplit; reflexivity|].
        split; [exact Heq1|]. split; [exact Hlt1|].
        intros q' [<-|H']; [|apply Hbefore, H'].
        (* q <= best < q1 *)
        assert (Hqb : leb (evaluate (clamp_params q)) (cand_score best) = true)
          by (apply ltb_false_leb; assumption).
        exact (leb_ltb_trans _ _ _ Hqb Hlt1).
Qed.

(** X5: when the score is NaN neither at the input nor at a clamped probe,
    the K step returns a best candidate: its score is at least that of every
    clamped probe, and when it is a probe, every probe tried before it
    scores strictly less (the first of the best wins). *)
Theorem K_step_argmax (current : ParamVector) :
  is_nan (evaluate current) = false ->
  (forall q, In q (K_probes d current) ->
     is_nan (evaluate (clamp_params q)) = false) ->
  (forall q, In q (K_probes d current) ->
     leb (evaluate (clamp_params q))
         (evaluate (next (suggest_step_K evaluate d current))) = true) /\
  (next (suggest_step_K evaluate d current) = current \/
   exists l1 q l2,
     K_probes d current = l1 ++ q :: l2 /\
     next (suggest_step_K evaluate d current) = clamp_params q /\
     forall q', In q' l1 ->
       ltb (evaluate (clamp_params q'))
           (evaluate (next (suggest_step_K evaluate d current))) = true).
Proof.
  intros Hc Hn. unfold suggest_step_K, K_best. cbn [next].
  destruct (fold_try_update_max (K_probes d current)
              (mkCand current (evaluate current) "K") Hc Hn)
    as (_ & Hall & Hform).
  destruct Hform as [Heq|(l1 & q & l2 & Hsplit & Heq & _ & Hbefore)];
    rewrite Heq in *; cbn [cand_p cand_score] in *.
  - split; [exact Hall|now left].
  - split; [exact Hall|]. right. exists l1, q, l2. auto.
Qed.

Lemma try_pair_cases current bestScore best a b :
  (gtb (pair_synergy evaluate current a b) zero = true /\
   ltb bestScore (evaluate (pair_candidate current a b)) = true /\
   try_pair evaluate current (bestScore, best) (a, b)
     = (evaluate (pair_candidate current a b),
        mkStepSuggestion (pair_candidate current a b) "K+H")) \/
  ((gtb (pair_synergy evaluate current a b) zero = false \/
    ltb bestScore (evaluate (pair_candidate current a b)) = false) /\
   try_pair evaluate current (bestScore, best) (a, b) = (bestScore, best)).
Proof.
  unfold try_pair, pair_synergy, pair_candidate, gtb. cbv zeta.
  destruct (ltb zero _) eqn:Hs;
    destruct (ltb bestScore _) eqn:Hl; cbn [andb]; auto.
Qed.

Lemma fold_try_pair_form current pairs : forall st,
  fold_left (try_pair evaluate current) pairs st = st \/
  exists a b, In (a, b) pairs /\
    fold_left (try_pair evaluate current) pairs st
      = (evaluate (pair_candidate current a b),
         mkStepSuggestion (pair_candidate current a b) "K+H") /\
    gtb (pair_synergy evaluate current a b) zero = true /\
    ltb (fst st) (evaluate (pair_candidate current a b)) = true.
Proof.
  induction pairs as [|[a b] pairs IH]; intros [bestScore best];
    cbn [fold_left]; [now left|].
  destruct (try_pair_cases current bestScore best a b)
    as [(Hs & Hl & Heq)|(_ & Heq)]; rewrite Heq.
  - destruct (IH (evaluate (pair_candidate current a b),
                  mkStepSuggestion (pair_candidate current a b) "K+H"))
      as [Heq'|(a' & b' & Hin & Heq' & Hs' & Hl')]; right.
    + exists a, b. split; [now left|]. auto.
    + exists a', b'. split; [now right|]. split; [exact Heq'|].
      split; [exact Hs'|]. cbn [fst] in *. exact (ltb_trans _ _ _ Hl Hl').
  - destruct (IH (bestScore, best)) as [Heq'|(a' & b' & Hin & Heq' & Hs' & Hl')];
      [now left|right].
    exists a', b'. split; [now right|]. auto.
Qed.

(** X6: the K+H step returns the suggestion of the K step unchanged, or a
    pair candidate tagged "K+H" whose synergy is positive and whose score is
    strictly higher than that of the K step's vector; when no pair has a
    positive synergy it returns the K step's suggestion. *)
Theorem KH_step_form (current : ParamVector) :
  (suggest_step_KH evaluate d current = suggest_step_K evaluate d current \/
   (mode (suggest_step_KH evaluate d current) = "K+H"%string /\
    exists a b, In (a, b) (KH_pairs d) /\
      next (suggest_step_KH evaluate d current) = pair_candidate current a b /\
      gtb (pair_synergy evaluate current a b) zero = true /\
      gtb (evaluate (next (suggest_step_KH evaluate d current)))
          (evaluate (next (suggest_step_K evaluate d current))) = true)) /\
  ((forall a b, In (a, b) (KH_pairs d) ->
      gtb (pair_synergy evaluate current a b) zero = false) ->
   suggest_step_KH evaluate d current = suggest_step_K evaluate d current).
Proof.
  unfold suggest_step_KH. cbv zeta.
  set (rK := suggest_step_K evaluate d current).
  destruct (fold_try_pair_form current (KH_pairs d) (evaluate (next rK), rK))
    as [Heq|(a & b & Hin & Heq & Hs & Hl)]; rewrite Heq; cbn [snd fst] in *.
  - split; [now left|]. intros _. reflexivity.
  - split.
    + right. cbn [mode next]. split; [reflexivity|]. exists a, b. auto.
    + intros Hno. rewrite (Hno a b Hin) in Hs. discriminate.
Qed.

End KStep.

Lemma K_step_argmax_witness :
  (forall q, In q (K_probes default_deltas p_default) ->
     leb (score_by_ramp (clamp_params q))
         (score_by_ramp
            (next (suggest_step_K score_by_ramp default_deltas p_default)))
     = true) /\
  (next (suggest_step_K score_by_ramp default_deltas p_default) = p_default \/
   exists l1 q l2,
     K_probes default_deltas p_default = l1 ++ q :: l2 /\
     next (suggest_step_K score_by_ramp default_deltas p_default)
       = clamp_params q /\
     forall q', In q' l1 ->
       ltb (score_by_ramp (clamp_params q'))
           (score_by_ramp
              (next (suggest_step_K score_by_ramp default_deltas p_default)))
       = true).
Proof.
  apply (K_step_argmax score_by_ramp default_deltas p_default).
  - vm_compute. reflexivity.
  - intros q _. apply binary_normalize_not_nan.
Defined.

Lemma in_domain_finite p :
  in_domain p = true ->
  is_finite (resolution_scale p) = true /\ is_finite (gamma p) = true /\
  is_finite (normal_smooth p) = true.
Proof.
  intros H. apply in_domain_fields in H.
  destruct H as ([H1 H2] & _ & [H3 H4] & [H5 H6] & _).
  repeat split; eapply leb_finite_between; try eassumption; reflexivity.
Qed.

Lemma default_update_nan_free f p :
  In f default_updates -> in_domain p = true -> nan_free (f p).
Proof.
  intros Hf Hp. destruct (in_domain_finite p Hp) as (H1 & H2 & H3).
  pose proof (is_finite_not_nan _ H1). pose proof (is_finite_not_nan _ H2).
  pose proof (is_finite_not_nan _ H3).
  unfold default_updates in Hf. cbn [In] in Hf.
  repeat (destruct Hf as [<-|Hf]);
    try (unfold nan_free; cbn [with_scale with_spp with_gamma with_ns with_ramp
           resolution_scale gamma normal_smooth];
         repeat split; try assumption;
         first [apply add_finite_not_nan | apply sub_finite_l_not_nan];
         solve [assumption | reflexivity]).
  destruct Hf.
Qed.

Lemma default_update_in_domain f p :
  In f default_updates -> in_domain p = true ->
  in_domain (clamp_params (f p)) = true.
Proof. intros Hf Hp. apply clamp_params_nan_free, default_update_nan_free; assumption. Qed.

Lemma K_probes_default p q :
  In q (K_probes default_deltas p) -> exists f, In f default_updates /\ q = f p.
Proof.
  unfold K_probes. cbn [In]. intros Hq.
  repeat (destruct Hq as [<-|Hq];
          [eexists; split; [|reflexivity]; unfold default_updates; cbn [In]; tauto|]).
  destruct Hq.
Qed.

Lemma KH_pairs_default a b :
  In (a, b) (KH_pairs default_deltas) ->
  In a default_updates /\ In b default_updates.
Proof.
  unfold KH_pairs. cbn [In]. intros Hq.
  repeat (destruct Hq as [[= <- <-]|Hq];
          [unfold default_updates; cbn [In]; tauto|]).
  destruct Hq.
Qed.

(** X7: a step of the controller, in either mode and with any scoring
    function, keeps a vector of the domain in the domain. *)
Theorem suggest_step_keeps_domain
    (evaluate : ParamVector -> double) (current : ParamVector) (useH : bool) :
  in_domain current = true ->
  in_domain (next (suggest_step evaluate default_deltas current useH)) = true.
Proof.
  intros Hp.
  assert (HK : in_domain (next (suggest_step_K evaluate default_deltas current)) = true).
  { unfold suggest_step_K, K_best. cbn [next].
    destruct (fold_try_update_form evaluate (K_probes default_deltas current)
                (mkCand current (evaluate current) "K"))
      as [Heq|(q & Hin & Heq & _)]; rewrite Heq; cbn [cand_p]; [exact Hp|].
    destruct (K_probes_default _ _ Hin) as (f & Hf & ->).
    apply default_update_in_domain; assumption. }
  destruct useH; cbn [suggest_step]; [|exact HK].
  unfold suggest_step_KH. cbv zeta.
  destruct (fold_try_pair_form evaluate current (KH_pairs default_deltas)
              (evaluate (next (suggest_step_K evaluate default_deltas current)),
               suggest_step_K evaluate default_deltas current))
    as [Heq|(a & b & Hin & Heq & _)]; rewrite Heq; cbn [snd next]; [exact HK|].
  destruct (KH_pairs_default _ _ Hin) as [Ha Hb].
  unfold pair_candidate. apply default_update_in_domain; [exact Hb|].
  apply default_update_in_domain; assumption.
Qed.

Lemma suggest_step_keeps_domain_witness :
  in_domain (next (suggest_step score_by_ramp default_deltas p_default true))
  = true.
Proof.
  apply (suggest_step_keeps_domain score_by_ramp p_default true).
  vm_compute. reflexivity.
Defined.

End StepFacts.

(** ** Densities, quality and similarity *)

Module DensityFacts.

Import Double DoubleFacts RoundingSpec RoundingFacts OrderFacts IntFacts LoopFacts.
Import torus_metrics MetricsSpec.

(** Every glyph has a finite density of the unit interval. *)
Lemma char_density_good c :
  is_finite (char_density c) = true /\ nonneg (char_density c) = true /\
  leb (char_density c) one = true /\
  sub (char_density c) (char_density c) = zero.
Proof. destruct c; vm_compute; repeat split; reflexivity. Qed.

(** X8: the density of every glyph is a finite number of [[0, 1]]; along the
    reference ramp it is the rank over nine, from 0 at the blank to 1 at
    ['@']. *)
Theorem char_density_range (c : byte) :
  is_finite (char_density c) = true /\
  leb zero (char_density c) = true /\ leb (char_density c) one = true /\
  (forall i, density_ramp !! i = Some c ->
     char_density c = div (of_Z (Z.of_nat i)) (of_Z 9)) /\
  char_density " "%byte = zero /\ char_density "@"%byte = one.
Proof.
  destruct (char_density_good c) as (Hf & Hn & Hle & _).
  split; [exact Hf|]. split; [apply nonneg_leb_zero, Hn|]. split; [exact Hle|].
  split; [|split; vm_compute; reflexivity].
  intros i Hi. unfold density_ramp in Hi.
  do 10 (destruct i as [|i]; [injection Hi as <-; vm_compute; reflexivity|]).
  discriminate.
Qed.

Lemma gradient_nonneg b1 b2 b3 b4 :
  nonneg (sqrt (add
    (mul (mul (lit 5 10) (sub (char_density b2) (char_density b1)))
         (mul (lit 5 10) (sub (char_density b2) (char_density b1))))
    (mul (mul (lit 5 10) (sub (char_density b4) (char_density b3)))
         (mul (lit 5 10) (sub (char_density b4) (char_density b3)))))) = true.
Proof.
  assert (H : forall a b, is_nan (mul (lit 5 10)
                 (sub (char_density a) (char_density b))) = false).
  { intros a b. rewrite lit_half.
    apply mul_finite_not_nan;
      [reflexivity|intros Hh; discriminate Hh|intros Hh; discriminate Hh|].
    apply sub_finite_not_nan; apply char_density_good. }
  apply sqrt_nonneg, add_nonneg; apply mul_self_nonneg, H.
Qed.

Lemma quality_cell_inv buf w y st x st' :
  quality_inv st -> quality_cell buf w y st x = Some st' -> quality_inv st'.
Proof.
  destruct st as [acc cnt]. intros [Ha Hc]. unfold quality_cell.
  cbv beta iota delta [mbind option_bind].
  destruct (get buf (Int.sub _ 1)) as [b1|]; [|discriminate].
  destruct (get buf (Int.add _ 1)) as [b2|]; [|discriminate].
  destruct (get buf (Int.sub _ w)) as [b3|]; [|discriminate].
  destruct (get buf (Int.add _ w)) as [b4|]; [|discriminate].
  intros H.
  pose proof (f_equal (fun o => match o with Some v => v | None => st' end) H)
    as H1.
  cbv beta iota in H1. subst st'. split; cbn [fst snd].
  - apply add_nonneg; [exact Ha|apply gradient_nonneg].
  - apply wrap_range.
Qed.

Lemma quality_loops_inv buf w ys st st' :
  quality_inv st -> foldlM (quality_row buf w) ys st = Some st' -> quality_inv st'.
Proof.
  intros Hst Hrun.
  apply (foldlM_invariant quality_inv (quality_row buf w) ys) with (s := st);
    [|exact Hst|exact Hrun].
  intros s y s' _ Hs Hrow. unfold quality_row in Hrow.
  apply (foldlM_invariant quality_inv (quality_cell buf w y)
           (int_range 1 (Int.sub w 1))) with (s := s); [|exact Hs|exact Hrow].
  intros s0 x s0' _ Hs0 Hcell. exact (quality_cell_inv _ _ _ _ _ _ Hs0 Hcell).
Qed.

(** X9: whatever the buffer, a value returned by [estimate_ascii_quality]
    lies in [[0, 1]]. *)
Theorem quality_in_unit_interval (buf : list byte) (w h : Z) (q : double) :
  estimate_ascii_quality buf w h = Some q ->
  leb zero q = true /\ leb q one = true.
Proof.
  unfold estimate_ascii_quality.
  destruct ((w <? 3) || (h <? 3)); [intros [= <-]; split; reflexivity|].
  destruct (foldlM (quality_row buf w) (int_range 1 (Int.sub h 1)) (zero, 0))
    as [[acc cnt]|] eqn:Hrun; cbv beta iota delta [mbind option_bind]; [|discriminate].
  assert (Hinit : quality_inv (zero, 0)).
  { split; [reflexivity|]. cbn [snd]. unfold Int.INT_MIN, Int.INT_MAX. lia. }
  destruct (quality_loops_inv buf w _ _ _ Hinit Hrun) as [Ha Hc].
  cbn [fst snd] in Ha, Hc.
  destruct (Z.eqb_spec cnt 0) as [_|Hne]; [intros [= <-]; split; reflexivity|].
  intros [= <-]. apply clamp_unit.
  destruct (of_Z_int_finite cnt Hc Hne) as (s & p & e & ->).
  apply div_not_nan, Ha.
Qed.

Lemma quality_in_unit_interval_witness :
  leb zero demo_quality = true /\ leb demo_quality one = true.
Proof.
  apply (quality_in_unit_interval demo_buf 4 3 demo_quality).
  vm_compute. reflexivity.
Defined.

Lemma get_replicate {A : Type} n (c b : A) i :
  get (replicate n c) i = Some b -> b = c.
Proof.
  intros H. apply get_Some in H. destruct H as [_ H].
  apply lookup_replicate in H. apply H.
Qed.

Lemma quality_cell_uniform n c w y cnt x st' :
  quality_cell (replicate n c) w y (zero, cnt) x = Some st' ->
  st' = (zero, Int.add cnt 1).
Proof.
  unfold quality_cell. cbv beta iota delta [mbind option_bind].
  destruct (get _ (Int.sub _ 1)) as [b1|] eqn:H1; [|discriminate].
  destruct (get _ (Int.add _ 1)) as [b2|] eqn:H2; [|discriminate].
  destruct (get _ (Int.sub _ w)) as [b3|] eqn:H3; [|discriminate].
  destruct (get _ (Int.add _ w)) as [b4|] eqn:H4; [|discriminate].
  apply get_replicate in H1, H2, H3, H4. subst b1 b2 b3 b4.
  destruct (char_density_good c) as (_ & _ & _ & ->).
  intros H.
  pose proof (f_equal (fun o => match o with Some v => v | None => st' end) H)
    as H'.
  cbv beta iota in H'. subst st'. reflexivity.
Qed.

Lemma quality_row_uniform n c w y xs : forall cnt st',
  foldlM (quality_cell (replicate n c) w y) xs (zero, cnt) = Some st' ->
  0 <= cnt -> cnt + Z.of_nat (length xs) <= Int.INT_MAX ->
  st' = (zero, cnt + Z.of_nat (length xs)).
Proof.
  induction xs as [|x xs IH]; intros cnt st' Hrun Hc Hmax; cbn [foldlM] in Hrun.
  - injection Hrun as <-. cbn [length]. f_equal. lia.
  - destruct (quality_cell _ w y (zero, cnt) x) as [st1|] eqn:Hcell;
      [|discriminate].
    apply quality_cell_uniform in Hcell. subst st1.
    cbv beta iota delta [mbind option_bind] in Hrun.
    cbn [length] in Hmax.
    rewrite add_small in Hrun by (unfold Int.INT_MIN, Int.INT_MAX in *; lia).
    apply IH in Hrun; [|lia|lia]. rewrite Hrun. cbn [length]. f_equal. lia.
Qed.

Lemma quality_rows_uniform n c w ys : forall cnt st',
  foldlM (quality_row (replicate n c) w) ys (zero, cnt) = Some st' ->
  0 <= cnt ->
  cnt + Z.of_nat (length ys) * Z.of_nat (length (int_range 1 (Int.sub w 1)))
    <= Int.INT_MAX ->
  st' = (zero, cnt + Z.of_nat (length ys)
                     * Z.of_nat (length (int_range 1 (Int.sub w 1)))).
Proof.
  induction ys as [|y ys IH]; intros cnt st' Hrun Hc Hmax; cbn [foldlM] in Hrun.
  - injection Hrun as <-. cbn [length]. f_equal. lia.
  - destruct (quality_row _ w (zero, cnt) y) as [st1|] eqn:Hrow;
      [|discriminate].
    cbn [length] in Hmax.
    apply quality_row_uniform in Hrow; [|lia|nia]. subst st1.
    cbv beta iota delta [mbind option_bind] in Hrun.
    apply IH in Hrun; [|lia|nia]. rewrite Hrun. cbn [length]. f_equal. nia.
Qed.

Lemma int_range_length lo hi : lo <= hi -> Z.of_nat (length (int_range lo hi)) = hi - lo.
Proof. intros H. unfold int_range. rewrite length_map, length_seq. lia. Qed.

(** X10: a buffer of [w * h] copies of one glyph has quality exactly 0:
    without an edge there is no gradient. *)
Theorem quality_uniform_zero (c : byte) (w h : Z) :
  3 <= w -> 3 <= h -> w * h <= Int.INT_MAX ->
  estimate_ascii_quality (replicate (Z.to_nat (w * h)) c) w h = Some zero.
Proof.
  intros Hw Hh Hmax.
  assert (Hlen : Z.of_nat (length (replicate (Z.to_nat (w * h)) c)) = w * h)
    by (rewrite length_replicate; nia).
  unfold estimate_ascii_quality.
  destruct (Z.ltb_spec w 3); [lia|]. destruct (Z.ltb_spec h 3); [lia|].
  cbn [orb].
  destruct (MetricsFacts.quality_loops_is_Some _ w h (zero, 0) Hw Hh Hmax Hlen)
    as [st Hrun]. rewrite Hrun.
  assert (Hw1 : Int.sub w 1 = w - 1)
    by (apply sub_small; unfold Int.INT_MIN, Int.INT_MAX in *; nia).
  assert (Hh1 : Int.sub h 1 = h - 1)
    by (apply sub_small; unfold Int.INT_MIN, Int.INT_MAX in *; nia).
  assert (Hrows : Z.of_nat (length (int_range 1 (Int.sub h 1))) = h - 2)
    by (rewrite Hh1, int_range_length; lia).
  assert (Hcols : Z.of_nat (length (int_range 1 (Int.sub w 1))) = w - 2)
    by (rewrite Hw1, int_range_length; lia).
  apply quality_rows_uniform in Hrun; [|lia|rewrite Hrows, Hcols; nia].
  subst st. rewrite Hrows, Hcols.
  cbv beta iota delta [mbind option_bind].
  destruct (Z.eqb_spec (0 + (h - 2) * (w - 2)) 0) as [|_]; [reflexivity|].
  destruct (of_Z_pos (0 + (h - 2) * (w - 2))) as (p & e & ->);
    [unfold Int.INT_MAX in *; nia|].
  reflexivity.
Qed.

Lemma quality_uniform_zero_witness :
  estimate_ascii_quality (replicate (Z.to_nat (4 * 3)) "#"%byte) 4 3
  = Some zero.
Proof.
  apply (quality_uniform_zero "#"%byte 4 3); [lia|lia|unfold Int.INT_MAX; lia].
Defined.

Lemma similarity_cell_is_Some buf ref acc i :
  length buf = length ref -> 0 <= i < Z.of_nat (length buf) ->
  exists b c, get buf i = Some b /\ get ref i = Some c /\
    similarity_cell buf ref acc i
      = Some (add acc (mul (sub (char_density b) (char_density c))
                           (sub (char_density b) (char_density c)))).
Proof.
  intros Hlen Hi.
  destruct (get_is_Some buf i Hi) as [b Hb].
  destruct (get_is_Some ref i ltac:(rewrite <- Hlen; exact Hi)) as [c Hc].
  exists b, c. split; [exact Hb|]. split; [exact Hc|].
  unfold similarity_cell. rewrite Hb, Hc. reflexivity.
Qed.

(** The loop of [estimate_ascii_similarity] never reads outside the two
    buffers, and its sum of squares is non-negative. *)
Lemma similarity_loop buf ref idxs :
  length buf = length ref ->
  (forall i, In i idxs -> 0 <= i < Z.of_nat (length buf)) ->
  forall acc, nonneg acc = true ->
  exists acc', foldlM (similarity_cell buf ref) idxs acc = Some acc'
               /\ nonneg acc' = true.
Proof.
  intros Hlen. induction idxs as [|i idxs IH]; intros His acc Hacc; cbn [foldlM].
  - eauto.
  - destruct (similarity_cell_is_Some buf ref acc i Hlen) as (b & c & _ & _ & ->);
      [apply His; now left|].
    cbv beta iota delta [mbind option_bind].
    apply IH; [intros j Hj; apply His; now right|].
    apply add_nonneg; [exact Hacc|]. apply mul_self_nonneg.
    apply sub_finite_not_nan; apply char_density_good.
Qed.

(** Against itself the sum of squares stays [+0]. *)
Lemma self_similarity_loop buf idxs :
  (forall i, In i idxs -> 0 <= i < Z.of_nat (length buf)) ->
  foldlM (similarity_cell buf buf) idxs zero = Some zero.
Proof.
  induction idxs as [|i idxs IH]; intros His; cbn [foldlM]; [reflexivity|].
  destruct (similarity_cell_is_Some buf buf zero i (@eq_refl nat (length buf))) as (b & c & Hb & Hc & ->);
    [apply His; now left|].
  rewrite Hb in Hc. injection Hc as <-.
  destruct (char_density_good b) as (_ & _ & _ & ->).
  cbv beta iota delta [mbind option_bind].
  change (add zero (mul zero zero)) with zero.
  apply IH. intros j Hj. apply His. now right.
Qed.

Lemma similarity_range_in_bounds (buf : list byte) w h :
  Int.wrap (Z.of_nat (length buf)) = Int.mul w h ->
  forall i, In i (int_range 0 (Int.mul w h)) -> 0 <= i < Z.of_nat (length buf).
Proof.
  intros Hsz i Hi. apply in_int_range in Hi.
  pose proof (wrap_le_nonneg (Z.of_nat (length buf)) ltac:(lia)). lia.
Qed.

Lemma similarity_guard (buf ref : list byte) w h :
  (negb (length buf =? length ref)%nat
   || negb (Int.wrap (Z.of_nat (length buf)) =? Int.mul w h)) = false ->
  length buf = length ref /\ Int.wrap (Z.of_nat (length buf)) = Int.mul w h.
Proof.
  intros H. apply orb_false_iff in H. destruct H as [H1 H2].
  apply negb_false_iff in H1, H2.
  apply Nat.eqb_eq in H1. apply Z.eqb_eq in H2. auto.
Qed.

(** The last steps of [estimate_ascii_similarity]: [1 - mse] cut to
    [[0, 1]]. *)
Lemma similarity_cut sim :
  is_nan sim = false ->
  let sim1 := if ltb sim zero then zero else sim in
  let sim2 := if gtb sim1 one then one else sim1 in
  leb zero sim2 = true /\ leb sim2 one = true.
Proof.
  intros Hn. cbv zeta. destruct (ltb sim zero) eqn:H0.
  - split; reflexivity.
  - unfold gtb. destruct (ltb one sim) eqn:H1.
    + split; reflexivity.
    + split; apply ltb_false_leb; try assumption; reflexivity.
Qed.

(** X11: [estimate_ascii_similarity] reads neither buffer out of bounds
    and returns, for all buffers and dimensions, a value of [[0, 1]]. *)
Theorem similarity_total_in_unit_interval (buf ref : list byte) (w h : Z) :
  exists v, estimate_ascii_similarity buf ref w h = Some v /\
            leb zero v = true /\ leb v one = true.
Proof.
  unfold estimate_ascii_similarity.
  destruct (negb (length buf =? length ref)%nat || _) eqn:Hg.
  - exists zero. repeat split; reflexivity.
  - apply similarity_guard in Hg. destruct Hg as [Hlen Hsz].
    destruct (similarity_loop buf ref (int_range 0 (Int.mul w h)) Hlen
                (similarity_range_in_bounds buf w h Hsz) zero eq_refl)
      as (acc & -> & Hacc).
    cbv beta iota delta [mbind option_bind].
    destruct (Z.eqb_spec (Int.mul w h) 0) as [_|Hne].
    + exists zero. repeat split; reflexivity.
    + eexists. split; [reflexivity|]. apply similarity_cut.
      destruct (of_Z_int_finite (Int.mul w h) (wrap_range _) Hne)
        as (s & p & e & ->).
      apply sub_finite_l_not_nan; [reflexivity|]. apply div_not_nan, Hacc.
Qed.

(** X12: a buffer compared with itself, at dimensions whose product is its
    size and is not 0, has similarity exactly 1; when [w * h] is 0 the
    result is 0, also for a buffer against itself. *)
Theorem self_similarity (buf : list byte) (w h : Z) :
  (Int.wrap (Z.of_nat (length buf)) = Int.mul w h -> Int.mul w h <> 0 ->
   estimate_ascii_similarity buf buf w h = Some one) /\
  (Int.mul w h = 0 -> estimate_ascii_similarity buf buf w h = Some zero).
Proof.
  unfold estimate_ascii_similarity. rewrite Nat.eqb_refl. cbn [negb orb].
  split.
  - intros Hsz Hne. rewrite Hsz, Z.eqb_refl. cbn [negb].
    rewrite (self_similarity_loop buf _ (similarity_range_in_bounds buf w h Hsz)).
    cbv beta iota delta [mbind option_bind].
    destruct (Z.eqb_spec (Int.mul w h) 0) as [|_]; [contradiction|].
    destruct (of_Z_int_finite (Int.mul w h) (wrap_range _) Hne)
      as (s & p & e & ->).
    reflexivity.
  - intros H0. rewrite H0.
    destruct (negb (Int.wrap (Z.of_nat (length buf)) =? 0)) eqn:Hg;
      [reflexivity|].
    apply negb_false_iff, Z.eqb_eq in Hg.
    rewrite (self_similarity_loop buf (int_range 0 0)); [reflexivity|].
    intros i [].
Qed.

Lemma self_similarity_witness :
  estimate_ascii_similarity demo_buf demo_buf 4 3 = Some one /\
  estimate_ascii_similarity [] [] 0 0 = Some zero.
Proof.
  destruct (self_similarity demo_buf 4 3) as [Hone _].
  destruct (self_similarity [] 0 0) as [_ Hzero].
  split; [apply Hone; [reflexivity|discriminate]|apply Hzero; reflexivity].
Defined.

End DensityFacts.

(** ** Loops, depths and timing of the renderer *)

Module PassFacts.

Import Double DoubleFacts RoundingSpec RoundingFacts OrderFacts IntFacts LoopFacts.
Import ascii_torus RenderSpec RenderFacts DepthSpec.

Lemma theta_loop_runs :
  for_double loop_fuel zero (lit 7 100) (mul (of_Z 2) M_PI) = Some theta_values
  /\ length theta_values = 90%nat.
Proof. vm_compute. split; reflexivity. Qed.

Lemma phi_loop_runs :
  for_double loop_fuel zero (lit 2 100) (mul (of_Z 2) M_PI) = Some phi_values
  /\ length phi_values = 315%nat.
Proof. vm_compute. split; reflexivity. Qed.

Lemma length_flat_map_const {A B : Type} (f : A -> list B) k l :
  (forall x, length (f x) = k) -> length (flat_map f l) = (length l * k)%nat.
Proof.
  intros Hf. induction l as [|x l IH]; cbn [flat_map length]; [reflexivity|].
  rewrite length_app, Hf, IH. lia.
Qed.

(** X13: the two angular loops end within the fuel of the model, after 90
    and 315 iterations, so a frame computes 90 * 315 samples whatever its
    size and the scene. *)
Theorem torus_loops_fixed
    (cos sin : double -> double) (pow : double -> double -> double)
    (w h : Z) (A B : double) (model : TorusModel) (ramp : list byte)
    (gamma cam_distance : double) :
  for_double loop_fuel zero (lit 7 100) (mul (of_Z 2) M_PI) = Some theta_values /\
  for_double loop_fuel zero (lit 2 100) (mul (of_Z 2) M_PI) = Some phi_values /\
  length theta_values = 90%nat /\ length phi_values = 315%nat /\
  length (torus_samples cos sin pow w h A B model ramp gamma cam_distance)
    = (90 * 315)%nat.
Proof.
  destruct theta_loop_runs as [Ht Hlt], phi_loop_runs as [Hp Hlp].
  split; [exact Ht|]. split; [exact Hp|]. split; [exact Hlt|].
  split; [exact Hlp|].
  unfold torus_samples.
  rewrite (length_flat_map_const _ 315).
  - rewrite Hlt. reflexivity.
  - intros theta. rewrite length_map. exact Hlp.
Qed.

Lemma clear_frame_cell_ok fr i : cell_ok (clear_frame fr) i.
Proof.
  intros z Hz. left. cbn [clear_frame zbuf out_buf] in *.
  apply lookup_replicate in Hz. split; [apply Hz|].
  intros c Hc. apply lookup_replicate in Hc. apply Hc.
Qed.

Lemma plot_cell_ok w h ramp fr s fr' :
  plot w h ramp fr s = Some fr' ->
  (forall i, cell_ok fr i) -> forall i, cell_ok fr' i.
Proof.
  intros Hp Hok i z' Hz'.
  destruct (plot_cases _ _ _ _ _ _ Hp) as [->|(off & z & c & H)];
    [exact (Hok i z' Hz')|].
  destruct H as (Hlz & Hlo & Hz & Hgt & _ & Hzb & Hob).
  rewrite Hzb in Hz'. rewrite Hob.
  destruct (decide (off = i)) as [->|Hne].
  - rewrite list_lookup_insert_eq in Hz' by exact Hlz. injection Hz' as <-.
    right. unfold gtb in *.
    destruct (Hok i z Hz) as [[-> _]|Hpos]; [exact Hgt|].
    exact (ltb_trans _ _ _ Hpos Hgt).
  - rewrite list_lookup_insert_ne in Hz' by exact Hne.
    rewrite list_lookup_insert_ne by exact Hne. exact (Hok i z' Hz').
Qed.

Lemma run_pass_cell_ok w h ramp samples fr fr' :
  run_pass w h ramp samples fr = Some fr' ->
  (forall i, cell_ok fr i) -> forall i, cell_ok fr' i.
Proof.
  intros Hrun Hok.
  apply (foldlM_invariant (fun fr => forall i, cell_ok fr i) (plot w h ramp) samples)
    with (s := fr); [|exact Hok|exact Hrun].
  intros s a s' _ Hs Hp. exact (plot_cell_ok _ _ _ _ _ _ Hp Hs).
Qed.

Lemma run_pass_same_shape w h ramp samples fr fr' :
  run_pass w h ramp samples fr = Some fr' -> same_shape fr' fr.
Proof.
  intros Hrun.
  apply (foldlM_invariant (fun f => same_shape f fr) (plot w h ramp) samples)
    with (s := fr); [|split; reflexivity|exact Hrun].
  intros s a s' _ [Ho Hz] Hp. destruct (plot_same_shape _ _ _ _ _ _ Hp) as [Ho' Hz'].
  split; congruence.
Qed.

(** X14: on a non-empty ramp and buffers that hold the [w * h] cells,
    [render_torus_frame] returns buffers of the sizes it was given, in which
    every cell either was never written (depth [+0.0], blank glyph) or holds
    a strictly positive depth: a sample whose depth is zero, negative or NaN
    is never drawn. *)
Theorem render_depths
    (cos sin : double -> double) (pow : double -> double -> double)
    (w h : Z) (A B : double) (model : TorusModel) (ramp : list byte)
    (gamma cam_distance : double) (fr : Frame) :
  ramp <> [] -> Z.of_nat (length ramp) <= Int.INT_MAX -> roomy w h fr ->
  exists fr',
    render_torus_frame cos sin pow w h A B model ramp gamma cam_distance fr
      = Some fr' /\
    length (out_buf fr') = length (out_buf fr) /\
    length (zbuf fr') = length (zbuf fr) /\
    forall i z, zbuf fr' !! i = Some z ->
      (z = zero /\ forall c, out_buf fr' !! i = Some c -> c = " "%byte) \/
      gtb z zero = true.
Proof.
  intros Hne Hlen Hr. unfold render_torus_frame.
  destruct (run_pass_is_Some w h ramp _
              (torus_samples_idx cos sin pow w h A B model ramp gamma
                 cam_distance Hne Hlen)
              (clear_frame fr) (clear_frame_roomy _ _ _ Hr)) as [fr' Hrun].
  exists fr'. split; [exact Hrun|].
  destruct (run_pass_same_shape _ _ _ _ _ _ Hrun) as [Ho Hz].
  unfold clear_frame in Ho, Hz. cbn [out_buf zbuf] in Ho, Hz.
  rewrite length_replicate in Ho. rewrite length_replicate in Hz.
  split; [exact Ho|]. split; [exact Hz|].
  intros i. exact (run_pass_cell_ok _ _ _ _ _ _ Hrun (clear_frame_cell_ok fr) i).
Qed.

Lemma render_depths_witness :
  exists fr',
    render_torus_frame libm_one libm_one libm_fst 2 1 zero zero demo_model
      demo_ramp one (of_Z 10) demo_prior = Some fr' /\
    length (out_buf fr') = length (out_buf demo_prior) /\
    length (zbuf fr') = length (zbuf demo_prior) /\
    forall i z, zbuf fr' !! i = Some z ->
      (z = zero /\ forall c, out_buf fr' !! i = Some c -> c = " "%byte) \/
      gtb z zero = true.
Proof.
  apply (render_depths libm_one libm_one libm_fst 2 1 zero zero demo_model
           demo_ramp one (of_Z 10) demo_prior).
  - discriminate.
  - vm_compute. discriminate.
  - unfold roomy. simpl. unfold Int.INT_MAX. lia.
Defined.

Lemma fps_of_ms_nonneg ms :
  nonneg (if gtb ms zero then div (of_Z 1000) ms else zero) = true.
Proof.
  unfold gtb. destruct (ltb zero ms) eqn:Hpos; [|reflexivity].
  destruct (ltb_zero_shape ms Hpos) as [(m & e & ->)| ->]; [|reflexivity].
  apply div_nonneg; try reflexivity. discriminate.
Qed.

Lemma of_Z_nonpos_ms d :
  d <= 0 -> ltb zero (div (of_Z d) (of_Z 1000000)) = false.
Proof.
  intros Hd. destruct d as [|p|p]; try lia; [reflexivity|].
  unfold of_Z at 1. cbn [binary_normalize].
  destruct (binary_round_shape true p 0) as (m & e & -> & Hm).
  destruct (of_Z_pos 1000000) as (pm & em & ->);
    [unfold Int.INT_MAX; lia|].
  unfold pack. destruct m as [|q|q]; [reflexivity| |lia].
  destruct (e <=? 971); [|reflexivity].
  unfold div, SFdiv.
  destruct (div_core_spec q e pm em) as (q' & e' & l & -> & Hq & _).
  destruct (BRA_shape (xorb true false) q' e' l Hq) as (m' & e0 & -> & Hm').
  apply pack_true_not_pos, Hm'.
Qed.

Lemma int64_wrap_small z : - 2 ^ 63 <= z < 2 ^ 63 -> int64_wrap z = z.
Proof.
  intros Hz. unfold int64_wrap. rewrite Z.mod_small; lia.
Qed.

(** X15: the frame rate of [measure_frame_time] is never NaN and never
    negative, whatever the two readings; and it is 0 when the end reading
    is not after the start reading and their difference fits the 64-bit
    tick count. *)
Theorem frame_rate_never_negative (start end_ : Z) :
  nonneg (fps (measure_frame_time start end_)) = true /\
  (- 2 ^ 63 <= end_ - start <= 0 ->
   fps (measure_frame_time start end_) = zero).
Proof.
  unfold measure_frame_time. cbn [fps]. split; [apply fps_of_ms_nonneg|].
  intros Hle. rewrite int64_wrap_small by lia.
  unfold gtb. rewrite of_Z_nonpos_ms by lia. reflexivity.
Qed.

Lemma frame_rate_never_negative_witness :
  nonneg (fps (measure_frame_time 7 5)) = true /\
  fps (measure_frame_time 7 5) = zero.
Proof.
  destruct (frame_rate_never_negative 7 5) as [Hn Hz].
  split; [exact Hn|apply Hz; lia].
Defined.

End PassFacts.

(** ** The score of a vector *)

Module ScoreFacts.

Import Double DoubleFacts RoundingSpec RoundingFacts OrderFacts IntFacts LoopFacts.
Import torus_metrics MetricsSpec ascii_torus RenderSpec RenderFacts DepthSpec.
Import DensityFacts PassFacts ControllerSpec ScoreSpec.

Lemma in_unit_zero : in_unit 0 zero.
Proof. repeat split; reflexivity. Qed.

Lemma in_unit_one : in_unit 0 one.
Proof. repeat split; reflexivity. Qed.

Lemma clamp_unit_in_unit v :
  nonneg v = true -> valid_binary prec emax v = true ->
  in_unit 0 (clamp v zero one).
Proof.
  intros Hn Hv. unfold clamp.
  destruct (ltb v zero); [apply in_unit_zero|].
  destruct (ltb one v) eqn:H1; [apply in_unit_one|].
  split; [exact Hn|]. split; [exact Hv|].
  apply ltb_false_leb; [reflexivity|apply nonneg_not_nan, Hn|exact H1].
Qed.

Lemma min_one_in_unit x :
  nonneg x = true -> valid_binary prec emax x = true -> in_unit 0 (min x one).
Proof.
  intros Hn Hv. unfold min.
  destruct (ltb one x) eqn:H1; [apply in_unit_one|].
  split; [exact Hn|]. split; [exact Hv|].
  apply ltb_false_leb; [reflexivity|apply nonneg_not_nan, Hn|exact H1].
Qed.

(** The counter of [estimate_ascii_quality] counts the interior cells. *)
Lemma quality_cell_count buf w y acc cnt x st' :
  quality_cell buf w y (acc, cnt) x = Some st' -> snd st' = Int.add cnt 1.
Proof.
  unfold quality_cell. cbv beta iota delta [mbind option_bind].
  destruct (get buf (Int.sub _ 1)) as [b1|]; [|discriminate].
  destruct (get buf (Int.add _ 1)) as [b2|]; [|discriminate].
  destruct (get buf (Int.sub _ w)) as [b3|]; [|discriminate].
  destruct (get buf (Int.add _ w)) as [b4|]; [|discriminate].
  intros H.
  pose proof (f_equal (fun o => match o with Some v => v | None => st' end) H)
    as H'.
  cbv beta iota in H'. subst st'. reflexivity.
Qed.

Lemma quality_row_count buf w y xs : forall st st',
  foldlM (quality_cell buf w y) xs st = Some st' ->
  0 <= snd st -> snd st + Z.of_nat (length xs) <= Int.INT_MAX ->
  snd st' = snd st + Z.of_nat (length xs).
Proof.
  induction xs as [|x xs IH]; intros [acc cnt] st' Hrun Hc Hmax;
    cbn [foldlM] in Hrun; cbn [snd length] in *.
  - injection Hrun as <-. cbn [snd]. lia.
  - destruct (quality_cell buf w y (acc, cnt) x) as [[acc1 cnt1]|] eqn:Hcell;
      [|discriminate].
    apply quality_cell_count in Hcell. cbn [snd] in Hcell.
    rewrite add_small in Hcell by (unfold Int.INT_MIN, Int.INT_MAX in *; lia).
    cbv beta iota delta [mbind option_bind] in Hrun.
    apply IH in Hrun; cbn [snd] in *; lia.
Qed.

Lemma quality_rows_count buf w ys : forall st st',
  foldlM (quality_row buf w) ys st = Some st' ->
  0 <= snd st ->
  snd st + Z.of_nat (length ys) * Z.of_nat (length (int_range 1 (Int.sub w 1)))
    <= Int.INT_MAX ->
  snd st' = snd st + Z.of_nat (length ys)
                     * Z.of_nat (length (int_range 1 (Int.sub w 1))).
Proof.
  induction ys as [|y ys IH]; intros st st' Hrun Hc Hmax;
    cbn [foldlM] in Hrun; cbn [length] in *.
  - injection Hrun as <-. lia.
  - destruct (quality_row buf w st y) as [st1|] eqn:Hrow; [|discriminate].
    apply quality_row_count in Hrow; [|lia|nia].
    cbv beta iota delta [mbind option_bind] in Hrun.
    apply IH in Hrun; [|lia|nia]. nia.
Qed.

(** On a buffer of the right size the quality is a valid double of
    [[0, 1]]. *)
Lemma quality_unit buf w h :
  3 <= w -> 3 <= h -> w * h <= Int.INT_MAX -> Z.of_nat (length buf) = w * h ->
  exists q, estimate_ascii_quality buf w h = Some q /\ in_unit 0 q.
Proof.
  intros Hw Hh Hmax Hlen. unfold estimate_ascii_quality.
  destruct (Z.ltb_spec w 3); [lia|]. destruct (Z.ltb_spec h 3); [lia|].
  cbn [orb].
  destruct (MetricsFacts.quality_loops_is_Some buf w h (zero, 0) Hw Hh Hmax Hlen)
    as [[acc cnt] Hrun]. rewrite Hrun.
  cbv beta iota delta [mbind option_bind].
  assert (Hinit : quality_inv (zero, 0)).
  { split; [reflexivity|]. cbn [snd]. unfold Int.INT_MIN, Int.INT_MAX. lia. }
  destruct (quality_loops_inv buf w _ _ _ Hinit Hrun) as [Ha _]. cbn [fst] in Ha.
  assert (Hw1 : Int.sub w 1 = w - 1)
    by (apply sub_small; unfold Int.INT_MIN, Int.INT_MAX in *; nia).
  assert (Hh1 : Int.sub h 1 = h - 1)
    by (apply sub_small; unfold Int.INT_MIN, Int.INT_MAX in *; nia).
  assert (Hrows : Z.of_nat (length (int_range 1 (Int.sub h 1))) = h - 2)
    by (rewrite Hh1, int_range_length; lia).
  assert (Hcols : Z.of_nat (length (int_range 1 (Int.sub w 1))) = w - 2)
    by (rewrite Hw1, int_range_length; lia).
  apply quality_rows_count in Hrun; cbn [snd] in *;
    [|lia|rewrite Hrows, Hcols; nia].
  rewrite Hrows, Hcols in Hrun.
  destruct (Z.eqb_spec cnt 0) as [|_]; [exists zero; split; [reflexivity|apply in_unit_zero]|].
  eexists. split; [reflexivity|].
  destruct (of_Z_pos cnt) as (p & e & ->); [unfold Int.INT_MAX in *; nia|].
  apply clamp_unit_in_unit; [|apply div_valid].
  apply div_nonneg; try reflexivity; [exact Ha|discriminate].
Qed.

Lemma make_ramp_domain n :
  8 <= n <= 16 ->
  exists ramp, make_ramp n = Some ramp /\ Z.of_nat (length ramp) = n.
Proof.
  intros Hn.
  assert (H : n = 8 \/ n = 9 \/ n = 10 \/ n = 11 \/ n = 12 \/ n = 13 \/
              n = 14 \/ n = 15 \/ n = 16) by lia.
  repeat (destruct H as [->|H]; [eexists; split; vm_compute; reflexivity|]).
  subst n. eexists; split; vm_compute; reflexivity.
Qed.

Lemma int_max_range a b :
  Int.INT_MIN <= a <= Int.INT_MAX -> Int.INT_MIN <= b <= Int.INT_MAX ->
  a <= Int.max a b /\ b <= Int.max a b /\
  Int.INT_MIN <= Int.max a b <= Int.INT_MAX.
Proof. intros Ha Hb. unfold Int.max. destruct (Z.ltb_spec a b); lia. Qed.

Lemma int_of_Z_opt_range o :
  Int.INT_MIN <= int_of_Z_opt o <= Int.INT_MAX.
Proof.
  unfold int_of_Z_opt. destruct o as [z|]; [|unfold Int.INT_MIN, Int.INT_MAX; lia].
  unfold Int.in_range. destruct (Z.leb_spec Int.INT_MIN z), (Z.leb_spec z Int.INT_MAX);
    cbn [andb]; unfold Int.INT_MIN, Int.INT_MAX in *; lia.
Qed.

Section Libm.

Variable cos sin : double -> double.
Variable pow : double -> double -> double.

Lemma render_is_Some w h A B model ramp gamma cam fr :
  ramp <> [] -> Z.of_nat (length ramp) <= Int.INT_MAX -> roomy w h fr ->
  exists fr', render_torus_frame cos sin pow w h A B model ramp gamma cam fr = Some fr'
              /\ same_shape fr' fr.
Proof.
  intros Hne Hlen Hr. unfold render_torus_frame.
  destruct (run_pass_is_Some w h ramp _
              (torus_samples_idx cos sin pow w h A B model ramp gamma cam Hne Hlen)
              (clear_frame fr) (clear_frame_roomy _ _ _ Hr)) as [fr' Hrun].
  exists fr'. split; [exact Hrun|].
  destruct (run_pass_same_shape _ _ _ _ _ _ Hrun) as [Ho Hz].
  unfold clear_frame in Ho, Hz. cbn [out_buf zbuf] in Ho, Hz.
  rewrite length_replicate in Ho. rewrite length_replicate in Hz.
  split; assumption.
Qed.

(** X16: with both weights 0.5, on a ramp size of 8..16 and frame dimensions
    whose product is an [int], [evaluate_score] reads no buffer out of
    bounds and returns a score of [[0, 1]], for every clock reading, every
    scene and every behaviour of [cos], [sin] and [pow]. *)
Theorem evaluate_score_in_unit_interval
    (pv : mcik_ctrl.ParamVector) (A B : double) (torus : TorusModel)
    (base_w base_h target_fps : Z) (cam_distance : double) (t0 t1 : Z) :
  8 <= mcik_ctrl.ramp_size pv <= 16 ->
  target_fps <= Int.INT_MAX ->
  score_dim base_w pv * score_dim base_h pv <= Int.INT_MAX ->
  exists s,
    evaluate_score cos sin pow pv A B torus base_w base_h target_fps
      (lit 5 10) (lit 5 10) cam_distance t0 t1 = Some s /\
    leb zero s = true /\ leb s one = true.
Proof.
  intros Hramp Htf Hdim. unfold evaluate_score.
  fold (score_dim base_w pv). fold (score_dim base_h pv).
  set (w := score_dim base_w pv) in *. set (h := score_dim base_h pv) in *.
  assert (Hw : 10 <= w /\ w <= Int.INT_MAX).
  { unfold w, score_dim.
    destruct (int_max_range 10 (round_to_int (mul (of_Z base_w)
                (mcik_ctrl.resolution_scale pv)))) as (? & _ & ?);
      [unfold Int.INT_MIN, Int.INT_MAX; lia|apply int_of_Z_opt_range|lia]. }
  assert (Hh : 10 <= h /\ h <= Int.INT_MAX).
  { unfold h, score_dim.
    destruct (int_max_range 10 (round_to_int (mul (of_Z base_h)
                (mcik_ctrl.resolution_scale pv)))) as (? & _ & ?);
      [unfold Int.INT_MIN, Int.INT_MAX; lia|apply int_of_Z_opt_range|lia]. }
  destruct (make_ramp_domain _ Hramp) as (ramp & -> & Hrlen).
  cbv beta iota delta [mbind option_bind].
  assert (Hmul : Int.mul w h = w * h)
    by (apply mul_small; unfold Int.INT_MIN, Int.INT_MAX in *; nia).
  rewrite Hmul. destruct (Z.ltb_spec (w * h) 0) as [|_]; [nia|].
  set (fr0 := mkFrame (replicate (Z.to_nat (w * h)) " "%byte)
                      (replicate (Z.to_nat (w * h)) zero)).
  destruct (render_is_Some w h A B torus ramp (mcik_ctrl.gamma pv) cam_distance fr0)
    as (fr & -> & Ho & _).
  - intros ->. cbn [length] in Hrlen. lia.
  - unfold Int.INT_MAX. lia.
  - unfold roomy, fr0. cbn [out_buf zbuf]. rewrite !length_replicate. lia.
  - unfold fr0 in Ho. cbn [out_buf] in Ho. rewrite length_replicate in Ho.
    destruct (quality_unit (out_buf fr) w h) as (q & -> & Hq); [lia|lia|lia|lia|].
    eexists. split; [reflexivity|].
    rewrite lit_half. apply add_half_unit; apply mul_half_unit; [|exact Hq].
    destruct (of_Z_pos (Int.max 1 target_fps)) as (p & e & ->).
    { unfold Int.max. destruct (Z.ltb_spec 1 target_fps); unfold Int.INT_MAX in *; lia. }
    apply min_one_in_unit; [|apply div_valid].
    apply div_nonneg; try reflexivity; [|discriminate].
    apply fps_of_ms_nonneg.
Qed.

End Libm.

Lemma evaluate_score_in_unit_interval_witness :
  exists s,
    evaluate_score libm_one libm_one libm_fst p_default zero zero demo_model
      80 24 30 (lit 5 10) (lit 5 10) (of_Z 10) 0 1000000 = Some s /\
    leb zero s = true /\ leb s one = true.
Proof.
  apply (evaluate_score_in_unit_interval libm_one libm_one libm_fst p_default
           zero zero demo_model 80 24 30 (of_Z 10) 0 1000000).
  - vm_compute. split; discriminate.
  - vm_compute. discriminate.
  - vm_compute. discriminate.
Defined.

End ScoreFacts.

(** ** The clamps of the command line *)

Module ConfigFacts.

Import Double DoubleFacts RoundingSpec RoundingFacts OrderFacts IntFacts LoopFacts.
Import ascii_torus ConfigSpec.

Lemma max_lower lo x : is_nan lo = false -> leb lo (max lo x) = true.
Proof.
  intros Hlo. unfold max. destruct (ltb lo x) eqn:H.
  - apply ltb_leb, H.
  - apply leb_refl, Hlo.
Qed.

Lemma max_not_nan lo x : is_nan lo = false -> is_nan (max lo x) = false.
Proof.
  intros Hlo. unfold max. destruct (ltb lo x) eqn:H; [|exact Hlo].
  apply ltb_not_nan in H. apply H.
Qed.

Lemma int_max_lower a b : a <= Int.max a b.
Proof. unfold Int.max. destruct (Z.ltb_spec a b); lia. Qed.

Lemma leb_false_ltb a b :
  is_nan a = false -> is_nan b = false -> leb a b = false -> ltb b a = true.
Proof.
  intros Ha Hb H. destruct (ltb b a) eqn:Hlt; [reflexivity|].
  rewrite (ltb_false_leb b a Hb Ha Hlt) in H. discriminate.
Qed.

(** Scaling a normal positive double by a factor of [[1/4, 1/2)] written
    on 53 bits makes it strictly smaller. *)
Lemma mul_scale_lt (c m : positive) (e : Z) :
  2 ^ 52 <= Z.pos c < 2 ^ 53 -> 2 ^ 52 <= Z.pos m < 2 ^ 53 ->
  -1000 <= e <= 971 ->
  ltb (mul (S754_finite false m e) (S754_finite false c (-54)))
      (S754_finite false m e) = true.
Proof.
  intros Hc Hm He. unfold mul, SFmul. simpl xorb.
  set (mx := Z.pos (m * c)). set (ex := e + -54).
  assert (Hmx : mx = Z.pos m * Z.pos c) by (subst mx; lia).
  assert (H104 : 2 ^ 104 = 2 ^ 52 * 2 ^ 52) by (rewrite <- Z.pow_add_r by lia; reflexivity).
  assert (H105 : 2 ^ 105 = 2 ^ 52 * 2 ^ 53) by (rewrite <- Z.pow_add_r by lia; reflexivity).
  assert (H106 : 2 ^ 106 = 2 ^ 53 * 2 ^ 53) by (rewrite <- Z.pow_add_r by lia; reflexivity).
  assert (Hlo : 105 <= Zdigits2 mx).
  { apply Zdigits2_ge; [|lia]. change (105 - 1) with 104. rewrite H104, Hmx. nia. }
  assert (Hhi : Zdigits2 mx <= 106).
  { apply Zdigits2_le; [|lia]. rewrite H106, Hmx. nia. }
  assert (HP : ex <= fexp (Zdigits2 mx + ex)) by (rewrite fexp_eq; lia).
  destruct (Z.eq_dec (Z.pos m) (2 ^ 52)) as [Heq|Hne].
  - apply leb_ltb_trans with (b := pow2 (e + 51)).
    + apply BRA_le_pow2; [lia|lia|exact HP|].
      assert (Zdigits2 mx <= 105); [|lia].
      apply Zdigits2_le; [|lia]. rewrite H105, Hmx, Heq. nia.
    + unfold ltb, SFltb, pow2, SFcompare.
      destruct (Z.compare_spec (e + 51 - 52) e); [lia|reflexivity|lia].
  - apply leb_ltb_trans with (b := pow2 (e + 52)).
    + apply BRA_le_pow2; [lia|lia|exact HP|lia].
    + unfold ltb, SFltb, pow2, SFcompare.
      replace (e + 52 - 52) with e by lia.
      rewrite Z.compare_refl, compare_cont_Eq.
      destruct (Pos.compare_spec 4503599627370496 m) as [Heq|Hlt|Hgt];
        [|reflexivity|].
      * exfalso. apply Hne. rewrite <- Heq. reflexivity.
      * exfalso. apply Pos2Z.pos_lt_pos in Hgt.
        change (Z.pos 4503599627370496) with (2 ^ 52) in Hgt. lia.
Qed.

(** A valid finite double at least [0.1] is normal and positive. *)
Lemma ge_tenth_shape R :
  valid_binary prec emax R = true -> R <> S754_infinity false ->
  leb (lit 1 10) R = true ->
  exists m e, R = S754_finite false m e /\
              2 ^ 52 <= Z.pos m < 2 ^ 53 /\ -56 <= e <= 971.
Proof.
  intros Hv Hinf Hle.
  change (lit 1 10) with (S754_finite false 7205759403792794 (-56)) in Hle.
  destruct R as [[]|[]| |[] m e]; try discriminate; [congruence|].
  exists m, e. split; [reflexivity|].
  assert (He : -56 <= e).
  { unfold leb, SFleb, SFcompare in Hle.
    destruct (Z.compare_spec (-56) e); [lia|lia|discriminate]. }
  simpl in Hv. unfold bounded, canonical_mantissa in Hv.
  apply andb_true_iff in Hv. destruct Hv as [Hc Hb].
  apply Z.eqb_eq in Hc. apply Z.leb_le in Hb.
  change (Z.pos (digits2_pos m)) with (Zdigits2 (Z.pos m)) in Hc.
  rewrite fexp_eq in Hc.
  assert (Hd : Zdigits2 (Z.pos m) = 53) by lia.
  destruct (Zdigits2_bounds (Z.pos m)) as [Hlo Hhi]; [lia|].
  rewrite Hd in Hlo, Hhi. change (53 - 1) with 52 in Hlo.
  unfold emax, prec in Hb. lia.
Qed.

Lemma mul_04_lt R :
  valid_binary prec emax R = true -> R <> S754_infinity false ->
  leb (lit 1 10) R = true ->
  ltb (mul R (lit 4 10)) R = true.
Proof.
  intros Hv Hinf Hle.
  destruct (ge_tenth_shape R Hv Hinf Hle) as (m & e & -> & Hm & He).
  change (lit 4 10) with (S754_finite false 7205759403792794 (-54)).
  apply mul_scale_lt; [|exact Hm|lia].
  split; [apply Pos2Z.pos_le_pos|apply Pos2Z.pos_lt_pos]; vm_compute; congruence.
Qed.

(** X17: after the clamps of [parse_args], for every input (NaN and
    infinities included): the samples per pixel are in 1..4, the ramp size
    in 8..16, the target rate and the controller interval at least 1, the
    camera distance at least 0.5, the major radius at least 0.1, the minor
    radius at least 0.05, and the sum of the two weights is not [<= 0]. *)
Theorem parse_args_bounds (params : RenderParams) :
  1 <= samples_per_pixel (parse_args_clamp params) <= 4 /\
  8 <= ramp_size (parse_args_clamp params) <= 16 /\
  1 <= target_fps (parse_args_clamp params) /\
  1 <= ctrl_interval (parse_args_clamp params) /\
  leb (lit 5 10) (cam_distance (parse_args_clamp params)) = true /\
  leb (lit 1 10) (torus_R (parse_args_clamp params)) = true /\
  leb (lit 5 100) (torus_r (parse_args_clamp params)) = true /\
  leb (add (w_fps (parse_args_clamp params))
           (w_quality (parse_args_clamp params))) zero = false.
Proof.
  assert (Hlit : forall n d x, is_nan (lit n d) = false ->
                               leb (lit n d) (max (lit n d) x) = true)
    by (intros n d x H; apply max_lower, H).
  unfold parse_args_clamp.
  destruct (leb (add (w_fps params) (w_quality params)) zero) eqn:Hs;
    cbn [samples_per_pixel ramp_size target_fps ctrl_interval cam_distance
         torus_R torus_r w_fps w_quality].
  all: split; [apply IntFacts.clamp_bounds; lia|].
  all: split; [apply IntFacts.clamp_bounds; lia|].
  all: split; [apply int_max_lower|].
  all: split; [apply int_max_lower|].
  all: split; [apply Hlit; vm_compute; reflexivity|].
  all: split; [apply Hlit; vm_compute; reflexivity|].
  all: split; [destruct (geb _ _); apply Hlit; vm_compute; reflexivity|].
  - vm_compute; reflexivity.
  - exact Hs.
Qed.

(** X18: after the clamps of [parse_args], a major radius that was given as
    a number other than [+infinity] (NaN, negative and zero included, the
    minor radius being anything) leaves radii with [0 < r < R]; when both
    radii are given as [+infinity] they both stay [+infinity], so [r < R]
    fails there. *)
Theorem parse_args_radii (params : RenderParams) :
  (valid_binary prec emax (torus_R params) = true ->
   torus_R params <> pinf ->
   ltb zero (torus_r (parse_args_clamp params)) = true /\
   ltb (torus_r (parse_args_clamp params))
       (torus_R (parse_args_clamp params)) = true) /\
  (torus_R params = pinf -> torus_r params = pinf ->
   torus_R (parse_args_clamp params) = pinf /\
   torus_r (parse_args_clamp params) = pinf).
Proof.
  assert (Hn : is_nan (lit 5 100) = false) by (vm_compute; reflexivity).
  assert (H0 : ltb zero (lit 5 100) = true) by (vm_compute; reflexivity).
  assert (H1 : ltb (lit 5 100) (lit 1 10) = true) by (vm_compute; reflexivity).
  assert (Hpos : forall x, ltb zero (max (lit 5 100) x) = true)
    by (intros x; eapply ltb_leb_trans; [exact H0|apply max_lower, Hn]).
  assert (Hradii : forall R r : double,
    let R1 := max (lit 1 10) R in
    let r1 := max (lit 5 100) r in
    let r2 := if geb r1 R1 then max (lit 5 100) (mul R1 (lit 4 10)) else r1 in
    (valid_binary prec emax R = true -> R <> pinf ->
     ltb zero r2 = true /\ ltb r2 R1 = true) /\
    (R = pinf -> r = pinf -> R1 = pinf /\ r2 = pinf)).
  { intros R r R1 r1 r2. split.
    2:{ intros HR Hr. subst R1 r2 r1. rewrite HR, Hr.
        split; vm_compute; reflexivity. }
    intros Hv Hinf.
    assert (HR1 : valid_binary prec emax R1 = true /\ R1 <> pinf /\
                  leb (lit 1 10) R1 = true).
    { unfold R1, max. destruct (ltb (lit 1 10) R) eqn:H.
      - split; [exact Hv|split; [exact Hinf|apply ltb_leb, H]].
      - split; [vm_compute; reflexivity|].
        split; [vm_compute; discriminate|vm_compute; reflexivity]. }
    destruct HR1 as (HvR & HiR & HleR).
    assert (Hrn : is_nan r1 = false) by (apply max_not_nan, Hn).
    subst r2. unfold geb. destruct (leb R1 r1) eqn:Hge.
    - split; [apply Hpos|].
      unfold max at 1. destruct (ltb (lit 5 100) (mul R1 (lit 4 10))).
      + apply mul_04_lt; assumption.
      + eapply ltb_leb_trans; [exact H1|exact HleR].
    - split; [apply Hpos|]. apply leb_false_ltb; [|exact Hrn|exact Hge].
      destruct (ge_tenth_shape R1 HvR HiR HleR) as (m & e & -> & _).
      reflexivity. }
  unfold parse_args_clamp.
  destruct (leb (add (w_fps params) (w_quality params)) zero);
    cbn [torus_R torus_r]; apply Hradii.
Qed.

Lemma parse_args_radii_witness :
  ltb zero (torus_r (parse_args_clamp default_params)) = true /\
  ltb (torus_r (parse_args_clamp default_params))
      (torus_R (parse_args_clamp default_params)) = true.
Proof.
  destruct (parse_args_radii default_params) as [H _].
  apply H; [vm_compute; reflexivity|vm_compute; discriminate].
Defined.

End ConfigFacts.

(** ** Resampling the master ramp *)

Module ResampleFacts.

Import Double torus_metrics ascii_torus RampSpec LoopFacts.

Lemma get_In {A : Type} (l : list A) i x : get l i = Some x -> In x l.
Proof.
  intros H. apply get_Some in H. destruct H as [_ H].
  apply list_elem_of_In. eapply list_elem_of_lookup_2. exact H.
Qed.

Lemma ramp_glyph_In base n i c : ramp_glyph base n i = Some c -> In c base.
Proof.
  unfold ramp_glyph. cbv zeta. destruct (ltb _ _); apply get_In.
Qed.

Lemma mapM_In {A B : Type} (f : A -> option B) (P : B -> Prop) :
  (forall a b, f a = Some b -> P b) ->
  forall l k, mapM f l = Some k -> forall b, In b k -> P b.
Proof.
  intros Hf l k H b Hb. apply mapM_Some_1 in H.
  induction H as [|a b' l k Hab _ IH]; [destruct Hb|].
  destruct Hb as [<-|Hb]; [eapply Hf, Hab|apply IH, Hb].
Qed.

(** X19: a ramp returned by [make_ramp] holds only glyphs of the master
    ramp, and as many as were asked for. *)
Theorem make_ramp_resamples (ramp_size : Z) (ramp : list byte) :
  make_ramp ramp_size = Some ramp ->
  (0 <= ramp_size -> Z.of_nat (length ramp) = ramp_size) /\
  forall c, In c ramp -> In c DEFAULT_RAMP.
Proof.
  intros H. split.
  - intros Hpos. unfold make_ramp in H.
    destruct (Z.eqb_spec ramp_size (int_size DEFAULT_RAMP)) as [->|_].
    + injection H as <-. reflexivity.
    + destruct (ramp_size <? 0); [discriminate|].
      apply length_mapM in H. rewrite <- H. unfold int_range.
      rewrite length_map, length_seq. lia.
  - unfold make_ramp in H.
    destruct (ramp_size =? int_size DEFAULT_RAMP).
    + injection H as <-. intros c Hc. exact Hc.
    + destruct (ramp_size <? 0); [discriminate|].
      eapply mapM_In; [|exact H]. intros a b. apply ramp_glyph_In.
Qed.

Lemma make_ramp_resamples_witness :
  (0 <= 12 -> Z.of_nat (length (list_byte_of_string " =%kjdkoesfu")) = 12) /\
  forall c, In c (list_byte_of_string " =%kjdkoesfu") -> In c DEFAULT_RAMP.
Proof.
  apply (make_ramp_resamples 12 (list_byte_of_string " =%kjdkoesfu")).
  vm_compute. reflexivity.
Defined.

(** X20: for every size of 8..16, [make_ramp] reads the master ramp within
    bounds and returns a ramp of that size which starts at the blank and
    ends at the last master glyph; the densities of its glyphs are not in
    nondecreasing order. *)
Theorem make_ramp_on_domain (ramp_size : Z) :
  8 <= ramp_size <= 16 ->
  exists ramp,
    make_ramp ramp_size = Some ramp /\
    Z.of_nat (length ramp) = ramp_size /\
    head ramp = head DEFAULT_RAMP /\
    last ramp = last DEFAULT_RAMP /\
    density_ordered ramp = false.
Proof.
  intros Hn.
  assert (H : ramp_size = 8 \/ ramp_size = 9 \/ ramp_size = 10 \/
              ramp_size = 11 \/ ramp_size = 12 \/ ramp_size = 13 \/
              ramp_size = 14 \/ ramp_size = 15 \/ ramp_size = 16) by lia.
  repeat (destruct H as [->|H];
          [eexists; split; [vm_compute; reflexivity|];
           repeat split; vm_compute; reflexivity|]).
  subst ramp_size. eexists; split; [vm_compute; reflexivity|].
  repeat split; vm_compute; reflexivity.
Qed.

Lemma make_ramp_on_domain_witness :
  exists ramp,
    make_ramp 12 = Some ramp /\
    Z.of_nat (length ramp) = 12 /\
    head ramp = head DEFAULT_RAMP /\
    last ramp = last DEFAULT_RAMP /\
    density_ordered ramp = false.
Proof. apply (make_ramp_on_domain 12). lia. Defined.

End ResampleFacts.

(** ** The lattice and its kernel *)

Module LatticeFacts.

Import Double mcik LatticeSpec LoopFacts.

(** X21: the constructor throws below three sites; from three on it
    builds a well-formed lattice whose state and kernel are all [+0]. *)
Theorem make_cases (size : nat) (alpha beta : double) :
  ((size < 3)%nat /\
   make size alpha beta
   = Throw (invalid_argument "Lattice1D expects at least three sites.")) \/
  ((3 <= size)%nat /\ exists l,
     make size alpha beta = Ok l /\ wf l /\ size_ l = size /\
     alpha_ l = alpha /\ beta_ l = beta /\
     (forall i x, state_ l !! i = Some x -> x = zero) /\
     (forall i j x, entry (kernel_ l) i j = Some x -> x = zero)).
Proof.
  unfold make. destruct (Nat.ltb_spec size 3) as [Hlt|Hge]; [left; auto|].
  right. split; [exact Hge|]. eexists. split; [reflexivity|].
  cbn [size_ alpha_ beta_ state_ kernel_].
  split; [|split; [reflexivity|split; [reflexivity|split; [reflexivity|split]]]].
  - unfold wf. cbn [size_ state_ kernel_]. rewrite !length_replicate.
    split; [exact Hge|]. split; [reflexivity|]. split; [reflexivity|].
    apply Forall_replicate. apply length_replicate.
  - intros i x Hx. apply lookup_replicate in Hx. apply Hx.
  - intros i j x. unfold entry. intros Hx.
    destruct (replicate size (replicate size zero) !! i) as [row|] eqn:Hrow;
      [|discriminate].
    apply lookup_replicate in Hrow. destruct Hrow as [-> _].
    cbn in Hx. apply lookup_replicate in Hx. apply Hx.
Qed.

Section Libm.

Variable tanh : double -> double.

Lemma site_is_Some l input i :
  (3 <= size_ l)%nat -> (size_ l <= length input)%nat -> (i < size_ l)%nat ->
  exists gi gl gr,
    input !! i = Some gi /\ input !! left_of (size_ l) i = Some gl /\
    input !! right_of (size_ l) i = Some gr /\
    site tanh l input i
    = Some (tanh (add (mul (alpha_ l) gi) (mul (beta_ l) (add gl gr)))).
Proof.
  intros Hn Hlen Hi.
  assert (Hl : (left_of (size_ l) i < length input)%nat).
  { unfold left_of. destruct (Nat.eqb_spec i 0); lia. }
  assert (Hr : (right_of (size_ l) i < length input)%nat).
  { unfold right_of. pose proof (Nat.mod_upper_bound (i + 1) (size_ l)). lia. }
  destruct (lookup_lt_is_Some_2 input i) as [gi Hgi]; [lia|].
  destruct (lookup_lt_is_Some_2 input _ Hl) as [gl Hgl].
  destruct (lookup_lt_is_Some_2 input _ Hr) as [gr Hgr].
  exists gi, gl, gr. repeat split; try assumption.
  unfold site. cbv zeta. fold (left_of (size_ l) i). fold (right_of (size_ l) i).
  rewrite Hgi, Hgl, Hgr. reflexivity.
Qed.

(** What [apply_rule] returns, site by site. *)
Lemma apply_rule_Some l input next :
  apply_rule tanh l input = Some next <->
  length next = size_ l /\
  forall i, (i < size_ l)%nat -> site tanh l input i = next !! i /\ is_Some (next !! i).
Proof.
  unfold apply_rule. rewrite mapM_Some. split.
  - intros H. pose proof (Forall2_length _ _ _ H) as Hlen.
    rewrite length_seq in Hlen. split; [symmetry; exact Hlen|].
    intros i Hi.
    destruct (lookup_lt_is_Some_2 next i) as [y Hy]; [lia|].
    assert (Hs : seq 0 (size_ l) !! i = Some i)
      by (rewrite lookup_seq; split; [reflexivity|exact Hi]).
    pose proof (Forall2_lookup_lr _ _ _ _ _ _ H Hs Hy) as Hsite.
    rewrite Hsite, Hy. split; [reflexivity|eauto].
  - intros [Hlen Hsite]. apply Forall2_same_length_lookup_2.
    + rewrite length_seq. symmetry. exact Hlen.
    + intros i x y Hx Hy. apply lookup_seq in Hx. destruct Hx as [-> Hi].
      simpl. destruct (Hsite i Hi) as [-> _]. exact Hy.
Qed.

Lemma apply_rule_is_Some l input :
  (3 <= size_ l)%nat -> (size_ l <= length input)%nat ->
  exists next, apply_rule tanh l input = Some next /\ length next = size_ l.
Proof.
  intros Hn Hlen.
  assert (H : is_Some (apply_rule tanh l input)).
  { unfold apply_rule. apply mapM_is_Some. apply Forall_forall.
    intros i Hi. apply elem_of_seq in Hi. unfold compose.
    destruct (site_is_Some l input i Hn Hlen) as (gi & gl & gr & _ & _ & _ & ->);
      [lia|eauto]. }
  destruct H as [next Hnext]. exists next. split; [exact Hnext|].
  apply apply_rule_Some in Hnext. apply Hnext.
Qed.

Lemma apply_rule_None l input :
  (3 <= size_ l)%nat -> (length input < size_ l)%nat ->
  apply_rule tanh l input = None.
Proof.
  intros Hn Hlen. destruct (apply_rule tanh l input) as [next|] eqn:H;
    [exfalso|reflexivity].
  apply apply_rule_Some in H. destruct H as [_ H].
  destruct (H (length input) Hlen) as [Hsite [y Hy]].
  rewrite Hy in Hsite. unfold site in Hsite. cbv zeta in Hsite.
  rewrite (lookup_ge_None_2 input (length input)) in Hsite by lia.
  discriminate.
Qed.

(** X23: [forward] is defined exactly when the state holds at least
    [size_] values; it then leaves a state of [size_] values and keeps the
    rest of the object. *)
Theorem forward_defined (l : Lattice1D) :
  (3 <= size_ l)%nat ->
  ((size_ l <= length (state_ l))%nat ->
   exists l', forward tanh l = Some l' /\
     length (state_ l') = size_ l /\ size_ l' = size_ l /\
     alpha_ l' = alpha_ l /\ beta_ l' = beta_ l /\ kernel_ l' = kernel_ l) /\
  ((length (state_ l) < size_ l)%nat -> forward tanh l = None).
Proof.
  intros Hn. split.
  - intros Hlen. destruct (apply_rule_is_Some l (state_ l) Hn Hlen)
      as (next & Hnext & Hl).
    exists (set_g l next). unfold forward. rewrite Hnext. repeat split. exact Hl.
  - intros Hlen. unfold forward. rewrite apply_rule_None by assumption.
    reflexivity.
Qed.

Lemma forward_wf l : wf l -> exists l', forward tanh l = Some l' /\ wf l'
  /\ size_ l' = size_ l /\ alpha_ l' = alpha_ l /\ beta_ l' = beta_ l
  /\ kernel_ l' = kernel_ l.
Proof.
  intros (Hn & Hs & Hk & Hrows).
  destruct (apply_rule_is_Some l (state_ l) Hn) as (next & Hnext & Hl); [lia|].
  exists (set_g l next). unfold forward. rewrite Hnext.
  split; [reflexivity|]. split; [|repeat split].
  unfold wf, set_g. cbn [size_ state_ kernel_]. auto.
Qed.

(** X24: any number of steps from a well-formed lattice stays in bounds
    and well formed, touches neither the parameters nor the kernel, and
    [n] steps followed by [m] steps are [n + m] steps. *)
Theorem forward_steps_wf (l : Lattice1D) (n m : nat) :
  wf l ->
  exists l1 l2,
    forward_steps tanh l n = Some l1 /\ wf l1 /\
    forward_steps tanh l1 m = Some l2 /\ wf l2 /\
    forward_steps tanh l (n + m) = Some l2 /\
    size_ l2 = size_ l /\ alpha_ l2 = alpha_ l /\ beta_ l2 = beta_ l /\
    kernel_ l2 = kernel_ l.
Proof.
  assert (Hrun : forall k l0, wf l0 -> exists l', forward_steps tanh l0 k = Some l'
            /\ wf l' /\ size_ l' = size_ l0 /\ alpha_ l' = alpha_ l0
            /\ beta_ l' = beta_ l0 /\ kernel_ l' = kernel_ l0).
  { induction k as [|k IH]; intros l0 Hwf.
    - exists l0. split; [reflexivity|]. split; [exact Hwf|]. repeat split.
    - destruct (forward_wf l0 Hwf) as (l1 & Hf & Hwf1 & E1 & E2 & E3 & E4).
      destruct (IH l1 Hwf1) as (l2 & Hr & Hwf2 & F1 & F2 & F3 & F4).
      exists l2. cbn [forward_steps]. rewrite Hf. cbn. rewrite Hr.
      split; [reflexivity|]. split; [exact Hwf2|].
      repeat split; congruence. }
  assert (Happ : forall k l0 l1, forward_steps tanh l0 k = Some l1 ->
            forward_steps tanh l0 (k + m) = forward_steps tanh l1 m).
  { induction k as [|k IH]; intros l0 l1 H; cbn [forward_steps Nat.add] in *.
    - injection H as <-. reflexivity.
    - destruct (forward tanh l0) as [l0'|]; [|discriminate]. cbn in *.
      apply IH, H. }
  intros Hwf.
  destruct (Hrun n l Hwf) as (l1 & H1 & Hwf1 & E1 & E2 & E3 & E4).
  destruct (Hrun m l1 Hwf1) as (l2 & H2 & Hwf2 & F1 & F2 & F3 & F4).
  exists l1, l2. rewrite (Happ n l l1 H1).
  split; [exact H1|]. split; [exact Hwf1|]. split; [exact H2|].
  split; [exact Hwf2|]. split; [exact H2|]. repeat split; congruence.
Qed.

(** *** The ring *)

Lemma rotate_nat_add_mod_r k x n :
  (0 < n)%nat -> rotate_nat_add k (x mod n) n = rotate_nat_add k x n.
Proof.
  intros Hn. unfold rotate_nat_add. f_equal.
  rewrite Nat2Z.inj_mod. apply Zplus_mod_idemp_r.
Qed.

Lemma left_of_alt n i :
  (i < n)%nat -> left_of n i = ((i + (n - 1)) mod n)%nat.
Proof.
  intros Hi. unfold left_of. destruct (Nat.eqb_spec i 0) as [->|Hne].
  - rewrite Nat.mod_small; lia.
  - replace (i + (n - 1))%nat with ((i - 1) + 1 * n)%nat by lia.
    rewrite Nat.Div0.mod_add. rewrite Nat.mod_small; lia.
Qed.

Lemma rotate_left_of k n i :
  (i < n)%nat ->
  rotate_nat_add k (left_of n i) n = left_of n (rotate_nat_add k i n).
Proof.
  intros Hi. assert (Hn : (0 < n)%nat) by lia.
  rewrite left_of_alt by exact Hi.
  rewrite left_of_alt by (apply rotate_nat_add_lt, Hn).
  rewrite rotate_nat_add_mod_r by exact Hn.
  apply rotate_nat_add_add, Hn.
Qed.

Lemma rotate_right_of k n i :
  (0 < n)%nat ->
  rotate_nat_add k (right_of n i) n = right_of n (rotate_nat_add k i n).
Proof.
  intros Hn. unfold right_of.
  rewrite rotate_nat_add_mod_r by exact Hn.
  apply rotate_nat_add_add, Hn.
Qed.

Lemma site_rotate l input k i :
  (3 <= size_ l)%nat -> length input = size_ l -> (i < size_ l)%nat ->
  site tanh l (rotate k input) i
  = site tanh l input (rotate_nat_add k i (size_ l)).
Proof.
  intros Hn Hlen Hi. unfold site. cbv zeta.
  fold (left_of (size_ l) i). fold (right_of (size_ l) i).
  fold (left_of (size_ l) (rotate_nat_add k i (size_ l))).
  fold (right_of (size_ l) (rotate_nat_add k i (size_ l))).
  assert (Hl : (left_of (size_ l) i < size_ l)%nat)
    by (unfold left_of; destruct (Nat.eqb_spec i 0); lia).
  assert (Hr : (right_of (size_ l) i < size_ l)%nat)
    by (unfold right_of; apply Nat.mod_upper_bound; lia).
  rewrite !lookup_rotate_r by lia. rewrite Hlen.
  rewrite rotate_left_of by exact Hi. rewrite rotate_right_of by lia.
  reflexivity.
Qed.

Lemma apply_rule_rotate l input next k :
  (3 <= size_ l)%nat -> length input = size_ l ->
  apply_rule tanh l input = Some next ->
  apply_rule tanh l (rotate k input) = Some (rotate k next).
Proof.
  intros Hn Hlen Hrun. apply apply_rule_Some in Hrun.
  destruct Hrun as [Hnl Hsites]. apply apply_rule_Some.
  split; [rewrite length_rotate; exact Hnl|].
  intros i Hi. rewrite site_rotate by assumption.
  rewrite lookup_rotate_r by lia. rewrite Hnl.
  apply Hsites. apply rotate_nat_add_lt. lia.
Qed.

(** X25: the update rule does not single out a site: a step from the
    state turned by [k] sites along the ring is the step from the state,
    turned by [k] sites. *)
Theorem forward_rotate (l : Lattice1D) (k : nat) :
  wf l ->
  exists l',
    forward tanh l = Some l' /\
    forward tanh (set_g l (rotate k (state_ l)))
    = Some (set_g l' (rotate k (state_ l'))).
Proof.
  intros (Hn & Hs & _).
  destruct (apply_rule_is_Some l (state_ l) Hn) as (next & Hnext & _); [lia|].
  exists (set_g l next). unfold forward. rewrite Hnext.
  split; [reflexivity|]. cbn [set_g state_].
  change (apply_rule tanh (set_g l (rotate k (state_ l))))
    with (apply_rule tanh l).
  rewrite (apply_rule_rotate l (state_ l) next k Hn Hs Hnext). reflexivity.
Qed.

(** *** The kernel *)

Lemma entry_insert_eq K i j row v :
  K !! i = Some row -> (j < length row)%nat ->
  entry (<[i := <[j := v]> row]> K) i j = Some v.
Proof.
  intros Hrow Hj. unfold entry.
  rewrite list_lookup_insert_eq by (eapply lookup_lt_Some, Hrow).
  cbn. apply list_lookup_insert_eq, Hj.
Qed.

Lemma entry_insert_ne K i j row v i' j' :
  K !! i = Some row -> (i', j') <> (i, j) ->
  entry (<[i := <[j := v]> row]> K) i' j' = entry K i' j'.
Proof.
  intros Hrow Hne. unfold entry.
  destruct (Nat.eq_dec i i') as [<-|Hi].
  - rewrite list_lookup_insert_eq by (eapply lookup_lt_Some, Hrow).
    rewrite Hrow. cbn. apply list_lookup_insert_ne. congruence.
  - rewrite list_lookup_insert_ne by exact Hi. reflexivity.
Qed.

Lemma square_insert n K i j row v :
  square n K -> K !! i = Some row -> square n (<[i := <[j := v]> row]> K).
Proof.
  intros [Hlen Hrows] Hrow. split; [rewrite length_insert; exact Hlen|].
  apply Forall_insert; [exact Hrows|]. rewrite length_insert.
  eapply (proj1 (Forall_lookup _ _) Hrows), Hrow.
Qed.

Lemma square_entry n K i j :
  square n K -> (i < n)%nat -> (j < n)%nat -> is_Some (entry K i j).
Proof.
  intros [Hlen Hrows] Hi Hj. unfold entry.
  destruct (lookup_lt_is_Some_2 K i) as [row Hrow]; [lia|]. rewrite Hrow. cbn.
  apply lookup_lt_is_Some_2.
  rewrite (proj1 (Forall_lookup _ _) Hrows i row Hrow). exact Hj.
Qed.

Lemma kernel_cell_spec n np nm j K i :
  square n K -> length np = n -> length nm = n -> (i < n)%nat -> (j < n)%nat ->
  exists K', kernel_cell np nm j K i = Some K' /\ square n K' /\
    entry K' i j = cell_value np nm i /\
    forall i' j', (i', j') <> (i, j) -> entry K' i' j' = entry K i' j'.
Proof.
  intros Hsq Hp Hm Hi Hj. unfold kernel_cell, cell_value.
  destruct (lookup_lt_is_Some_2 np i) as [p ->]; [lia|].
  destruct (lookup_lt_is_Some_2 nm i) as [m ->]; [lia|].
  destruct (lookup_lt_is_Some_2 K i) as [row Hrow]; [destruct Hsq; lia|].
  assert (Hr : length row = n)
    by (destruct Hsq as [_ H]; exact (proj1 (Forall_lookup _ _) H i row Hrow)).
  destruct (lookup_lt_is_Some_2 row j) as [x Hx]; [lia|].
  rewrite Hrow. cbn. rewrite Hx. cbn.
  eexists. split; [reflexivity|]. split; [apply square_insert; assumption|].
  split; [apply entry_insert_eq; [exact Hrow|lia]|].
  intros i' j' Hne. apply entry_insert_ne; assumption.
Qed.

Lemma kernel_rows_spec n np nm j idxs : forall K,
  square n K -> length np = n -> length nm = n -> (j < n)%nat ->
  Forall (fun i => (i < n)%nat) idxs ->
  exists K', foldlM (kernel_cell np nm j) idxs K = Some K' /\ square n K' /\
    (forall i, In i idxs -> entry K' i j = cell_value np nm i) /\
    (forall i' j', (j' <> j \/ ~ In i' idxs) -> entry K' i' j' = entry K i' j').
Proof.
  induction idxs as [|a idxs IH]; intros K Hsq Hp Hm Hj Hall.
  - exists K. cbn. repeat split; try apply Hsq. intros i [].
  - apply Forall_cons in Hall. destruct Hall as [Ha Hall].
    destruct (kernel_cell_spec n np nm j K a Hsq Hp Hm Ha Hj)
      as (K1 & Hstep & Hsq1 & Hval & Hkeep).
    destruct (IH K1 Hsq1 Hp Hm Hj Hall) as (K' & Hrun & Hsq' & Hvals & Hkeeps).
    exists K'. cbn [foldlM]. rewrite Hstep. cbn.
    split; [exact Hrun|]. split; [exact Hsq'|]. split.
    + intros i [<-|Hin]; [|apply Hvals, Hin].
      destruct (in_dec Nat.eq_dec a idxs) as [Hin|Hnot]; [apply Hvals, Hin|].
      rewrite Hkeeps by (right; exact Hnot). exact Hval.
    + intros i' j' Hout. rewrite Hkeeps.
      * apply Hkeep. intros [= -> ->]. destruct Hout as [Hne|Hnin];
          [apply Hne; reflexivity|apply Hnin; left; reflexivity].
      * destruct Hout as [Hne|Hnin]; [left; exact Hne|].
        right. intros Hin. apply Hnin. right. exact Hin.
Qed.

Lemma bump_is_Some (f : double -> double) v j :
  (j < length v)%nat ->
  exists x, v !! j = Some x /\ bump f v j = Some (<[j := f x]> v).
Proof.
  intros Hj. destruct (lookup_lt_is_Some_2 v j Hj) as [x Hx].
  exists x. split; [exact Hx|]. unfold bump. rewrite Hx. reflexivity.
Qed.

Lemma difference_column l j next_plus next_minus plus minus i :
  bump (fun x => add x eps) (state_ l) j = Some plus ->
  bump (fun x => sub x eps) (state_ l) j = Some minus ->
  apply_rule tanh l plus = Some next_plus ->
  apply_rule tanh l minus = Some next_minus ->
  (i < size_ l)%nat ->
  difference tanh l i j = cell_value next_plus next_minus i.
Proof.
  intros Hp Hm Hnp Hnm Hi. unfold difference, cell_value.
  rewrite Hp, Hm. cbv beta iota delta [mbind option_bind].
  apply apply_rule_Some in Hnp. apply apply_rule_Some in Hnm.
  destruct (proj2 Hnp i Hi) as [-> _]. destruct (proj2 Hnm i Hi) as [-> _].
  reflexivity.
Qed.

Lemma kernel_column_spec l K j :
  wf l -> square (size_ l) K -> (j < size_ l)%nat ->
  exists K', kernel_column tanh l (state_ l) K j = Some K' /\
    square (size_ l) K' /\
    (forall i, (i < size_ l)%nat -> entry K' i j = difference tanh l i j) /\
    (forall i' j', j' <> j -> entry K' i' j' = entry K i' j').
Proof.
  intros (Hn & Hs & _) Hsq Hj. unfold kernel_column.
  destruct (bump_is_Some (fun x => add x eps) (state_ l) j) as (x & Hx & Hp);
    [lia|].
  destruct (bump_is_Some (fun x => sub x eps) (state_ l) j) as (x' & _ & Hm);
    [lia|].
  rewrite Hp, Hm. cbv beta iota delta [mbind option_bind].
  destruct (apply_rule_is_Some l (<[j := add x eps]> (state_ l)) Hn)
    as (np & Hnp & Hlp); [rewrite length_insert; lia|].
  destruct (apply_rule_is_Some l (<[j := sub x' eps]> (state_ l)) Hn)
    as (nm & Hnm & Hlm); [rewrite length_insert; lia|].
  rewrite Hnp, Hnm. cbv beta iota delta [mbind option_bind].
  destruct (kernel_rows_spec (size_ l) np nm j (seq 0 (size_ l)) K Hsq Hlp Hlm Hj)
    as (K' & Hrun & Hsq' & Hvals & Hkeep).
  { apply Forall_forall. intros i Hi. apply elem_of_seq in Hi. lia. }
  exists K'. split; [exact Hrun|]. split; [exact Hsq'|]. split.
  - intros i Hi. rewrite Hvals by (apply in_seq; lia).
    symmetry. eapply difference_column; eassumption.
  - intros i' j' Hne. apply Hkeep. left. exact Hne.
Qed.

Lemma kernel_columns_spec l js : forall K,
  wf l -> square (size_ l) K -> Forall (fun j => (j < size_ l)%nat) js ->
  exists K', foldlM (kernel_column tanh l (state_ l)) js K = Some K' /\
    square (size_ l) K' /\
    (forall i j, (i < size_ l)%nat -> In j js ->
       entry K' i j = difference tanh l i j) /\
    (forall i j, ~ In j js -> entry K' i j = entry K i j).
Proof.
  induction js as [|a js IH]; intros K Hwf Hsq Hall.
  - exists K. cbn. repeat split; try apply Hsq. intros i j _ [].
  - apply Forall_cons in Hall. destruct Hall as [Ha Hall].
    destruct (kernel_column_spec l K a Hwf Hsq Ha)
      as (K1 & Hstep & Hsq1 & Hval & Hkeep).
    destruct (IH K1 Hwf Hsq1 Hall) as (K' & Hrun & Hsq' & Hvals & Hkeeps).
    exists K'. cbn [foldlM]. rewrite Hstep. cbn.
    split; [exact Hrun|]. split; [exact Hsq'|]. split.
    + intros i j Hi [<-|Hin]; [|apply Hvals; assumption].
      destruct (in_dec Nat.eq_dec a js) as [Hin|Hnot];
        [apply Hvals; assumption|].
      rewrite Hkeeps by exact Hnot. apply Hval, Hi.
    + intros i j Hnin. rewrite Hkeeps by (intros Hin; apply Hnin; right; exact Hin).
      apply Hkeep. intros ->. apply Hnin. left. reflexivity.
Qed.

Lemma compute_kernel_spec l :
  wf l ->
  exists K, compute_kernel tanh l
            = Some {| size_ := size_ l; alpha_ := alpha_ l; beta_ := beta_ l;
                      state_ := state_ l; kernel_ := K |} /\
    square (size_ l) K /\
    forall i j, (i < size_ l)%nat -> (j < size_ l)%nat ->
      entry K i j = difference tanh l i j.
Proof.
  intros Hwf. pose proof Hwf as (Hn & Hs & Hk & Hrows).
  destruct (kernel_columns_spec l (seq 0 (size_ l)) (kernel_ l) Hwf)
    as (K & Hrun & Hsq & Hvals & _).
  { split; assumption. }
  { apply Forall_forall. intros i Hi. apply elem_of_seq in Hi. lia. }
  exists K. unfold compute_kernel. rewrite Hrun. cbn.
  split; [reflexivity|]. split; [exact Hsq|].
  intros i j Hi Hj. apply Hvals; [exact Hi|apply in_seq; lia].
Qed.

Lemma difference_is_Some l i j :
  wf l -> (i < size_ l)%nat -> (j < size_ l)%nat ->
  is_Some (difference tanh l i j).
Proof.
  intros (Hn & Hs & _) Hi Hj. unfold difference.
  destruct (bump_is_Some (fun x => add x eps) (state_ l) j) as (x & _ & ->);
    [lia|].
  destruct (bump_is_Some (fun x => sub x eps) (state_ l) j) as (x' & _ & ->);
    [lia|].
  cbv beta iota delta [mbind option_bind].
  destruct (site_is_Some l (<[j := add x eps]> (state_ l)) i Hn)
    as (? & ? & ? & _ & _ & _ & ->); [rewrite length_insert; lia|exact Hi|].
  destruct (site_is_Some l (<[j := sub x' eps]> (state_ l)) i Hn)
    as (? & ? & ? & _ & _ & _ & ->); [rewrite length_insert; lia|exact Hi|].
  cbv beta iota delta [mbind option_bind]. eauto.
Qed.

(** X26: [derive] on a well-formed lattice stays in bounds, leaves the
    state alone and fills the kernel, entry by entry, with the centred
    differences. *)
Theorem derive_kernel (l : Lattice1D) :
  wf l ->
  exists l', derive tanh l = Some l' /\ wf l' /\
    size_ l' = size_ l /\ alpha_ l' = alpha_ l /\ beta_ l' = beta_ l /\
    state_ l' = state_ l /\
    forall i j, (i < size_ l)%nat -> (j < size_ l)%nat ->
      entry (kernel_ l') i j = difference tanh l i j /\
      is_Some (difference tanh l i j).
Proof.
  intros Hwf. destruct (compute_kernel_spec l Hwf) as (K & Hrun & Hsq & Hvals).
  eexists. split; [exact Hrun|]. cbn [size_ alpha_ beta_ state_ kernel_].
  split.
  - destruct Hwf as (Hn & Hs & _). destruct Hsq as [Hk Hrows].
    unfold wf. cbn [size_ state_ kernel_]. auto.
  - repeat split; try reflexivity.
    + apply Hvals; assumption.
    + apply difference_is_Some; assumption.
Qed.

Lemma sub_self x : sub x x = zero \/ sub x x = nan.
Proof.
  destruct x as [[]|[]| |s m e]; try (left; reflexivity); try (right; reflexivity).
  left. unfold sub, SFsub. rewrite Z.sub_diag. reflexivity.
Qed.

Lemma two_eps : mul (of_Z 2) eps = S754_finite false 4503599627370496 (-77).
Proof. vm_compute. reflexivity. Qed.

Lemma site_insert_far l input i j x :
  ~ near (size_ l) i j ->
  site tanh l (<[j := x]> input) i = site tanh l input i.
Proof.
  intros Hfar. unfold site. cbv zeta.
  fold (left_of (size_ l) i). fold (right_of (size_ l) i).
  unfold near in Hfar.
  rewrite !list_lookup_insert_ne by (intros ->; tauto). reflexivity.
Qed.

Lemma difference_far l i j :
  wf l -> (i < size_ l)%nat -> (j < size_ l)%nat -> ~ near (size_ l) i j ->
  difference tanh l i j = Some zero \/ difference tanh l i j = Some nan.
Proof.
  intros (Hn & Hs & _) Hi Hj Hfar. unfold difference.
  destruct (bump_is_Some (fun x => add x eps) (state_ l) j) as (x & _ & ->);
    [lia|].
  destruct (bump_is_Some (fun x => sub x eps) (state_ l) j) as (x' & _ & ->);
    [lia|].
  cbv beta iota delta [mbind option_bind].
  rewrite !site_insert_far by exact Hfar.
  destruct (site_is_Some l (state_ l) i Hn) as (gi & gl & gr & _ & _ & _ & ->);
    [lia|exact Hi|].
  cbv beta iota delta [mbind option_bind]. rewrite two_eps.
  destruct (sub_self (tanh (add (mul (alpha_ l) gi) (mul (beta_ l) (add gl gr)))))
    as [-> | ->]; [left|right]; reflexivity.
Qed.

(** X27: a step at site [j] does not reach a site [i] that is neither
    [j] nor one of its two neighbours: the kernel entry is [+0], or NaN
    when the value of the site is not finite. *)
Theorem kernel_banded (l l' : Lattice1D) (i j : nat) :
  wf l -> derive tanh l = Some l' ->
  (i < size_ l)%nat -> (j < size_ l)%nat -> ~ near (size_ l) i j ->
  entry (kernel_ l') i j = Some zero \/ entry (kernel_ l') i j = Some nan.
Proof.
  intros Hwf Hrun Hi Hj Hfar.
  destruct (compute_kernel_spec l Hwf) as (K & Hrun' & _ & Hvals).
  unfold derive in Hrun. rewrite Hrun' in Hrun. injection Hrun as <-.
  cbn [kernel_]. rewrite (Hvals i j Hi Hj).
  apply difference_far; assumption.
Qed.

End Libm.

(** X22: [reset] throws on a vector of another size and otherwise
    installs it, which restores the invariant whatever was done to the
    state through [g()]. *)
Theorem reset_cases (l : Lattice1D) (state : list double) :
  (length state <> size_ l ->
   reset l state
   = Throw (invalid_argument
              "reset() expects a vector matching lattice size.")) /\
  (length state = size_ l ->
   reset l state = Ok (set_g l state) /\
   ((3 <= size_ l)%nat -> square (size_ l) (kernel_ l) ->
    wf (set_g l state))).
Proof.
  unfold reset. split.
  - intros Hne. destruct (Nat.eqb_spec (length state) (size_ l)); [tauto|].
    reflexivity.
  - intros Heq. rewrite (proj2 (Nat.eqb_eq _ _) Heq). split; [reflexivity|].
    intros Hn [Hk Hrows]. unfold wf, set_g. cbn [size_ state_ kernel_]. auto.
Qed.

Lemma reset_cases_witness :
  reset demo_lattice (replicate 9 one)
  = Ok (set_g demo_lattice (replicate 9 one)) /\
  wf (set_g demo_lattice (replicate 9 one)) /\
  reset demo_lattice []
  = Throw (invalid_argument "reset() expects a vector matching lattice size.").
Proof.
  destruct (reset_cases demo_lattice (replicate 9 one)) as [_ Hok].
  destruct (reset_cases demo_lattice []) as [Hthrow _].
  destruct Hok as [Hr Hwf]; [reflexivity|].
  split; [exact Hr|]. split.
  - apply Hwf; [cbn; lia|]. split; [reflexivity|].
    cbn. repeat constructor.
  - apply Hthrow. discriminate.
Defined.

Lemma column_spec l index :
  wf l ->
  ((size_ l <= index)%nat ->
   column l index = Throw (out_of_range "Column index is out of bounds.")) /\
  ((index < size_ l)%nat ->
   exists col, column l index = Ok col /\ length col = size_ l /\
     forall row, (row < size_ l)%nat ->
       is_Some (col !! row) /\ col !! row = entry (kernel_ l) row index).
Proof.
  intros (Hn & _ & Hk & Hrows). unfold column. split.
  - intros Hge. destruct (Nat.leb_spec (size_ l) index); [reflexivity|lia].
  - intros Hlt. destruct (Nat.leb_spec (size_ l) index); [lia|].
    change (mapM (fun row => r ← kernel_ l !! row; r !! index))
      with (mapM (fun row => entry (kernel_ l) row index)).
    assert (Hsome : forall row, (row < size_ l)%nat ->
              is_Some (entry (kernel_ l) row index))
      by (intros row Hrow; apply (square_entry (size_ l)); [split|..]; assumption).
    destruct (mapM (fun row => entry (kernel_ l) row index) (seq 0 (size_ l)))
      as [col|] eqn:Hcol.
    + exists col. split; [reflexivity|].
      apply mapM_Some in Hcol. pose proof (Forall2_length _ _ _ Hcol) as Hlen.
      rewrite length_seq in Hlen. split; [symmetry; exact Hlen|].
      intros row Hrow.
      destruct (lookup_lt_is_Some_2 col row) as [y Hy]; [lia|].
      assert (Hs : seq 0 (size_ l) !! row = Some row)
        by (rewrite lookup_seq; split; [reflexivity|exact Hrow]).
      pose proof (Forall2_lookup_lr _ _ _ _ _ _ Hcol Hs Hy) as He.
      cbv beta in He. rewrite He, Hy. split; [eauto|reflexivity].
    + exfalso. apply eq_None_not_Some in Hcol. apply Hcol.
      apply mapM_is_Some. apply Forall_forall. intros row Hrow.
      apply elem_of_seq in Hrow. unfold compose. apply Hsome. lia.
Qed.

(** X28: [column] throws from [size_] on; below, it returns the [size_]
    entries of that column, top to bottom. *)
Theorem column_cases (l : Lattice1D) (index : nat) :
  wf l ->
  ((size_ l <= index)%nat ->
   column l index = Throw (out_of_range "Column index is out of bounds.")) /\
  ((index < size_ l)%nat ->
   exists col, column l index = Ok col /\ length col = size_ l /\
     forall row, (row < size_ l)%nat ->
       is_Some (col !! row) /\ col !! row = entry (kernel_ l) row index).
Proof. apply column_spec. Qed.

Lemma demo_lattice_wf : wf demo_lattice.
Proof.
  unfold wf. cbn. split; [lia|]. split; [reflexivity|]. split; [reflexivity|].
  repeat constructor.
Qed.

Lemma column_cases_witness :
  column demo_lattice 9
  = Throw (out_of_range "Column index is out of bounds.") /\
  exists col, column demo_lattice 4 = Ok col /\ length col = 9%nat /\
     forall row, (row < 9)%nat ->
       is_Some (col !! row) /\ col !! row = entry (kernel_ demo_lattice) row 4.
Proof.
  destruct (column_cases demo_lattice 9 demo_lattice_wf) as [Hthrow _].
  destruct (column_cases demo_lattice 4 demo_lattice_wf) as [_ Hok].
  split; [apply Hthrow; cbn; lia|apply Hok; cbn; lia].
Defined.

Lemma forward_defined_witness :
  (exists l', forward demo_tanh demo_lattice = Some l' /\
     length (state_ l') = 9%nat /\ size_ l' = 9%nat /\
     alpha_ l' = one /\ beta_ l' = lit 5 10 /\
     kernel_ l' = kernel_ demo_lattice) /\
  forward demo_tanh (set_g demo_lattice [one; one]) = None.
Proof.
  destruct (forward_defined demo_tanh demo_lattice) as [Hok _]; [cbn; lia|].
  destruct (forward_defined demo_tanh (set_g demo_lattice [one; one]))
    as [_ Hub]; [cbn; lia|].
  split; [apply Hok; cbn; lia|apply Hub; cbn; lia].
Defined.

Lemma forward_steps_wf_witness :
  exists l1 l2,
    forward_steps demo_tanh demo_lattice 2 = Some l1 /\ wf l1 /\
    forward_steps demo_tanh l1 3 = Some l2 /\ wf l2 /\
    forward_steps demo_tanh demo_lattice (2 + 3) = Some l2 /\
    size_ l2 = size_ demo_lattice /\ alpha_ l2 = alpha_ demo_lattice /\
    beta_ l2 = beta_ demo_lattice /\ kernel_ l2 = kernel_ demo_lattice.
Proof. apply (forward_steps_wf demo_tanh demo_lattice 2 3 demo_lattice_wf). Defined.

Lemma forward_rotate_witness :
  exists l',
    forward demo_tanh demo_lattice = Some l' /\
    forward demo_tanh (set_g demo_lattice (rotate 3 (state_ demo_lattice)))
    = Some (set_g l' (rotate 3 (state_ l'))).
Proof. apply (forward_rotate demo_tanh demo_lattice 3 demo_lattice_wf). Defined.

Lemma derive_kernel_witness :
  exists l', derive demo_tanh demo_lattice = Some l' /\ wf l' /\
    size_ l' = size_ demo_lattice /\ alpha_ l' = alpha_ demo_lattice /\
    beta_ l' = beta_ demo_lattice /\ state_ l' = state_ demo_lattice /\
    forall i j, (i < size_ demo_lattice)%nat -> (j < size_ demo_lattice)%nat ->
      entry (kernel_ l') i j = difference demo_tanh demo_lattice i j /\
      is_Some (difference demo_tanh demo_lattice i j).
Proof. apply (derive_kernel demo_tanh demo_lattice demo_lattice_wf). Defined.

Lemma kernel_banded_witness :
  exists l', derive demo_tanh demo_lattice = Some l' /\
    (entry (kernel_ l') 4 7 = Some zero \/ entry (kernel_ l') 4 7 = Some nan).
Proof.
  eexists. split; [vm_compute; reflexivity|].
  eapply (kernel_banded demo_tanh demo_lattice _ 4 7 demo_lattice_wf);
    [vm_compute; reflexivity|cbn; lia|cbn; lia|].
  unfold near, left_of, right_of. cbn. lia.
Defined.

(** X29: [main.cpp] neither throws nor reads out of bounds, whatever
    [tanh] does: it prints the nine entries of column 4, and those of the
    sites that are not next to site 4 are [+0] or NaN. *)
Theorem main_prints (tanh : double -> double) :
  exists col,
    main_column tanh = Ok col /\ length col = 9%nat /\
    forall i x, col !! i = Some x -> (i < 3 \/ 5 < i)%nat ->
      x = zero \/ x = nan.
Proof.
  unfold main_column.
  change (make 9 one (lit 5 10)) with (Ok (set_g demo_lattice (replicate 9 zero))).
  cbv zeta. cbn [set_g state_].
  change (replicate 9 zero !! 4%nat) with (Some zero).
  change (set_g (set_g demo_lattice (replicate 9 zero))
                (<[4%nat := lit 25 100]> (replicate 9 zero)))
    with demo_lattice.
  destruct (forward_wf tanh demo_lattice demo_lattice_wf)
    as (l1 & -> & Hwf1 & Hsize & _).
  cbv beta iota delta [mbind option_bind].
  destruct (compute_kernel_spec tanh l1 Hwf1) as (K & Hrun & Hsq & Hvals).
  unfold derive. rewrite Hrun.
  set (l2 := {| size_ := size_ l1; alpha_ := alpha_ l1; beta_ := beta_ l1;
                state_ := state_ l1; kernel_ := K |}).
  assert (Hwf2 : wf l2).
  { destruct Hwf1 as (Hn & Hs & _). destruct Hsq as [Hk Hrows].
    unfold wf, l2. cbn [size_ state_ kernel_]. auto. }
  change (size_ demo_lattice) with 9%nat in Hsize.
  destruct (column_spec l2 4 Hwf2) as [_ Hcol].
  destruct Hcol as (col & -> & Hlen & Hrows);
    [unfold l2; cbn [size_]; rewrite Hsize; lia|].
  unfold l2 in Hlen, Hrows. cbn [size_ kernel_] in Hlen, Hrows.
  rewrite Hsize in Hlen, Hrows.
  exists col. split; [reflexivity|]. split; [exact Hlen|].
  intros i x Hx Hi.
  assert (Hi9 : (i < 9)%nat)
    by (rewrite <- Hlen; eapply lookup_lt_Some, Hx).
  destruct (Hrows i Hi9) as [_ He]. rewrite Hx in He.
  rewrite Hvals in He by (rewrite Hsize; lia).
  destruct (difference_far tanh l1 i 4 Hwf1) as [Hd|Hd];
    [rewrite Hsize; lia|rewrite Hsize; lia| |rewrite Hd in He|rewrite Hd in He].
  - rewrite Hsize. unfold near, left_of, right_of.
    destruct i as [|[|[|[|[|[|[|[|[|i]]]]]]]]]; cbn; lia.
  - left. congruence.
  - right. congruence.
Qed.

End LatticeFacts.

(** ** Edges of the domain: sizes beyond [int], the score, the radii *)

Module EdgeFacts.

Import Double DoubleFacts RoundingSpec RoundingFacts OrderFacts IntFacts LoopFacts.
Import torus_metrics MetricsSpec ascii_torus RenderSpec RenderFacts DepthSpec.
Import DensityFacts PassFacts ControllerSpec ScoreSpec ScoreFacts.
Import ConfigSpec ConfigFacts EdgeSpec.

(** *** Sizes beyond [int] *)

(** A loop faults as soon as one of its iterations faults from every
    state. *)
Lemma foldlM_None {A S : Type} (f : S -> A -> option S) a l :
  In a l -> (forall s, f s a = None) -> forall s, foldlM f l s = None.
Proof.
  intros Hin Hf. induction l as [|b l IH]; intros s; [destruct Hin|].
  cbn [foldlM]. destruct (f s b) as [s'|] eqn:Hb; [|reflexivity].
  cbv beta iota delta [mbind option_bind].
  destruct Hin as [->|Hin]; [rewrite Hf in Hb; discriminate|apply IH, Hin].
Qed.

Lemma get_negative {A : Type} (l : list A) i : i < 0 -> get l i = None.
Proof.
  intros Hi. unfold get. destruct (Z.ltb_spec i 0); [reflexivity|lia].
Qed.

Lemma quality_cell_None buf w y st x :
  Int.sub (Int.add (Int.mul y w) x) 1 < 0 -> quality_cell buf w y st x = None.
Proof.
  intros Hneg. destruct st as [acc cnt]. unfold quality_cell. cbv zeta.
  rewrite (get_negative buf _ Hneg). reflexivity.
Qed.

(** C9 as stated fails: on a buffer of exactly 65536 x 65536 cells the
    offset [y * w + x] leaves the [int] range at row 32768 and the read at
    [off - 1] is outside the buffer. *)
Lemma quality_access_overflow_counterexample :
  3 <= 65536 /\ Z.of_nat (length big_frame) = 65536 * 65536 /\
  estimate_ascii_quality big_frame 65536 65536 = None.
Proof.
  split; [lia|]. split.
  - unfold big_frame. rewrite length_replicate. apply Z2Nat.id. lia.
  - unfold estimate_ascii_quality.
    change ((65536 <? 3) || (65536 <? 3)) with false. cbv iota.
    rewrite (foldlM_None (quality_row big_frame 65536) 32768); [reflexivity| |].
    + apply in_int_range. change (Int.sub 65536 1) with 65535. lia.
    + intros st. unfold quality_row.
      apply (foldlM_None (quality_cell big_frame 65536 32768) 1).
      * apply in_int_range. change (Int.sub 65536 1) with 65535. lia.
      * intros st'. apply quality_cell_None. vm_compute. reflexivity.
Qed.

(** Against itself, a buffer whose size agrees with [w * h] as an [int]
    scores 1 unless that [int] is 0. *)
Lemma self_similarity_value (buf : list byte) w h :
  Int.wrap (Z.of_nat (length buf)) = Int.mul w h ->
  estimate_ascii_similarity buf buf w h
  = Some (if Int.mul w h =? 0 then zero else one).
Proof.
  intros Hsz. unfold estimate_ascii_similarity.
  rewrite Nat.eqb_refl, Hsz, Z.eqb_refl. cbn [negb orb].
  rewrite (self_similarity_loop buf _ (similarity_range_in_bounds buf w h Hsz)).
  cbv beta iota delta [mbind option_bind].
  destruct (Z.eqb_spec (Int.mul w h) 0) as [|Hne]; [reflexivity|].
  destruct (of_Z_int_finite (Int.mul w h) (wrap_range _) Hne)
    as (s & p & e & ->).
  reflexivity.
Qed.

(** C4 as stated fails: a buffer of 2^32 + 5 cells does not have [5 * 1]
    cells, yet against itself at 5 x 1 it passes the guard, whose size is
    converted to [int], and scores 1. *)
Lemma sentinel_zero_wide_counterexample :
  Z.of_nat (length wide_buf) <> 5 * 1 /\
  estimate_ascii_similarity wide_buf wide_buf 5 1 = Some one.
Proof.
  assert (Hlen : Z.of_nat (length wide_buf) = 2 ^ 32 + 5).
  { unfold wide_buf. rewrite length_replicate. apply Z2Nat.id. lia. }
  split; [rewrite Hlen; lia|].
  rewrite (self_similarity_value wide_buf 5 1); [reflexivity|].
  rewrite Hlen. reflexivity.
Qed.

(** *** Self-similarity *)

(** C5, as amended: a buffer of exactly [w * h] cells compared with itself
    scores 1, unless [w * h] is 0 as an [int] (the empty buffer), where it
    scores 0. *)
Theorem self_similarity_by_size (buf : list byte) (w h : Z) :
  Z.of_nat (length buf) = w * h ->
  estimate_ascii_similarity buf buf w h
  = Some (if Int.mul w h =? 0 then zero else one).
Proof.
  intros Hlen. apply self_similarity_value. rewrite Hlen. reflexivity.
Qed.

Lemma self_similarity_by_size_witness :
  estimate_ascii_similarity demo_buf demo_buf 4 3
  = Some (if Int.mul 4 3 =? 0 then zero else one).
Proof. apply (self_similarity_by_size demo_buf 4 3). reflexivity. Defined.

(** C5 as stated fails: the empty buffer against itself at 0 x 0 scores 0,
    and so does a two-cell buffer against itself at 1 x 1. *)
Lemma self_similarity_empty_counterexample :
  estimate_ascii_similarity [] [] 0 0 = Some zero /\
  estimate_ascii_similarity (list_byte_of_string "ab")
                            (list_byte_of_string "ab") 1 1 = Some zero /\
  zero <> one.
Proof. split; [reflexivity|]. split; [reflexivity|discriminate]. Qed.

(** *** The score *)

Section Libm.

Variable cos sin : double -> double.
Variable pow : double -> double -> double.



End Libm.



(** *** The radii *)





End EdgeFacts.
